(** * ASA directory editor: the harmonizer worker, embedded in Rocq

    The development follows the two Cloudflare workers of the repository:

    - the harmonizer worker ([/harmonize]: collect files, ask the language
      model for a rewrite, preview or apply it), modelled in [Harmonizer];
    - the older code-harmonizer worker ([/api/harmonize]: branch, touchpoint
      file, pull request), modelled in [CodeHarmonizer].

    JavaScript values are embedded as a small untyped universe ([JS.value]),
    strings as lists of UTF-16 code units, and the network as an oracle that
    the workers query through an explicit state-and-trace monad: a run
    yields its outcome, the final world and the remote calls it issued, each
    with the answer it got.  The built-in string functions the workers rely
    on ([encodeURIComponent], [unescape], [btoa], [atob], [escape],
    [decodeURIComponent]) are written out after their ECMAScript and WHATWG
    definitions in [Builtins].

    [Spec] holds the vocabulary of the specification (mutating calls, the
    order of an apply run, the remote tree, skipped and eligible files),
    [Mock] concrete runtimes and scenarios.  The properties follow in the
    second part. *)

From Stdlib Require Import ZArith List String Ascii Bool Lia DecimalString.
Import ListNotations.

Local Open Scope Z_scope.
Set Warnings "-register-all,-notation-for-abbreviation,-abstract-large-number".

(* ===================================================================== *)
(** * Part I: definitions                                                  *)
(* ===================================================================== *)

(** ** JavaScript strings and values *)

Module JS.

(** A string is its sequence of UTF-16 code units. *)
Definition jstr := list Z.

Definition lit (s : string) : jstr :=
  map (fun a => Z.of_N (N_of_ascii a)) (list_ascii_of_string s).
Arguments lit s%_string.

Fixpoint jstr_eqb (a b : jstr) : bool :=
  match a, b with
  | [], [] => true
  | x :: a', y :: b' => (x =? y) && jstr_eqb a' b'
  | _, _ => false
  end.

(** Decimal rendering of an integer (Number::toString on integers below
    10^21 in magnitude). *)
Definition dec (n : Z) : jstr := lit (NilZero.string_of_int (Z.to_int n)).

Fixpoint join (sep : jstr) (l : list jstr) : jstr :=
  match l with
  | [] => []
  | [x] => x
  | x :: r => x ++ sep ++ join sep r
  end.

(** Values as [JSON.parse] and the runtime hand them to the worker.  Numbers
    are restricted to integers. *)
Inductive value :=
| VUndef
| VNull
| VBool (b : bool)
| VNum (n : Z)
| VStr (s : jstr)
| VArr (items : list value)
| VObj (fields : list (jstr * value)).

Inductive exn :=
| Error (msg : jstr)          (* [throw new Error(msg)] in the worker *)
| TypeError
| SyntaxError
| URIError
| InvalidCharacterError.

(** Partial pure computations: [inl e] is a thrown [e]. *)
Definition partial (A : Type) := sum exn A.

Definition pbind {A B} (m : partial A) (k : A -> partial B) : partial B :=
  match m with
  | inl e => inl e
  | inr a => k a
  end.

Fixpoint lookup (k : jstr) (fs : list (jstr * value)) : value :=
  match fs with
  | [] => VUndef
  | (k', v) :: r => if jstr_eqb k k' then v else lookup k r
  end.

Definition has_key (k : jstr) (fs : list (jstr * value)) : bool :=
  existsb (fun kv => jstr_eqb k (fst kv)) fs.

Definition length_key : jstr := lit "length".

(** Property read [v.k], for the property names the workers use (none of
    them lives on a prototype except [length]). *)
Definition get (v : value) (k : jstr) : partial value :=
  match v with
  | VUndef | VNull => inl TypeError
  | VObj fs => inr (lookup k fs)
  | VArr l => inr (if jstr_eqb k length_key then VNum (Z.of_nat (List.length l)) else VUndef)
  | VStr s => inr (if jstr_eqb k length_key then VNum (Z.of_nat (List.length s)) else VUndef)
  | VBool _ | VNum _ => inr VUndef
  end.

(** Optional chaining [v?.k]. *)
Definition get_opt (v : value) (k : jstr) : value :=
  match get v k with
  | inl _ => VUndef
  | inr x => x
  end.

(** Indexed read [v[i]]. *)
Definition get_index (v : value) (i : nat) : partial value :=
  match v with
  | VUndef | VNull => inl TypeError
  | VArr l => inr (nth i l VUndef)
  | VStr s => inr (match nth_error s i with Some c => VStr [c] | None => VUndef end)
  | VObj fs => inr (lookup (dec (Z.of_nat i)) fs)
  | VBool _ | VNum _ => inr VUndef
  end.

Definition truthy (v : value) : bool :=
  match v with
  | VUndef | VNull => false
  | VBool b => b
  | VNum n => negb (n =? 0)
  | VStr s => match s with [] => false | _ => true end
  | VArr _ | VObj _ => true
  end.

(** [a || b] *)
Definition or_else (a b : value) : value := if truthy a then a else b.

(** [v === "..."] against a string. *)
Definition is_str (v : value) (s : jstr) : bool :=
  match v with
  | VStr t => jstr_eqb t s
  | _ => false
  end.

(** ToString. *)
Fixpoint toStr (v : value) : jstr :=
  match v with
  | VUndef => lit "undefined"
  | VNull => lit "null"
  | VBool true => lit "true"
  | VBool false => lit "false"
  | VNum n => dec n
  | VStr s => s
  | VArr l =>
      join (lit ",")
        (map (fun x => match x with VUndef | VNull => [] | _ => toStr x end) l)
  | VObj _ => lit "[object Object]"
  end.

Definition is_lead (c : Z) : bool := (55296 <=? c) && (c <=? 56319).
Definition is_trail (c : Z) : bool := (56320 <=? c) && (c <=? 57343).

(** The string iterator: one string per code point. *)
Fixpoint chars (s : jstr) : list jstr :=
  match s with
  | [] => []
  | c :: r =>
      match r with
      | d :: r' => if is_lead c && is_trail d then [c; d] :: chars r' else [c] :: chars r
      | [] => [[c]]
      end
  end.

(** What [for (const x of v)] iterates over. *)
Definition iterate (v : value) : partial (list value) :=
  match v with
  | VArr l => inr l
  | VStr s => inr (map VStr (chars s))
  | _ => inl TypeError
  end.

End JS.
Export JS.

(** ** The built-in string functions *)

Module Builtins.

(** *** Hexadecimal digits and percent escapes *)

(** Upper-case hexadecimal digit of a nibble. *)
Definition hexdigit (d : Z) : Z := if d <? 10 then 48 + d else 55 + d.

Definition hexval (c : Z) : option Z :=
  if (48 <=? c) && (c <=? 57) then Some (c - 48)
  else if (65 <=? c) && (c <=? 70) then Some (c - 55)
  else if (97 <=? c) && (c <=? 102) then Some (c - 87)
  else None.

Definition hexbyte (h l : Z) : option Z :=
  match hexval h, hexval l with
  | Some a, Some b => Some (a * 16 + b)
  | _, _ => None
  end.

(** [%XX] *)
Definition pct (b : Z) : jstr := [37; hexdigit (b / 16); hexdigit (b mod 16)].

Definition is_alnum (c : Z) : bool :=
  ((65 <=? c) && (c <=? 90)) || ((97 <=? c) && (c <=? 122))
  || ((48 <=? c) && (c <=? 57)).

Definition mem (c : Z) (s : jstr) : bool := existsb (Z.eqb c) s.

(** *** UTF-8 and UTF-16 *)

(** The octets of a code point. *)
Definition utf8 (cp : Z) : list Z :=
  if cp <? 128 then [cp]
  else if cp <? 2048 then [192 + cp / 64; 128 + cp mod 64]
  else if cp <? 65536 then
    [224 + cp / 4096; 128 + (cp / 64) mod 64; 128 + cp mod 64]
  else
    [240 + cp / 262144; 128 + (cp / 4096) mod 64;
     128 + (cp / 64) mod 64; 128 + cp mod 64].

(** UTF16EncodeCodePoint. *)
Definition utf16 (cp : Z) : jstr :=
  if cp <? 65536 then [cp]
  else [55296 + (cp - 65536) / 1024; 56320 + (cp - 65536) mod 1024].

(** CodePointAt for the unit [c] followed by [rest]: the code point and the
    number of further units it takes, or [None] for an unpaired surrogate. *)
Definition CodePointAt (c : Z) (rest : jstr) : option (Z * nat) :=
  if is_lead c then
    match rest with
    | d :: _ =>
        if is_trail d
        then Some ((c - 55296) * 1024 + (d - 56320) + 65536, 1%nat)
        else None
    | [] => None
    end
  else if is_trail c then None
  else Some (c, 0%nat).

(** *** encodeURIComponent *)

(** uriUnreserved: letters, digits and [-_.!~*'()]. *)
Definition uri_unreserved (c : Z) : bool :=
  is_alnum c || mem c [45; 95; 46; 33; 126; 42; 39; 40; 41].

(** Encode(string, unescapedSet).  [skip] counts the code units already
    consumed by the previous step (the index [k] of the specification runs
    ahead of the list by that many units). *)
Fixpoint Encode (unescaped : Z -> bool) (skip : nat) (s : jstr) : option jstr :=
  match s with
  | [] => Some []
  | c :: rest =>
      match skip with
      | S k => Encode unescaped k rest
      | O =>
          if unescaped c then option_map (cons c) (Encode unescaped 0 rest)
          else
            match CodePointAt c rest with
            | None => None
            | Some (cp, extra) =>
                option_map (app (flat_map pct (utf8 cp)))
                  (Encode unescaped extra rest)
            end
      end
  end.

Definition encodeURIComponent (s : jstr) : partial jstr :=
  match Encode uri_unreserved 0 s with
  | Some r => inr r
  | None => inl URIError
  end.

(** *** unescape (Annex B) *)

Definition hex4 (a b c d : Z) : option Z :=
  match hexbyte a b, hexbyte c d with
  | Some x, Some y => Some (x * 256 + y)
  | _, _ => None
  end.

(** What follows a [%]: the unescaped unit and how many units it spans. *)
Definition unescape_at (rest : jstr) : option (Z * nat) :=
  match rest with
  | u :: a :: b :: c :: d :: _ =>
      if u =? 117 then option_map (fun n => (n, 5%nat)) (hex4 a b c d)
      else option_map (fun n => (n, 2%nat)) (hexbyte u a)
  | h :: l :: _ => option_map (fun n => (n, 2%nat)) (hexbyte h l)
  | _ => None
  end.

Fixpoint unescape_from (skip : nat) (s : jstr) : jstr :=
  match s with
  | [] => []
  | c :: rest =>
      match skip with
      | S k => unescape_from k rest
      | O =>
          match (if c =? 37 then unescape_at rest else None) with
          | Some (n, adv) => n :: unescape_from adv rest
          | None => c :: unescape_from 0 rest
          end
      end
  end.

Definition unescape (s : jstr) : jstr := unescape_from 0 s.

(** *** escape (Annex B) *)

(** Letters, digits and [@*_+-./]. *)
Definition escape_unreserved (c : Z) : bool :=
  is_alnum c || mem c [64; 42; 95; 43; 45; 46; 47].

Definition escape_unit (c : Z) : jstr :=
  if escape_unreserved c then [c]
  else if c <? 256 then pct c
  else [37; 117; hexdigit (c / 4096); hexdigit ((c / 256) mod 16);
        hexdigit ((c / 16) mod 16); hexdigit (c mod 16)].

Definition escape (s : jstr) : jstr := flat_map escape_unit s.

(** *** decodeURIComponent *)

(** A [%XX] escape at the front of [s]. *)
Definition octet_at (s : jstr) : option Z :=
  match s with
  | p :: h :: l :: _ => if p =? 37 then hexbyte h l else None
  | _ => None
  end.

Definition is_cont (b : Z) : bool := (128 <=? b) && (b <? 192).

(** The code point of a well-formed UTF-8 sequence of 2, 3 or 4 octets. *)
Definition utf8_2 (b1 b2 : Z) : option Z :=
  let cp := (b1 - 192) * 64 + (b2 - 128) in
  if is_cont b2 && (128 <=? cp) then Some cp else None.

Definition utf8_3 (b1 b2 b3 : Z) : option Z :=
  let cp := (b1 - 224) * 4096 + (b2 - 128) * 64 + (b3 - 128) in
  if is_cont b2 && is_cont b3 && (2048 <=? cp)
     && negb ((55296 <=? cp) && (cp <=? 57343))
  then Some cp else None.

Definition utf8_4 (b1 b2 b3 b4 : Z) : option Z :=
  let cp := (b1 - 240) * 262144 + (b2 - 128) * 4096 + (b3 - 128) * 64 + (b4 - 128) in
  if is_cont b2 && is_cont b3 && is_cont b4 && (65536 <=? cp) && (cp <=? 1114111)
  then Some cp else None.

(** What follows a [%] in Decode with an empty reserved set: the decoded
    units and how many units of input they span; [None] is a URIError. *)
Definition decode_at (rest : jstr) : option (jstr * nat) :=
  match rest with
  | h :: l :: tail =>
      match hexbyte h l with
      | None => None
      | Some B =>
          if B <? 128 then Some ([B], 2%nat)
          else if B <? 192 then None
          else if B <? 224 then
            match octet_at tail with
            | Some b2 => option_map (fun cp => (utf16 cp, 5%nat)) (utf8_2 B b2)
            | None => None
            end
          else if B <? 240 then
            match octet_at tail, octet_at (skipn 3 tail) with
            | Some b2, Some b3 =>
                option_map (fun cp => (utf16 cp, 8%nat)) (utf8_3 B b2 b3)
            | _, _ => None
            end
          else if B <? 248 then
            match octet_at tail, octet_at (skipn 3 tail), octet_at (skipn 6 tail) with
            | Some b2, Some b3, Some b4 =>
                option_map (fun cp => (utf16 cp, 11%nat)) (utf8_4 B b2 b3 b4)
            | _, _, _ => None
            end
          else None
      end
  | _ => None
  end.

Fixpoint Decode (skip : nat) (s : jstr) : option jstr :=
  match s with
  | [] => Some []
  | c :: rest =>
      match skip with
      | S k => Decode k rest
      | O =>
          if c =? 37 then
            match decode_at rest with
            | None => None
            | Some (units, adv) => option_map (app units) (Decode adv rest)
            end
          else option_map (cons c) (Decode 0 rest)
      end
  end.

Definition decodeURIComponent (s : jstr) : partial jstr :=
  match Decode 0 s with
  | Some r => inr r
  | None => inl URIError
  end.

(** *** btoa and atob *)

Definition b64char (v : Z) : Z :=
  if v <? 26 then 65 + v
  else if v <? 52 then 71 + v
  else if v <? 62 then v - 4
  else if v =? 62 then 43
  else 47.

Definition b64val (c : Z) : option Z :=
  if (65 <=? c) && (c <=? 90) then Some (c - 65)
  else if (97 <=? c) && (c <=? 122) then Some (c - 71)
  else if (48 <=? c) && (c <=? 57) then Some (c + 4)
  else if c =? 43 then Some 62
  else if c =? 47 then Some 63
  else None.

Fixpoint b64enc (bs : list Z) : jstr :=
  match bs with
  | [] => []
  | [a] => [b64char (a / 4); b64char ((a mod 4) * 16); 61; 61]
  | [a; b] =>
      [b64char (a / 4); b64char ((a mod 4) * 16 + b / 16);
       b64char ((b mod 16) * 4); 61]
  | a :: b :: c :: rest =>
      b64char (a / 4) :: b64char ((a mod 4) * 16 + b / 16)
      :: b64char ((b mod 16) * 4 + c / 64) :: b64char (c mod 64)
      :: b64enc rest
  end.

(** [btoa] rejects code units above 255. *)
Definition btoa (s : jstr) : partial jstr :=
  if forallb (fun c => c <=? 255) s then inr (b64enc s)
  else inl InvalidCharacterError.

Definition is_ws (c : Z) : bool := mem c [9; 10; 12; 13; 32].

(** Forgiving base64: one or two trailing [=] are dropped when the length is
    a multiple of four. *)
Definition strip_padding (d : jstr) : jstr :=
  if (Z.of_nat (List.length d) mod 4 =? 0) then
    match rev d with
    | a :: b :: r =>
        if (a =? 61) && (b =? 61) then rev r
        else if a =? 61 then rev (b :: r)
        else d
    | [a] => if a =? 61 then [] else d
    | [] => d
    end
  else d.

Fixpoint sextets (d : jstr) : option (list Z) :=
  match d with
  | [] => Some []
  | c :: r =>
      match b64val c, sextets r with
      | Some v, Some vs => Some (v :: vs)
      | _, _ => None
      end
  end.

Fixpoint b64dec (vs : list Z) : list Z :=
  match vs with
  | a :: b :: c :: d :: rest =>
      (a * 4 + b / 16) :: ((b mod 16) * 16 + c / 4) :: ((c mod 4) * 64 + d)
      :: b64dec rest
  | [a; b; c] => [a * 4 + b / 16; (b mod 16) * 16 + c / 4]
  | [a; b] => [a * 4 + b / 16]
  | _ => []
  end.

Definition atob (s : jstr) : partial jstr :=
  let d := strip_padding (filter (fun c => negb (is_ws c)) s) in
  if (Z.of_nat (List.length d) mod 4 =? 1) then inl InvalidCharacterError
  else
    match sextets d with
    | Some vs => inr (b64dec vs)
    | None => inl InvalidCharacterError
    end.

End Builtins.
Export Builtins.

(** *** Well-formed strings *)

(** A code unit is a 16-bit value. *)
Definition code_unit (c : Z) : Prop := 0 <= c < 65536.

(** No lone surrogate: every leading surrogate is followed by a trailing
    one, and no trailing surrogate stands alone. *)
Fixpoint well_formed (s : jstr) : bool :=
  match s with
  | [] => true
  | c :: r =>
      if is_lead c then
        match r with
        | d :: r' => is_trail d && well_formed r'
        | [] => false
        end
      else negb (is_trail c) && well_formed r
  end.

(** *** The transport encoding, piece by piece *)

Module Transport.

(** A Unicode scalar value, an octet, a base64 digit value. *)
Definition scalar (cp : Z) : Prop := 0 <= cp <= 1114111 /\ ~ (55296 <= cp <= 57343).
Definition octet (b : Z) : Prop := 0 <= b < 256.
Definition sextet (v : Z) : Prop := 0 <= v < 64.

(** What [encodeURIComponent] writes for one code point. *)
Definition enc_cp (cp : Z) : jstr :=
  if uri_unreserved cp then [cp] else flat_map pct (utf8 cp).

(** The base64 digit values of a byte sequence, and its padding. *)
Fixpoint groups (bs : list Z) : list Z :=
  match bs with
  | [] => []
  | [a] => [a / 4; (a mod 4) * 16]
  | [a; b] => [a / 4; (a mod 4) * 16 + b / 16; (b mod 16) * 4]
  | a :: b :: c :: rest =>
      a / 4 :: (a mod 4) * 16 + b / 16 :: (b mod 16) * 4 + c / 64 :: c mod 64
      :: groups rest
  end.

Fixpoint padding (bs : list Z) : jstr :=
  match bs with
  | [] => []
  | [_] => [61; 61]
  | [_; _] => [61]
  | _ :: _ :: _ :: rest => padding rest
  end.

Definition m4 (l : list Z) : Z := Z.of_nat (List.length l) mod 4.

End Transport.

(** ** The helpers of the harmonizer worker *)

(** [function base64encode(str) { return btoa(unescape(encodeURIComponent(str))); }] *)
Definition base64encode (str : jstr) : partial jstr :=
  pbind (encodeURIComponent str) (fun e => btoa (unescape e)).

(** [function base64decode(str) { return decodeURIComponent(escape(atob(str))); }] *)
Definition base64decode (str : jstr) : partial jstr :=
  pbind (atob str) (fun b => decodeURIComponent (escape b)).

(** ** The network, the runtime and the monad of the workers *)

Inductive Method := GET | POST | PUT.

Definition method_name (m : Method) : jstr :=
  match m with
  | GET => lit "GET"
  | POST => lit "POST"
  | PUT => lit "PUT"
  end.

(** The place in the source a remote call is issued from. *)
Inductive Site :=
| CrawlList      (* crawlGitHubDir: listing of a path *)
| PushFetch      (* pushFile: metadata and content of a file *)
| ModelCall      (* callOpenAIHarmonizer: the chat completion *)
| BaseRef        (* GET git/ref/heads/<base> *)
| CreateBranch   (* POST git/refs *)
| Probe          (* GET contents/<path>?ref=<new branch> *)
| PutFile        (* PUT contents/<path> *)
| CreatePR.      (* POST pulls *)

Record Call := mkCall {
  site : Site;
  method : Method;
  url : jstr;
  auth : jstr;                 (* the Authorization header *)
  body : option value          (* the object that is JSON.stringify-ed *)
}.

(** An HTTP response: [res.status], [await res.text()] and [await res.json()]
    ([None] when the body is not JSON). *)
Record Reply := mkReply {
  res_status : Z;
  res_text : jstr;
  res_json : option value
}.

Definition res_ok (r : Reply) : bool :=
  (200 <=? res_status r) && (res_status r <=? 299).

(** [fetch] either rejects or resolves to a response. *)
Inductive Net :=
| Rejected
| Replied (r : Reply).

Definition Event : Type := Call * Net.

(** What the worker runs against. *)
Record Runtime := mkRuntime {
  World : Type;
  network : World -> Call -> World * Net;
  Date_now : World -> World * Z;            (* [Date.now()] *)
  Date_toISOString : World -> World * jstr; (* [new Date().toISOString()] *)
  JSON_parse : jstr -> option value;
  StringToNumber : jstr -> option Z;     (* [None] is NaN *)
  engine_text : exn -> jstr;             (* [err.message] of a runtime error *)
  engine_string : exn -> jstr            (* [String(err)] of a runtime error *)
}.

Inductive outcome (A : Type) :=
| Done (a : A)
| Raised (e : exn)
| OutOfFuel.
Arguments Done {A} a.
Arguments Raised {A} e.
Arguments OutOfFuel {A}.

Section Monad.
Context {R : Runtime}.

(** A computation reads and updates the world and emits the remote calls it
    makes, in order. *)
Definition M (A : Type) : Type := World R -> outcome A * World R * list Event.

Definition ret {A} (a : A) : M A := fun w => (Done a, w, []).

Definition throw {A} (e : exn) : M A := fun w => (Raised e, w, []).

Definition diverge {A} : M A := fun w => (OutOfFuel, w, []).

Definition bind {A B} (m : M A) (k : A -> M B) : M B := fun w =>
  match m w with
  | (Done a, w1, t1) =>
      match k a w1 with
      | (o, w2, t2) => (o, w2, t1 ++ t2)
      end
  | (Raised e, w1, t1) => (Raised e, w1, t1)
  | (OutOfFuel, w1, t1) => (OutOfFuel, w1, t1)
  end.

(** [try { m } catch (e) { h e }] *)
Definition catch {A} (m : M A) (h : exn -> M A) : M A := fun w =>
  match m w with
  | (Raised e, w1, t1) =>
      match h e w1 with
      | (o, w2, t2) => (o, w2, t1 ++ t2)
      end
  | r => r
  end.

Definition lift {A} (p : partial A) : M A :=
  match p with
  | inl e => throw e
  | inr a => ret a
  end.

Definition now : M Z := fun w =>
  match Date_now R w with
  | (w1, t) => (Done t, w1, [])
  end.

Definition now_iso : M jstr := fun w =>
  match Date_toISOString R w with
  | (w1, t) => (Done t, w1, [])
  end.

(** [await fetch(url, init)] *)
Definition net_fetch (c : Call) : M Reply := fun w =>
  match network R w c with
  | (w1, Rejected) => (Raised TypeError, w1, [(c, Rejected)])
  | (w1, Replied r) => (Done r, w1, [(c, Replied r)])
  end.

(** [await res.json()] *)
Definition json_of (r : Reply) : M value :=
  match res_json r with
  | Some v => ret v
  | None => throw SyntaxError
  end.

(** [m2] does whatever [m1] does, wherever [m1] does not run out of fuel. *)
Definition refines {A} (m1 m2 : M A) : Prop :=
  forall w o w' t, m1 w = (o, w', t) -> o <> OutOfFuel -> m2 w = (o, w', t).

(** A postcondition on the outcome and the emitted calls that holds from
    every world. *)
Definition sat {A} (m : M A) (Q : outcome A -> list Event -> Prop) : Prop :=
  forall w, Q (fst (fst (m w))) (snd (m w)).

End Monad.

Declare Scope monad_scope.
Notation "x <- m ;; k" := (bind m (fun x => k))
  (at level 61, m at next level, right associativity) : monad_scope.
Local Open Scope monad_scope.

Section Loops.
Context {R : Runtime}.

(** [for (const x of l) { s = body x s }] *)
Fixpoint for_of {A S : Type} (body : A -> S -> M (R:=R) S) (l : list A) (s : S) : M S :=
  match l with
  | [] => ret s
  | x :: r => s1 <- body x s ;; for_of body r s1
  end.

End Loops.

(** ** The harmonizer worker ([/harmonize]) *)

Module Harmonizer.

Record Env := mkEnv {
  GITHUB_TOKEN : value;
  OPENAI_API_KEY : value;
  GITHUB_OWNER : value;
  GITHUB_REPO : value;
  BASE_BRANCH : value
}.

(** The parts of the incoming request the worker looks at; [req_json] is
    [None] when [await req.json()] rejects. *)
Record Request := mkRequest {
  pathname : jstr;
  req_method : jstr;
  req_json : option value
}.

Record Response := mkResponse {
  status : Z;
  payload : value            (* the object given to JSON.stringify *)
}.

(** [function json(obj, status = 200)] *)
Definition json (obj : value) (status : Z) : Response := mkResponse status obj.

(** A [POST /harmonize] request with JSON body [b]. *)
Definition post (b : value) : Request :=
  mkRequest (lit "/harmonize") (lit "POST") (Some b).

Record CollectedFile := mkFile {
  f_path : value;
  f_content : jstr
}.

Definition size_threshold : Z := 120000.
Definition truncation_bound : nat := 7000.
Definition file_cap : nat := 12.

Definition api_repos : jstr := lit "https://api.github.com/repos/".

(** [https://api.github.com/repos/${owner}/${repo}<tail>] *)
Definition repo_url (owner repo : value) (tail : jstr) : jstr :=
  api_repos ++ toStr owner ++ lit "/" ++ toStr repo ++ tail.

(** [.../contents/${encodeURIComponent(path)}] *)
Definition contents_url (owner repo path : value) : partial jstr :=
  pbind (encodeURIComponent (toStr path)) (fun enc =>
  inr (repo_url owner repo (lit "/contents/" ++ enc))).

Definition bearer (token : value) : jstr := lit "Bearer " ++ toStr token.

Section Worker.
Context {R : Runtime}.
Local Notation M := (M (R:=R)).

(** *** GitHub helpers *)

(** The [request] method of [ghClient(token)]; [at_] names the call site. *)
Definition request (token : value) (at_ : Site) (m : Method) (u : jstr)
    (b : option value) : M value :=
  res <- net_fetch (mkCall at_ m u (bearer token) b) ;;
  if negb (res_ok res) then
    throw (Error (lit "GitHub " ++ method_name m ++ lit " failed: "
                  ++ dec (res_status res) ++ lit " " ++ res_text res))
  else json_of res.

(** A client is its [request] method. *)
Definition Client : Type := Site -> Method -> jstr -> option value -> M value.

Definition ghClient (token : value) : Client := request token.

Definition ghGet (client : Client) (at_ : Site) (u : jstr) : M value :=
  client at_ GET u None.
Definition ghPost (client : Client) (at_ : Site) (u : jstr) (b : value) : M value :=
  client at_ POST u (Some b).
Definition ghPut (client : Client) (at_ : Site) (u : jstr) (b : value) : M value :=
  client at_ PUT u (Some b).

(** *** File crawling *)

(** [x > n] for a number [n]: ToNumber on the left operand. *)
Definition to_number (v : value) : option Z :=
  match v with
  | VUndef => None
  | VNull => Some 0
  | VBool b => Some (if b then 1 else 0)
  | VNum n => Some n
  | VStr s => StringToNumber R s
  | VArr _ | VObj _ => StringToNumber R (toStr v)
  end.

Definition js_gt (v : value) (n : Z) : bool :=
  match to_number v with
  | Some x => n <? x
  | None => false
  end.

Definition pushFile (owner repo branch path token : value)
    (out : list CollectedFile) : M (list CollectedFile) :=
  u <- lift (contents_url owner repo path) ;;
  res <- net_fetch (mkCall PushFetch GET (u ++ lit "?ref=" ++ toStr branch)
                      (bearer token) None) ;;
  if negb (res_ok res) then ret out else
  meta <- json_of res ;;
  content <- lift (get meta (lit "content")) ;;
  if negb (truthy content) then ret out else
  size <- lift (get meta (lit "size")) ;;
  if js_gt size size_threshold then ret out else
  decoded <- lift (base64decode (toStr content)) ;;
  ret (out ++ [mkFile path (firstn truncation_bound decoded)]).

(** The recursion follows the remote tree; [fuel] bounds its depth. *)
Fixpoint crawlGitHubDir (fuel : nat) (owner repo branch path token : value)
    (out : list CollectedFile) : M (list CollectedFile) :=
  match fuel with
  | O => diverge
  | S fuel' =>
      u <- lift (contents_url owner repo path) ;;
      res <- net_fetch (mkCall CrawlList GET (u ++ lit "?ref=" ++ toStr branch)
                          (bearer token) None) ;;
      if negb (res_ok res) then ret out else
      data <- json_of res ;;
      out1 <-
        match data with
        | VArr items =>
            for_of (fun item acc =>
              ty <- lift (get item (lit "type")) ;;
              if is_str ty (lit "dir") then
                p <- lift (get item (lit "path")) ;;
                crawlGitHubDir fuel' owner repo branch p token acc
              else if is_str ty (lit "file") then
                p <- lift (get item (lit "path")) ;;
                pushFile owner repo branch p token acc
              else ret acc) items out
        | _ => ret out
        end ;;
      ty <- lift (get data (lit "type")) ;;
      if is_str ty (lit "file") then
        p <- lift (get data (lit "path")) ;;
        pushFile owner repo branch p token out1
      else ret out1
  end.

(** *** The model call *)

Definition nl : jstr := [10].
Definition quoted (s : jstr) : jstr := [34] ++ s ++ [34].

Definition systemPrompt : jstr :=
  nl ++ lit "You are ASA HARMONIZER ENGINE." ++ nl
  ++ lit "Unify, refactor, improve consistency without breaking code intent." ++ nl
  ++ lit "Return JSON strictly like:" ++ nl ++ nl
  ++ lit "{" ++ nl
  ++ lit "  " ++ quoted (lit "summary") ++ lit ": " ++ quoted (lit "short summary")
  ++ lit "," ++ nl
  ++ lit "  " ++ quoted (lit "files") ++ lit ": [" ++ nl
  ++ lit "    { " ++ quoted (lit "path") ++ lit ": " ++ quoted (lit "...")
  ++ lit ", " ++ quoted (lit "content") ++ lit ": " ++ quoted (lit "...")
  ++ lit ", " ++ quoted (lit "rationale") ++ lit ": " ++ quoted (lit "...")
  ++ lit " }" ++ nl
  ++ lit "  ]" ++ nl
  ++ lit "}" ++ nl.

Definition listText (files : list CollectedFile) : jstr :=
  join (nl ++ nl)
    (map (fun f => lit "--- FILE: " ++ toStr (f_path f) ++ nl ++ f_content f) files).

Definition userPrompt (owner repo baseBranch note : value)
    (files : list CollectedFile) : jstr :=
  nl ++ lit "Repo: " ++ toStr owner ++ lit "/" ++ toStr repo ++ nl
  ++ lit "Branch: " ++ toStr baseBranch ++ nl
  ++ lit "Mission: " ++ toStr note ++ nl ++ nl
  ++ lit "Files:" ++ nl
  ++ listText files ++ nl.

Definition obj (fields : list (string * value)) : value :=
  VObj (map (fun kv => (lit (fst kv), snd kv)) fields).

Definition model_body (owner repo baseBranch note : value)
    (files : list CollectedFile) : value :=
  obj [("model", VStr (lit "gpt-4.1-mini"));
       ("response_format", obj [("type", VStr (lit "json_object"))]);
       ("messages",
        VArr [obj [("role", VStr (lit "system")); ("content", VStr systemPrompt)];
              obj [("role", VStr (lit "user"));
                   ("content", VStr (userPrompt owner repo baseBranch note files))]])
      ]%string.

Definition callOpenAIHarmonizer (apiKey owner repo baseBranch note : value)
    (files : list CollectedFile) : M value :=
  res <- net_fetch (mkCall ModelCall POST
                      (lit "https://api.openai.com/v1/chat/completions")
                      (bearer apiKey)
                      (Some (model_body owner repo baseBranch note files))) ;;
  if negb (res_ok res) then
    throw (Error (lit "OpenAI Error: " ++ dec (res_status res) ++ lit " "
                  ++ res_text res))
  else
    j <- json_of res ;;
    choices <- lift (get j (lit "choices")) ;;
    first <- lift (get_index choices 0) ;;
    message <- lift (get first (lit "message")) ;;
    content <- lift (get message (lit "content")) ;;
    match JSON_parse R (toStr content) with
    | Some v => ret v
    | None => throw SyntaxError
    end.

(** *** Apply mode: the loop body of [for (const file of harmonizerResult.files)] *)

Definition write_payload (fpath : value) (encoded newBranch : jstr)
    (existingSha : value) : value :=
  VObj ([(lit "message", VStr (lit "ASA Harmonizer Update: " ++ toStr fpath));
         (lit "content", VStr encoded);
         (lit "branch", VStr newBranch)]
        ++ (if truthy existingSha then [(lit "sha", existingSha)] else [])).

Definition update_entry (fpath existingSha commit : value) : value :=
  obj [("path", fpath);
       ("status", VStr (if truthy existingSha then lit "updated" else lit "created"));
       ("commit", commit)]%string.

(** [try { const existing = await ghGet(...); existingSha = existing.sha; } catch (_) {}] *)
Definition probe (gh : Client) (putURL newBranch : jstr) : M value :=
  catch (existing <- ghGet gh Probe (putURL ++ lit "?ref=" ++ newBranch) ;;
         lift (get existing (lit "sha")))
        (fun _ => ret VNull).

Definition commit_file (gh : Client) (owner repo : value) (newBranch : jstr)
    (file : value) (updateResults : list value) : M (list value) :=
  content <- lift (get file (lit "content")) ;;
  encoded <- lift (base64encode (toStr content)) ;;
  fpath <- lift (get file (lit "path")) ;;
  putURL <- lift (contents_url owner repo fpath) ;;
  existingSha <- probe gh putURL newBranch ;;
  res <- ghPut gh PutFile putURL (write_payload fpath encoded newBranch existingSha) ;;
  commit <- lift (get res (lit "commit")) ;;
  ret (updateResults
       ++ [update_entry fpath existingSha (or_else (get_opt commit (lit "sha")) VNull)]).

(** *** The request handler *)

(** The destructured request body with its defaults. *)
Record Params := mkParams {
  paths : value;
  apply : value;
  owner : value;
  repo : value;
  baseBranch : value;
  note : value
}.

(** [const { k = dflt } = body] *)
Definition prop_or (b : value) (k : string) (dflt : value) : partial value :=
  pbind (get b (lit k)) (fun v =>
  inr (match v with VUndef => dflt | _ => v end)).

Definition destructure (env : Env) (b : value) : partial Params :=
  pbind (prop_or b "paths" (VArr [])) (fun paths =>
  pbind (prop_or b "apply" (VBool false)) (fun apply =>
  pbind (prop_or b "owner" (GITHUB_OWNER env)) (fun owner =>
  pbind (prop_or b "repo" (GITHUB_REPO env)) (fun repo =>
  pbind (prop_or b "baseBranch" (or_else (BASE_BRANCH env) (VStr (lit "main"))))
    (fun baseBranch =>
  pbind (prop_or b "note" (VStr (lit "ASA MATRIX harmonizer run"))) (fun note =>
  inr (mkParams paths apply owner repo baseBranch note))))))).

Definition validate (env : Env) (p : Params) : partial unit :=
  if negb (truthy (GITHUB_TOKEN env)) then inl (Error (lit "Missing GITHUB_TOKEN"))
  else if negb (truthy (OPENAI_API_KEY env)) then inl (Error (lit "Missing OPENAI_API_KEY"))
  else if negb (truthy (owner p)) || negb (truthy (repo p))
    then inl (Error (lit "Missing repo owner/name"))
  else
    pbind (get (paths p) length_key) (fun len =>
    if negb (truthy len) then inl (Error (lit "No paths provided")) else inr tt).

(** STEP 1: [for (const p of paths) await crawlGitHubDir(..., collected)] *)
Definition collect (fuel : nat) (env : Env) (p : Params) : M (list CollectedFile) :=
  items <- lift (iterate (paths p)) ;;
  for_of (fun path out =>
            crawlGitHubDir fuel (owner p) (repo p) (baseBranch p) path
              (GITHUB_TOKEN env) out) items [].

Definition no_files_response (p : Params) : Response :=
  json (obj [("ok", VBool false);
             ("error", VStr (lit "No files found in provided paths"));
             ("paths", paths p)]%string) 400.

Definition no_rewrite_response : Response :=
  json (obj [("ok", VBool false);
             ("error", VStr (lit "Harmonizer returned no files"))]%string) 500.

Definition preview_response (summary files : value) : Response :=
  json (obj [("ok", VBool true);
             ("mode", VStr (lit "preview"));
             ("summary", or_else summary VNull);
             ("files", files)]%string) 200.

(** STEP 3: branch, commits, pull request. *)
Definition apply_changes (env : Env) (p : Params) (harmonizerResult : value) : M Response :=
  let gh := ghClient (GITHUB_TOKEN env) in
  baseRef <- ghGet gh BaseRef
               (repo_url (owner p) (repo p)
                  (lit "/git/ref/heads/" ++ toStr (baseBranch p))) ;;
  object <- lift (get baseRef (lit "object")) ;;
  baseSha <- lift (get object (lit "sha")) ;;
  t <- now ;;
  let newBranch := lit "asa-harmonizer-" ++ dec t in
  let ref := lit "refs/heads/" ++ newBranch in
  _ <- ghPost gh CreateBranch (repo_url (owner p) (repo p) (lit "/git/refs"))
         (obj [("ref", VStr ref); ("sha", baseSha)]%string) ;;
  files <- lift (get harmonizerResult (lit "files")) ;;
  changes <- lift (iterate files) ;;
  updateResults <- for_of (commit_file gh (owner p) (repo p) newBranch) changes [] ;;
  summary <- lift (get harmonizerResult (lit "summary")) ;;
  pr <- ghPost gh CreatePR (repo_url (owner p) (repo p) (lit "/pulls"))
          (obj [("title", VStr (lit "ASA Harmonizer Automatic PR"));
                ("head", VStr newBranch);
                ("base", baseBranch p);
                ("body", or_else summary (note p))]%string) ;;
  html_url <- lift (get pr (lit "html_url")) ;;
  number <- lift (get pr (lit "number")) ;;
  ret (json (obj [("ok", VBool true);
                  ("mode", VStr (lit "apply"));
                  ("branch", VStr newBranch);
                  ("prUrl", html_url);
                  ("prNumber", number);
                  ("changedFiles", VArr updateResults)]%string) 200).

(** The body of the [try] block. *)
Definition harmonize (fuel : nat) (env : Env) (b : value) : M Response :=
  p <- lift (destructure env b) ;;
  _ <- lift (validate env p) ;;
  collected <- collect fuel env p ;;
  match collected with
  | [] => ret (no_files_response p)
  | _ =>
      harmonizerResult <-
        callOpenAIHarmonizer (OPENAI_API_KEY env) (owner p) (repo p)
          (baseBranch p) (note p) (firstn file_cap collected) ;;
      files <- lift (get harmonizerResult (lit "files")) ;;
      if negb (truthy (get_opt files length_key)) then ret no_rewrite_response
      else if negb (truthy (apply p)) then
        summary <- lift (get harmonizerResult (lit "summary")) ;;
        ret (preview_response summary files)
      else apply_changes env p harmonizerResult
  end.

(** [err.message || String(err)] *)
Definition error_text (e : exn) : jstr :=
  match e with
  | Error [] => lit "Error"
  | Error msg => msg
  | _ => engine_text R e
  end.

Definition error_response (e : exn) : Response :=
  json (obj [("ok", VBool false); ("error", VStr (error_text e))]%string) 500.

Definition fetch (fuel : nat) (req : Request) (env : Env) : M Response :=
  if jstr_eqb (pathname req) (lit "/health") then
    ret (json (obj [("ok", VBool true);
                    ("worker", VStr (lit "asa-directory-editor"));
                    ("status", VStr (lit "online"))]%string) 200)
  else if negb (jstr_eqb (pathname req) (lit "/harmonize")) then
    ret (json (obj [("ok", VBool false);
                    ("error", VStr (lit "Unknown endpoint"))]%string) 404)
  else if negb (jstr_eqb (req_method req) (lit "POST")) then
    ret (json (obj [("ok", VBool false);
                    ("error", VStr (lit "Only POST allowed"))]%string) 405)
  else
    catch (b <- match req_json req with
                | Some b => ret b
                | None => throw SyntaxError
                end ;;
           harmonize fuel env b)
          (fun err => ret (error_response err)).

End Worker.

End Harmonizer.

(** ** The code-harmonizer worker ([/api/harmonize]) *)

Module CodeHarmonizer.

Record Env := mkEnv {
  GITHUB_OWNER : value;
  GITHUB_REPO : value;
  BASE_BRANCH : value;
  GITHUB_TOKEN : value
}.

Record Request := mkRequest {
  pathname : jstr;
  req_method : jstr;
  req_json : option value
}.

(** The responses of the worker: a JSON document, the control panel page
    (whose markup is not modelled) or plain text. *)
Inductive Response :=
| JsonResponse (status : Z) (payload : value)
| HtmlPage (status : Z)
| TextResponse (status : Z) (text : jstr).

(** [function toBase64(str) { return btoa(unescape(encodeURIComponent(str))); }] *)
Definition toBase64 (str : jstr) : partial jstr :=
  pbind (encodeURIComponent str) (fun e => btoa (unescape e)).

Definition obj (fields : list (string * value)) : value :=
  VObj (map (fun kv => (lit (fst kv), snd kv)) fields).

Definition str (s : string) : value := VStr (lit s).
Arguments str s%_string.

Definition step_failed (step : value) (res : Reply) : Response :=
  JsonResponse 500
    (obj [("ok", VBool false); ("step", step);
          ("status", VNum (res_status res)); ("body", VStr (res_text res))]%string).

(** [...(paths.length ? paths.map((p) => `- \`${p}\``) : ["- (none)"])] *)
Definition target_lines (paths : value) : partial (list jstr) :=
  pbind (get paths length_key) (fun len =>
  if truthy len then
    match paths with
    | VArr l => inr (map (fun p => lit "- `" ++ toStr p ++ lit "`") l)
    | _ => inl TypeError
    end
  else inr [lit "- (none)"]).

Definition markdownContent (iso : jstr) (caller description : value)
    (targets : list jstr) : jstr :=
  join [10]
    ([lit "# ASA CODE-HARMONIZER"; [];
      lit "Created at: " ++ iso;
      lit "Caller: " ++ toStr caller; [];
      lit "## Target paths"; []]
     ++ targets
     ++ [[]; lit "## Notes"; []; toStr description]).

Definition api_repos : jstr := lit "https://api.github.com/repos/".

Definition repo_url (owner repo : value) (tail : jstr) : jstr :=
  api_repos ++ toStr owner ++ lit "/" ++ toStr repo ++ tail.

(** [githubHeaders(token)]: the Authorization header. *)
Definition githubHeaders (token : value) : jstr := lit "Bearer " ++ toStr token.

(** The default title; its dash is U+2013. *)
Definition default_title : value :=
  VStr (lit "ASA CODE-HARMONIZER " ++ [8211] ++ lit " automatic harmonization").

Section Worker.
Context {R : Runtime}.
Local Notation M := (M (R:=R)).

(** The [try] block of the [/api/harmonize] branch. *)
Definition harmonize (env : Env) (b : value) : M Response :=
  t0 <- lift (get b (lit "title")) ;;
  let title := or_else t0 default_title in
  d0 <- lift (get b (lit "description")) ;;
  let description :=
    or_else d0 (str "PR created by ASA CODE-HARMONIZER worker (B layout).") in
  p0 <- lift (get b (lit "paths")) ;;
  let paths := or_else p0 (VArr []) in
  c0 <- lift (get b (lit "caller")) ;;
  let caller := or_else c0 (str "ASA_MATRIX_UI") in
  let owner := GITHUB_OWNER env in
  let repo := GITHUB_REPO env in
  let baseBranch := or_else (BASE_BRANCH env) (str "main") in
  let token := GITHUB_TOKEN env in
  if negb (truthy owner) || negb (truthy repo) || negb (truthy token) then
    ret (JsonResponse 500
           (obj [("ok", VBool false);
                 ("error", str "Missing GITHUB_OWNER / GITHUB_REPO / GITHUB_TOKEN env vars in Cloudflare Worker.")]%string))
  else
  (* 1) base branch SHA *)
  baseRefResp <- net_fetch (mkCall BaseRef GET
                    (repo_url owner repo (lit "/git/ref/heads/" ++ toStr baseBranch))
                    (githubHeaders token) None) ;;
  if negb (res_ok baseRefResp) then ret (step_failed (str "get_base_ref") baseRefResp) else
  baseRef <- json_of baseRefResp ;;
  object <- lift (get baseRef (lit "object")) ;;
  baseSha <- lift (get object (lit "sha")) ;;
  (* 2) new branch *)
  t <- now ;;
  let branchName := lit "asa-harmonizer-" ++ dec t in
  let ref := lit "refs/heads/" ++ branchName in
  createRefResp <- net_fetch (mkCall CreateBranch POST
                      (repo_url owner repo (lit "/git/refs")) (githubHeaders token)
                      (Some (obj [("ref", VStr ref); ("sha", baseSha)]%string))) ;;
  if negb (res_ok createRefResp) then ret (step_failed (str "create_ref") createRefResp) else
  (* 3) the touchpoint file *)
  t' <- now ;;
  let filePath := lit "asa_harmonizer/ASA_HARMONIZER_" ++ dec t' ++ lit ".md" in
  iso <- now_iso ;;
  targets <- lift (target_lines paths) ;;
  contentBase64 <- lift (toBase64 (markdownContent iso caller description targets)) ;;
  enc <- lift (encodeURIComponent filePath) ;;
  let message := lit "ASA CODE-HARMONIZER touchpoint for " ++ branchName in
  putFileResp <- net_fetch (mkCall PutFile PUT
                    (repo_url owner repo (lit "/contents/" ++ enc)) (githubHeaders token)
                    (Some (obj [("message", VStr message);
                                ("content", VStr contentBase64);
                                ("branch", VStr branchName)]%string))) ;;
  if negb (res_ok putFileResp) then ret (step_failed (str "create_file") putFileResp) else
  (* 4) the pull request *)
  let prBody :=
    toStr description
    ++ [10; 10] ++ lit "> Automatically generated by ASA CODE-HARMONIZER Worker." ++ [10] in
  prResp <- net_fetch (mkCall CreatePR POST
               (repo_url owner repo (lit "/pulls")) (githubHeaders token)
               (Some (obj [("title", title); ("head", VStr branchName);
                           ("base", baseBranch); ("body", VStr prBody)]%string))) ;;
  if negb (res_ok prResp) then ret (step_failed (str "create_pr") prResp) else
  prJson <- json_of prResp ;;
  html_url <- lift (get prJson (lit "html_url")) ;;
  number <- lift (get prJson (lit "number")) ;;
  ret (JsonResponse 200
         (obj [("ok", VBool true); ("branch", VStr branchName);
               ("filePath", VStr filePath); ("pr_url", html_url);
               ("pr_number", number)]%string)).

(** [String(err)] *)
Definition error_string (e : exn) : jstr :=
  match e with
  | Error [] => lit "Error"
  | Error msg => lit "Error: " ++ msg
  | _ => engine_string R e
  end.

Definition fetch (request : Request) (env : Env) : M Response :=
  if jstr_eqb (pathname request) (lit "/health") then
    ret (JsonResponse 200
           (obj [("ok", VBool true); ("service", str "ASA_CODE_HARMONIZER")]%string))
  else if jstr_eqb (pathname request) (lit "/api/harmonize")
          && jstr_eqb (req_method request) (lit "POST") then
    catch (harmonize env
             (match req_json request with
              | Some b => b
              | None => VObj []          (* [.catch(() => ({}))] *)
              end))
          (fun err =>
             ret (JsonResponse 500
                    (obj [("ok", VBool false); ("error", VStr (error_string err))]%string)))
  else if jstr_eqb (pathname request) (lit "/")
          && jstr_eqb (req_method request) (lit "GET") then
    ret (HtmlPage 200)
  else ret (TextResponse 404 (lit "Not found")).

End Worker.

End CodeHarmonizer.

(** ** Vocabulary of the specification *)

Module Spec.
Import Harmonizer.

(** The calls that change the remote repository: branch creation, file
    write, pull-request creation. *)
Definition mutating (c : Call) : bool :=
  match site c with
  | CreateBranch | PutFile | CreatePR => true
  | _ => false
  end.

Definition no_mutation (t : list Event) : Prop :=
  Forall (fun e => mutating (fst e) = false) t.

Definition no_model_call (t : list Event) : Prop :=
  Forall (fun e => site (fst e) <> ModelCall) t.

(** Every call is a GET, except for the model call. *)
Definition reads_only (t : list Event) : Prop :=
  Forall (fun e => method (fst e) = GET \/ site (fst e) = ModelCall) t.

(** The calls of a trace all satisfy [P]. *)
Definition calls_in (P : Call -> bool) (t : list Event) : Prop :=
  Forall (fun e => P (fst e) = true) t.

(** Whatever the outcome, the calls of [m] satisfy [T]. *)
Definition emits {R A} (T : list Event -> Prop) (m : M (R:=R) A) : Prop :=
  sat m (fun _ t => T t).

Definition only {R A} (P : Call -> bool) (m : M (R:=R) A) : Prop :=
  emits (calls_in P) m.

(** The call comes from one of the given call sites. *)
Definition at_sites (S : Site -> bool) (c : Call) : bool := S (site c).

(** The HTTP method each call site uses. *)
Definition method_of (s : Site) : Method :=
  match s with
  | CrawlList | PushFetch | BaseRef | Probe => GET
  | ModelCall | CreateBranch | CreatePR => POST
  | PutFile => PUT
  end.

Definition well_tagged (c : Call) : bool :=
  match method c, method_of (site c) with
  | GET, GET | POST, POST | PUT, PUT => true
  | _, _ => false
  end.

Definition collector_site (s : Site) : bool :=
  match s with
  | CrawlList | PushFetch => true
  | _ => false
  end.

Definition model_site (s : Site) : bool :=
  match s with
  | ModelCall => true
  | _ => false
  end.

Definition reading_site (s : Site) : bool := collector_site s || model_site s.

Definition validation_messages : list jstr :=
  [lit "Missing GITHUB_TOKEN"; lit "Missing OPENAI_API_KEY";
   lit "Missing repo owner/name"; lit "No paths provided"].

(** A required credential or identifier is missing, or [paths] is empty. *)
Definition incomplete (env : Env) (p : Params) : Prop :=
  truthy (GITHUB_TOKEN env) = false \/
  truthy (OPENAI_API_KEY env) = false \/
  truthy (owner p) = false \/
  truthy (repo p) = false \/
  paths p = VArr [].

(** The failure response [{ ok: false, error: msg }] with status 500. *)
Definition failure (msg : jstr) : Response :=
  mkResponse 500 (VObj [(lit "ok", VBool false); (lit "error", VStr msg)]).

Definition is_failure (r : Response) : Prop :=
  status r = 500 /\ lookup (lit "ok") (match payload r with VObj fs => fs | _ => [] end) = VBool false.

(** The shape the rewrite result is expected to have: [files] is an array of
    objects with a string [path] and a string [content]. *)
Definition is_string (v : value) : bool :=
  match v with
  | VStr _ => true
  | _ => false
  end.

Definition well_shaped_change (c : value) : bool :=
  match c with
  | VObj fs => is_string (lookup (lit "path") fs) && is_string (lookup (lit "content") fs)
  | _ => false
  end.

Definition well_shaped (hr : value) : bool :=
  match hr with
  | VObj fs =>
      match lookup (lit "files") fs with
      | VArr changes => forallb well_shaped_change changes
      | _ => false
      end
  | _ => false
  end.

(** The outcome of the model call carries nothing to apply: the call or the
    parsing of its reply failed, or the parsed reply has no [files], or
    [files] has no (or a zero) length. *)
Definition unusable (o : outcome value) : Prop :=
  match o with
  | Raised _ => True
  | Done hr =>
      match get hr (lit "files") with
      | inl _ => True
      | inr files => truthy (get_opt files length_key) = false
      end
  | OutOfFuel => False
  end.

(** Zero proposed changes: [files] is missing or is the empty array. *)
Definition no_changes (hr : value) : Prop :=
  get hr (lit "files") = inr VUndef \/ get hr (lit "files") = inr (VArr []).

(** What the existence probe yields: the blob SHA, when the probe succeeded
    and its answer carries one. *)
Definition probed_sha (n : Net) : option value :=
  match n with
  | Rejected => None
  | Replied r =>
      if res_ok r then
        match res_json r with
        | Some existing =>
            match get existing (lit "sha") with
            | inr sha => if truthy sha then Some sha else None
            | inl _ => None
            end
        | None => None
        end
      else None
  end.

(** The [sha] field of a write payload, if it has one. *)
Definition payload_sha (c : Call) : option value :=
  match body c with
  | Some (VObj fs) => if has_key (lit "sha") fs then Some (lookup (lit "sha") fs) else None
  | _ => None
  end.

Definition recorded_status (entry : value) : value := get_opt entry (lit "status").

(** Every file write comes right after an existence probe and carries the
    SHA that probe yielded, and none otherwise. *)
Definition write_after_probe (t : list Event) : Prop :=
  forall t1 e t2,
    t = t1 ++ e :: t2 -> site (fst e) = PutFile ->
    exists t0 p,
      t1 = t0 ++ [p] /\ site (fst p) = Probe
      /\ payload_sha (fst e) = probed_sha (snd p).

(** The same, read along the trace: [last] is the answer to the call just
    before, when that call was a probe. *)
Definition is_probe (c : Call) : bool :=
  match site c with
  | Probe => true
  | _ => false
  end.

Fixpoint writes_follow_probes (last : option Net) (t : list Event) : Prop :=
  match t with
  | [] => True
  | e :: r =>
      (site (fst e) = PutFile ->
       exists pn, last = Some pn /\ payload_sha (fst e) = probed_sha pn)
      /\ writes_follow_probes (if is_probe (fst e) then Some (snd e) else None) r
  end.

Definition probed_writes (t : list Event) : Prop :=
  forall last, writes_follow_probes last t.

Definition status_for (sha : option value) : value :=
  VStr (match sha with
        | Some _ => lit "updated"
        | None => lit "created"
        end).

(** *** The order of the remote calls of an apply run *)

Definition replied_ok (n : Net) : bool :=
  match n with
  | Replied r => res_ok r
  | Rejected => false
  end.

(** The steps of the apply sequence; the other calls are reads. *)
Definition apply_step (s : Site) : bool :=
  match s with
  | BaseRef | CreateBranch | PutFile | CreatePR => true
  | _ => false
  end.

(** Every call from site [b] comes after a call from site [a] that
    succeeded. *)
Definition after_ok (a b : Site) (t : list Event) : Prop :=
  forall t1 e t2,
    t = t1 ++ e :: t2 -> site (fst e) = b ->
    exists x, In x t1 /\ site (fst x) = a /\ replied_ok (snd x) = true.

Definition apply_order (t : list Event) : Prop :=
  (* the reference lookup comes before the branch creation *)
  after_ok BaseRef CreateBranch t
  (* the branch creation comes before every file write *)
  /\ after_ok CreateBranch PutFile t
  (* every file write comes before the pull request, and succeeded *)
  /\ (forall t1 e t2,
        t = t1 ++ e :: t2 -> site (fst e) = CreatePR ->
        (exists x, In x t1 /\ site (fst x) = CreateBranch /\ replied_ok (snd x) = true)
        /\ (forall x, In x t1 -> site (fst x) = PutFile -> replied_ok (snd x) = true)
        /\ (forall x, In x t2 -> site (fst x) <> PutFile))
  (* nothing follows a step that failed *)
  /\ (forall t1 e t2,
        t = t1 ++ e :: t2 -> apply_step (site (fst e)) = true ->
        replied_ok (snd e) = false -> t2 = []).

(** The sequencing automaton the proofs use: where a run stands after a
    trace. *)
Inductive phase := Reading | Based | Writing | Halted.

Definition step (s : phase) (e : Event) : option phase :=
  match s, site (fst e) with
  | Reading, (CrawlList | PushFetch | ModelCall) => Some Reading
  | Reading, BaseRef => Some (if replied_ok (snd e) then Based else Halted)
  | Based, CreateBranch => Some (if replied_ok (snd e) then Writing else Halted)
  | Writing, Probe => Some Writing
  | Writing, PutFile => Some (if replied_ok (snd e) then Writing else Halted)
  | Writing, CreatePR => Some Halted
  | _, _ => None
  end.

Fixpoint runs (s : phase) (t : list Event) : option phase :=
  match t with
  | [] => Some s
  | e :: r =>
      match step s e with
      | Some s1 => runs s1 r
      | None => None
      end
  end.

(** What has happened when a run from [Reading] stands in a given phase. *)
Definition branch_based (t : list Event) : Prop :=
  exists x, In x t /\ site (fst x) = BaseRef /\ replied_ok (snd x) = true.

Definition branch_made (t : list Event) : Prop :=
  exists x, In x t /\ site (fst x) = CreateBranch /\ replied_ok (snd x) = true.

Definition writes_ok (t : list Event) : Prop :=
  forall x, In x t -> site (fst x) = PutFile -> replied_ok (snd x) = true.

Definition stands (s : phase) (t : list Event) : Prop :=
  match s with
  | Reading => writes_ok t
  | Based => branch_based t /\ writes_ok t
  | Writing => branch_made t /\ writes_ok t
  | Halted => True
  end.

(** [m], started in phase [s], keeps to the automaton and, when it
    completes, leaves the run in phase [s']. *)
Definition accepts {R A} (s : phase) (m : M (R:=R) A) (s' : phase) : Prop :=
  sat m (fun o t => match o with
                    | Done _ => runs s t = Some s'
                    | _ => runs s t <> None
                    end).

(** [m], started in phase [s], keeps to the automaton however it ends. *)
Definition keeps {R A} (s : phase) (m : M (R:=R) A) : Prop :=
  sat m (fun _ t => runs s t <> None).

(** *** The remote tree and what the collector takes from it *)

(** A remote tree as the contents endpoint presents it: a file entry with the
    answer its own fetch gets, a sub-directory entry with its listing, or an
    entry of another type (symlink, submodule).  [more] stands for the fields
    of a listing entry the crawler does not read. *)
Inductive rtree :=
| RFile (path : value) (more : list (jstr * value)) (answer : Net)
| RDir (path : value) (more : list (jstr * value)) (entries : list rtree)
| ROther (item : value).

Definition item_of (t : rtree) : value :=
  match t with
  | RFile p more _ => VObj ((lit "type", VStr (lit "file")) :: (lit "path", p) :: more)
  | RDir p more _ => VObj ((lit "type", VStr (lit "dir")) :: (lit "path", p) :: more)
  | ROther item => item
  end.

Fixpoint depth (t : rtree) : nat :=
  match t with
  | RDir _ _ entries => S (fold_right (fun e d => Nat.max (depth e) d) O entries)
  | _ => O
  end.

(** The file entries of a tree, depth first. *)
Fixpoint files_of (t : rtree) : list (value * Net) :=
  match t with
  | RFile p _ answer => [(p, answer)]
  | RDir _ _ entries => flat_map files_of entries
  | ROther _ => []
  end.

Definition other_item (item : value) : bool :=
  match get item (lit "type") with
  | inr ty => negb (is_str ty (lit "dir")) && negb (is_str ty (lit "file"))
  | inl _ => false
  end.

Definition contents_call (at_ : Site) (u : jstr) (branch token : value) : Call :=
  mkCall at_ GET (u ++ lit "?ref=" ++ toStr branch) (bearer token) None.

Section Remote.
Context {R : Runtime}.
Variables owner repo branch token : value.

(** The remote side serves the tree, whatever else happens to the world. *)
Fixpoint served (t : rtree) : Prop :=
  match t with
  | RFile p _ answer =>
      exists u, contents_url owner repo p = inr u
        /\ forall w, snd (network R w (contents_call PushFetch u branch token)) = answer
  | RDir p _ entries =>
      (exists u r, contents_url owner repo p = inr u
         /\ res_ok r = true
         /\ res_json r = Some (VArr (map item_of entries))
         /\ forall w, snd (network R w (contents_call CrawlList u branch token)) = Replied r)
      /\ (fix all (l : list rtree) : Prop :=
            match l with
            | [] => True
            | e :: l' => served e /\ all l'
            end) entries
  | ROther item => other_item item = true
  end.

(** The reasons a file is silently skipped: its fetch failed, its metadata
    has no content, or its reported size exceeds the threshold. *)
Inductive skipped (a : Net) : Prop :=
| fetch_failed r :
    a = Replied r -> res_ok r = false -> skipped a
| no_content r meta content :
    a = Replied r -> res_ok r = true -> res_json r = Some meta ->
    get meta (lit "content") = inr content -> truthy content = false ->
    skipped a
| too_large r meta content size :
    a = Replied r -> res_ok r = true -> res_json r = Some meta ->
    get meta (lit "content") = inr content -> truthy content = true ->
    get meta (lit "size") = inr size -> js_gt (R:=R) size size_threshold = true ->
    skipped a.

(** The reported size of a file exceeds the threshold. *)
Definition oversized (a : Net) : Prop :=
  exists r meta size,
    a = Replied r /\ res_json r = Some meta
    /\ get meta (lit "size") = inr size /\ js_gt (R:=R) size size_threshold = true.

(** An eligible file: it was fetched, has content, is within the size
    threshold, and its content decodes to [decoded]. *)
Definition eligible (a : Net) (decoded : jstr) : Prop :=
  exists r meta content size,
    a = Replied r /\ res_ok r = true /\ res_json r = Some meta
    /\ get meta (lit "content") = inr content /\ truthy content = true
    /\ get meta (lit "size") = inr size /\ js_gt (R:=R) size size_threshold = false
    /\ base64decode (toStr content) = inr decoded.

Definition entry_for (p : value) (decoded : jstr) : CollectedFile :=
  mkFile p (firstn truncation_bound decoded).

(** What the collector takes from a sequence of files. *)
Inductive harvest : list (value * Net) -> list CollectedFile -> Prop :=
| harvest_nil : harvest [] []
| harvest_skip p a fs l :
    skipped a -> harvest fs l -> harvest ((p, a) :: fs) l
| harvest_take p a d fs l :
    eligible a d -> harvest fs l -> harvest ((p, a) :: fs) (entry_for p d :: l).

End Remote.

(** *** Files by the size they report *)

(** The fetch of a file gives nothing to collect: it was refused, or the
    metadata carries no content. *)
Inductive unavailable (a : Net) : Prop :=
| not_fetched r :
    a = Replied r -> res_ok r = false -> unavailable a
| without_content r meta content :
    a = Replied r -> res_ok r = true -> res_json r = Some meta ->
    get meta (lit "content") = inr content -> truthy content = false ->
    unavailable a.

(** The fetch of a file gives metadata that reports the size [n], a number
    of bytes, and a content that decodes to [d]. *)
Definition readable (a : Net) (n : Z) (d : jstr) : Prop :=
  exists r meta content,
    a = Replied r /\ res_ok r = true /\ res_json r = Some meta
    /\ get meta (lit "content") = inr content /\ truthy content = true
    /\ get meta (lit "size") = inr (VNum n)
    /\ base64decode (toStr content) = inr d.

(** The paths of the proposed changes of a rewrite result. *)
Definition change_paths (hr : value) : list value :=
  match get_opt hr (lit "files") with
  | VArr changes => map (fun c => get_opt c (lit "path")) changes
  | _ => []
  end.

End Spec.

(** ** Mock runtimes, for running the workers on concrete scenarios *)

Module Mock.
Import Harmonizer.

(** Test helpers: the computation yields [s]; the computation throws. *)
Definition gives (p : partial jstr) (s : jstr) : bool :=
  match p with
  | inr r => jstr_eqb r s
  | inl _ => false
  end.

Definition throws (p : partial jstr) : bool :=
  match p with
  | inl _ => true
  | inr _ => false
  end.

(** The JSON text of a value whose strings need no escaping. *)
Fixpoint stringify (v : value) : jstr :=
  match v with
  | VUndef | VNull => lit "null"
  | VBool true => lit "true"
  | VBool false => lit "false"
  | VNum n => dec n
  | VStr s => quoted s
  | VArr l => lit "[" ++ join (lit ",") (map stringify l) ++ lit "]"
  | VObj fs =>
      lit "{"
      ++ join (lit ",")
           (map (fun kv => match kv with
                           | (k, x) => quoted k ++ lit ":" ++ stringify x
                           end) fs)
      ++ lit "}"
  end.

(** A parser that knows the texts of the given values. *)
Definition parse_known (known : list value) (s : jstr) : option value :=
  find (fun v => jstr_eqb (stringify v) s) known.

Definition ok_json (v : value) : Net := Replied (mkReply 200 (stringify v) (Some v)).
Definition not_found : Net := Replied (mkReply 404 (lit "Not Found") None).

(** A scripted remote: the replies are handed out in order, whatever the
    call; when the script is exhausted, [fetch] rejects. *)
Definition scripted (parse : jstr -> option value) : Runtime :=
  mkRuntime (list Net)
    (fun w _ => match w with
                | [] => ([], Rejected)
                | n :: w' => (w', n)
                end)
    (fun w => (w, 1700000000000))
    (fun w => (w, lit "2023-11-14T22:13:20.000Z"))
    parse
    (fun _ => None)
    (fun _ => lit "runtime error")
    (fun _ => lit "Error: runtime error").

(** A static remote: the reply is a function of the call alone. *)
Definition static (serve : Call -> Net) (parse : jstr -> option value) : Runtime :=
  mkRuntime unit
    (fun w c => (w, serve c))
    (fun w => (w, 1700000000000))
    (fun w => (w, lit "2023-11-14T22:13:20.000Z"))
    parse
    (fun _ => None)
    (fun _ => lit "runtime error")
    (fun _ => lit "Error: runtime error").

Definition str (s : string) : value := VStr (lit s).
Arguments str s%_string.

Definition env0 : Env :=
  mkEnv (str "ghp_token") (str "sk_key") (str "acme") (str "site") VUndef.

(** The end-to-end scenario: [src/a.txt] holds [old], the model proposes
    [new]. *)
Definition a_txt : value := str "src/a.txt".

Definition a_meta : value :=
  obj [("type", str "file"); ("path", a_txt);
       ("content", str "b2xk"); ("size", VNum 3)]%string.

Definition reply_of (files : value) : value :=
  obj [("summary", str "tidy"); ("files", files)]%string.

Definition proposal : value :=
  reply_of (VArr [obj [("path", a_txt); ("content", str "new")]%string]).

(** The chat completion whose message content is the JSON text of
    [reply]. *)
Definition completion (reply : value) : value :=
  obj [("choices",
        VArr [obj [("message", obj [("content", VStr (stringify reply))])]])]%string.

Definition base_ref : value := obj [("object", obj [("sha", str "base0")])]%string.
Definition blob : value := obj [("sha", str "blob1")]%string.
Definition written : value := obj [("commit", obj [("sha", str "c1")])]%string.
Definition pull : value := obj [("html_url", str "https://pr/7"); ("number", VNum 7)]%string.

(** A reply whose [files] is a string, and one whose only change has an
    empty path. *)
Definition stray_reply : value := reply_of (str "x").

Definition pathless_reply : value :=
  reply_of (VArr [obj [("path", VStr []); ("content", str "new")]%string]).

Definition empty_reply : value := reply_of (VArr []).

Definition e2e_runtime : Runtime :=
  scripted (parse_known [proposal; stray_reply; pathless_reply; empty_reply]).

(** The script of an apply run in which the file does not exist yet on the
    new branch, for the model reply [r]. *)
Definition fresh_script (r : value) : list Net :=
  [ok_json a_meta; ok_json a_meta; ok_json (completion r);
   ok_json base_ref; ok_json (VObj []); not_found; ok_json written; ok_json pull].

Definition e2e_params (apply : bool) : Params :=
  mkParams (VArr [a_txt]) (VBool apply) (str "acme") (str "site") (str "main")
    (str "ASA MATRIX harmonizer run").

Definition e2e_script : list Net :=
  [ok_json a_meta; ok_json a_meta; ok_json (completion proposal);
   ok_json base_ref; ok_json (VObj []); ok_json blob; ok_json written; ok_json pull].

(** A file of 7001 letters, and a small tree: [docs/] holds [a.txt], an
    oversized [big.bin], a symlink and the sub-directory [docs/sub] with
    [b.txt]. *)
Definition long_text : jstr := repeat 65 7001.

Definition long_meta : value :=
  obj [("type", str "file"); ("path", str "docs/long.txt");
       ("content", VStr (b64enc long_text)); ("size", VNum 7001)]%string.

Definition file_meta (p content : string) (size : Z) : Net :=
  ok_json (obj [("type", str "file"); ("path", str p);
                ("content", str content); ("size", VNum size)]%string).

Definition long_run :=
  pushFile (R:=scripted (fun _ => None)) (str "acme") (str "site") (str "main")
    (str "docs/long.txt") (str "ghp_token") [] [ok_json long_meta].

Definition docs_entries : list Spec.rtree :=
  [Spec.RFile (str "docs/a.txt") [] (file_meta "docs/a.txt" "b2xk" 3);
   Spec.RFile (str "docs/big.bin") [] (file_meta "docs/big.bin" "b2xk" 120001);
   Spec.ROther (obj [("type", str "symlink"); ("path", str "docs/link")]%string);
   Spec.RDir (str "docs/sub") []
     [Spec.RFile (str "docs/sub/b.txt") [] (file_meta "docs/sub/b.txt" "bmV3" 3)]].

Definition docs : Spec.rtree := Spec.RDir (str "docs") [] docs_entries.

Definition listing (entries : list Spec.rtree) : Net :=
  ok_json (VArr (map Spec.item_of entries)).

Definition docs_url (p : string) : jstr :=
  lit "https://api.github.com/repos/acme/site/contents/" ++ lit p ++ lit "?ref=main".

Definition serve_docs (c : Call) : Net :=
  match site c with
  | CrawlList =>
      if jstr_eqb (url c) (docs_url "docs") then
        listing docs_entries
      else if jstr_eqb (url c) (docs_url "docs%2Fsub") then
        listing [Spec.RFile (str "docs/sub/b.txt") [] (file_meta "docs/sub/b.txt" "bmV3" 3)]
      else not_found
  | PushFetch =>
      if jstr_eqb (url c) (docs_url "docs%2Fa.txt") then file_meta "docs/a.txt" "b2xk" 3
      else if jstr_eqb (url c) (docs_url "docs%2Fbig.bin") then
        file_meta "docs/big.bin" "b2xk" 120001
      else if jstr_eqb (url c) (docs_url "docs%2Fsub%2Fb.txt") then
        file_meta "docs/sub/b.txt" "bmV3" 3
      else not_found
  | _ => not_found
  end.

Definition docs_runtime : Runtime := static serve_docs (fun _ => None).

Definition e2e_body (apply : bool) : value :=
  obj [("paths", VArr [a_txt]); ("apply", VBool apply)]%string.

End Mock.


(** ** Text and its transport encoding *)

Module Text.

(** The code points of a string: a leading surrogate followed by a trailing
    one is one code point, any other unit is taken as it is. *)
Fixpoint code_points (s : jstr) : list Z :=
  match s with
  | [] => []
  | c :: r =>
      match r with
      | d :: r' =>
          if is_lead c && is_trail d
          then ((c - 55296) * 1024 + (d - 56320) + 65536) :: code_points r'
          else c :: code_points r
      | [] => [c]
      end
  end.

(** The UTF-8 octets of a string. *)
Definition utf8_bytes (s : jstr) : list Z := flat_map utf8 (code_points s).

(** A character of the base64 alphabet, or the padding character. *)
Definition b64_symbol (c : Z) : bool :=
  match b64val c with
  | Some _ => true
  | None => c =? 61
  end.

(** ASCII whitespace, which [atob] ignores. *)
Definition unspaced (s : jstr) : jstr := filter (fun c => negb (is_ws c)) s.

End Text.

(** ** Further vocabulary: answers, abort causes, addressing, branches *)

Module Behaviour.
Import Harmonizer.

(** [m] yields only results that satisfy [P]. *)
Definition yields {R A} (m : M (R:=R) A) (P : A -> Prop) : Prop :=
  sat m (fun o _ => match o with
                    | Done a => P a
                    | _ => True
                    end).

(** *** The answers of the harmonizer worker *)

Definition ok_flag (payload : value) : value := get_opt payload (lit "ok").

(** The [ok] field of an answer tells whether its status is 200. *)
Definition coherent (r : Response) : Prop :=
  In (status r) [200; 400; 404; 405; 500]
  /\ ok_flag (payload r) = VBool (status r =? 200).

(** The request is one the worker goes to work for. *)
Definition routed (req : Request) : Prop :=
  pathname req = lit "/harmonize" /\ req_method req = lit "POST".

(** The configuration and the request parameters are complete. *)
Definition complete (env : Env) (p : Params) : Prop :=
  truthy (GITHUB_TOKEN env) = true
  /\ truthy (OPENAI_API_KEY env) = true
  /\ truthy (owner p) = true
  /\ truthy (repo p) = true
  /\ truthy (get_opt (paths p) length_key) = true.

(** *** What makes a run of the harmonizer worker abort *)

(** The call sites whose failure the worker does not tolerate: a listing or
    a file read that fails is passed over, a probe that fails means the file
    is absent. *)
Definition fatal (s : Site) : bool :=
  match s with
  | ModelCall | BaseRef | CreateBranch | PutFile | CreatePR => true
  | CrawlList | PushFetch | Probe => false
  end.

(** The message of the error thrown for a reply that is not [ok]. *)
Definition failure_message (c : Call) (r : Reply) : jstr :=
  match site c with
  | ModelCall =>
      lit "OpenAI Error: " ++ dec (res_status r) ++ lit " " ++ res_text r
  | _ =>
      lit "GitHub " ++ method_name (method c) ++ lit " failed: "
      ++ dec (res_status r) ++ lit " " ++ res_text r
  end.

(** Answers of the remote side that end the run, with the error each one
    raises: a reply that is not [ok] at a site that does not tolerate it, a
    [fetch] that rejects or a successful reply without a JSON body anywhere
    but in the probe, and a file whose content cannot be decoded. *)
Inductive aborts {R : Runtime} : Event -> exn -> Prop :=
| refused c r :
    fatal (site c) = true -> res_ok r = false ->
    aborts (c, Replied r) (Error (failure_message c r))
| unreachable c :
    site c <> Probe -> aborts (c, Rejected) TypeError
| unreadable c r :
    site c <> Probe -> res_ok r = true -> res_json r = None ->
    aborts (c, Replied r) SyntaxError
| undecodable c r meta content size e :
    site c = PushFetch -> res_ok r = true -> res_json r = Some meta ->
    get meta (lit "content") = inr content -> truthy content = true ->
    get meta (lit "size") = inr size -> js_gt (R:=R) size size_threshold = false ->
    base64decode (toStr content) = inl e ->
    aborts (c, Replied r) e.

(** Such an answer is the last thing that happens, and its error is the
    outcome. *)
Definition reports {R A} (o : outcome A) (t : list Event) : Prop :=
  forall t1 e t2 x,
    t = t1 ++ e :: t2 -> aborts (R:=R) e x -> t2 = [] /\ o = Raised x.

(** *** Where the calls go, and with which credential *)

Definition prefix_of (p s : jstr) : bool := jstr_eqb p (firstn (List.length p) s).

Definition openai_url : jstr := lit "https://api.openai.com/v1/chat/completions".

(** The model call goes to the completions endpoint with the model key;
    every other call goes below the URL of the repository, with the GitHub
    token. *)
Definition addressed (env : Env) (p : Params) (c : Call) : bool :=
  match site c with
  | ModelCall =>
      jstr_eqb (url c) openai_url
      && jstr_eqb (auth c) (bearer (OPENAI_API_KEY env))
  | _ =>
      prefix_of (repo_url (owner p) (repo p) (lit "/")) (url c)
      && jstr_eqb (auth c) (bearer (GITHUB_TOKEN env))
  end.

(** *** The phases of a run *)

Definition applier_site (s : Site) : bool :=
  match s with
  | BaseRef | CreateBranch | Probe | PutFile | CreatePR => true
  | _ => false
  end.

(** Collection calls, then at most one model call, then calls of the apply
    step, which need a model call that succeeded. *)
Definition phased (t : list Event) : Prop :=
  exists tc tm ta,
    t = tc ++ tm ++ ta
    /\ Spec.calls_in (Spec.at_sites Spec.collector_site) tc
    /\ Spec.calls_in (Spec.at_sites Spec.model_site) tm
    /\ (List.length tm <= 1)%nat
    /\ Spec.calls_in (Spec.at_sites applier_site) ta
    /\ (ta <> [] -> exists c r, tm = [(c, Replied r)] /\ res_ok r = true).

Definition from_site (s : Site) (e : Event) : bool :=
  match site (fst e), s with
  | CrawlList, CrawlList | PushFetch, PushFetch | ModelCall, ModelCall
  | BaseRef, BaseRef | CreateBranch, CreateBranch | Probe, Probe
  | PutFile, PutFile | CreatePR, CreatePR => true
  | _, _ => false
  end.

(** How many calls of a trace come from site [s]. *)
Definition count_site (s : Site) (t : list Event) : nat :=
  List.length (filter (from_site s) t).

(** *** What the model is given *)

(** The stored content of a collected file is within the truncation
    bound. *)
Definition bounded (f : CollectedFile) : Prop :=
  (List.length (f_content f) <= truncation_bound)%nat.

(** Every model call of the trace carries the prompt for the parameters [p]
    and at most [file_cap] bounded files. *)
Definition fed (p : Params) (t : list Event) : Prop :=
  forall c n,
    In (c, n) t -> site c = ModelCall ->
    exists files,
      body c = Some (model_body (owner p) (repo p) (baseBranch p) (note p) files)
      /\ (List.length files <= file_cap)%nat
      /\ Forall bounded files.

(** *** The branch a run works on *)

(** A field of the body of a call. *)
Definition field (k : string) (c : Call) : option value :=
  option_map (fun b => get_opt b (lit k)) (body c).

(** The call concerns the branch [nb]: it creates it, probes or writes a
    file on it, or opens the pull request from it. *)
Definition targets (nb : jstr) (c : Call) : Prop :=
  match site c with
  | CreateBranch => field "ref" c = Some (VStr (lit "refs/heads/" ++ nb))
  | Probe => exists u, url c = u ++ lit "?ref=" ++ nb
  | PutFile => field "branch" c = Some (VStr nb)
  | CreatePR => field "head" c = Some (VStr nb)
  | _ => True
  end.

Definition on_branch (nb : jstr) (t : list Event) : Prop :=
  Forall (fun e => targets nb (fst e)) t.

(** The name of the branch created at time [stamp]. *)
Definition branch_name (stamp : Z) : jstr := lit "asa-harmonizer-" ++ dec stamp.

(** The answer of an apply run names the branch [nb]. *)
Definition names_branch (nb : jstr) (r : Response) : Prop :=
  get_opt (payload r) (lit "mode") = VStr (lit "apply") ->
  get_opt (payload r) (lit "branch") = VStr nb.

(** The sites of the calls made before the branch exists. *)
Definition early_site (s : Site) : bool :=
  match s with
  | CrawlList | PushFetch | ModelCall | BaseRef => true
  | _ => false
  end.

(** The world after the remote side has answered the calls of [t], one after
    the other. *)
Definition world_after {R : Runtime} (w : World R) (t : list Event) : World R :=
  fold_left (fun w0 e => fst (network R w0 (fst e))) t w.

(** [stamp] is what the clock shows when the calls before the first branch
    creation of [t] have been answered. *)
Definition clocked {R : Runtime} (w : World R) (t : list Event) (stamp : Z) : Prop :=
  forall t1 e t2,
    t = t1 ++ e :: t2 -> site (fst e) = CreateBranch ->
    Forall (fun x => site (fst x) <> CreateBranch) t1 ->
    stamp = snd (Date_now R (world_after w t1)).

(** The run works on one branch, named after the time the clock shows just
    before its creation, and the answer names that branch where [names]
    wants it to. *)
Definition branch_of {R : Runtime} {A} (names : jstr -> A -> Prop)
    (w : World R) (o : outcome A) (t : list Event) : Prop :=
  exists stamp,
    on_branch (branch_name stamp) t
    /\ (forall r, o = Done r -> names (branch_name stamp) r)
    /\ clocked w t stamp.

Definition one_branch {R : Runtime} (w : World R) (o : outcome Response)
    (t : list Event) : Prop :=
  branch_of names_branch w o t.

(** A postcondition that may depend on the world a computation starts
    from. *)
Definition wsat {R : Runtime} {A} (m : M (R:=R) A)
    (Q : World R -> outcome A -> list Event -> Prop) : Prop :=
  forall w, Q w (fst (fst (m w))) (snd (m w)).

(** The computation does not read the clock: the world it leaves is the one
    its calls have left. *)
Definition tracked {R : Runtime} {A} (m : M (R:=R) A) : Prop :=
  forall w, snd (fst (m w)) = world_after w (snd (m w)).

(** The trace starts with the creation of the branch. *)
Definition creation_first (t : list Event) : Prop :=
  exists c n more, t = (c, n) :: more /\ site c = CreateBranch.

(** *** What a successful apply run has done *)

(** The proposed change [change] was written on branch [nb]: [seg] is the
    probe of its path followed by the successful write of the same path, and
    [entry] records that path. *)
Definition written (owner repo : value) (nb : jstr) (change : value)
    (seg : list Event) (entry : value) : Prop :=
  exists fpath u pc pn wc wr,
    get change (lit "path") = inr fpath
    /\ contents_url owner repo fpath = inr u
    /\ seg = [(pc, pn); (wc, Replied wr)]
    /\ site pc = Probe /\ url pc = u ++ lit "?ref=" ++ nb
    /\ site wc = PutFile /\ url wc = u
    /\ res_ok wr = true
    /\ get_opt entry (lit "path") = fpath.

(** The changes were written one after the other, in order. *)
Inductive applied (owner repo : value) (nb : jstr) :
    list value -> list Event -> list value -> Prop :=
| applied_nil : applied owner repo nb [] [] []
| applied_cons change changes seg t entry entries :
    written owner repo nb change seg entry ->
    applied owner repo nb changes t entries ->
    applied owner repo nb (change :: changes) (seg ++ t) (entry :: entries).

(** *** What the collector adds *)

(** A completed run of the collector has appended to the accumulator, at
    most one file per file read, each within the truncation bound. *)
Definition grows (out : list CollectedFile) (o : outcome (list CollectedFile))
    (t : list Event) : Prop :=
  forall out',
    o = Done out' ->
    exists added,
      out' = out ++ added
      /\ (List.length added <= count_site PushFetch t)%nat
      /\ Forall bounded added.

End Behaviour.

(** ** Further vocabulary for the code-harmonizer worker *)

Module CodeBehaviour.
Import CodeHarmonizer.

(** The request is one the worker goes to work for. *)
Definition routed (request : Request) : Prop :=
  pathname request = lit "/api/harmonize" /\ req_method request = lit "POST".

(** JSON answers have status 200 or 500 and an [ok] field that tells which;
    the control panel is served with 200, anything else is a 404. *)
Definition coherent (r : Response) : Prop :=
  match r with
  | JsonResponse status payload =>
      (status = 200 \/ status = 500)
      /\ get_opt payload (lit "ok") = VBool (status =? 200)
  | HtmlPage status => status = 200
  | TextResponse status _ => status = 404
  end.

(** The configuration names the repository and holds the token. *)
Definition configured (env : Env) : bool :=
  truthy (GITHUB_OWNER env) && truthy (GITHUB_REPO env) && truthy (GITHUB_TOKEN env).

(** The steps of a run, in order, and the name each goes by in a failure
    report. *)
Definition steps : list Site := [BaseRef; CreateBranch; PutFile; CreatePR].

Definition step_name (s : Site) : jstr :=
  match s with
  | BaseRef => lit "get_base_ref"
  | CreateBranch => lit "create_ref"
  | PutFile => lit "create_file"
  | CreatePR => lit "create_pr"
  | _ => []
  end.

(** The report of a step that GitHub refused: the name of the step, and the
    status and the text of the reply. *)
Definition failure_report (step : jstr) (r : Reply) : Response :=
  JsonResponse 500
    (VObj [(lit "ok", VBool false);
           (lit "step", VStr step);
           (lit "status", VNum (res_status r));
           (lit "body", VStr (res_text r))]).

(** A refused call is the last one, and is reported. *)
Definition relays (o : outcome Response) (t : list Event) : Prop :=
  forall t1 c r t2,
    t = t1 ++ (c, Replied r) :: t2 -> res_ok r = false ->
    t2 = [] /\ o = Done (failure_report (step_name (site c)) r).

(** The calls are the first steps, in order, and a JSON answer with status
    200 comes after all the steps succeeded. *)
Definition staged (o : outcome Response) (t : list Event) : Prop :=
  map (fun e => site (fst e)) t = firstn (List.length t) steps
  /\ forall payload,
       o = Done (JsonResponse 200 payload) ->
       List.length t = 4%nat
       /\ Forall (fun e => Spec.replied_ok (snd e) = true) t.

(** Every call goes below the URL of the configured repository and carries
    the configured token. *)
Definition addressed (env : Env) (c : Call) : bool :=
  Behaviour.prefix_of (repo_url (GITHUB_OWNER env) (GITHUB_REPO env) (lit "/")) (url c)
  && jstr_eqb (auth c) (githubHeaders (GITHUB_TOKEN env)).

(** The answer of a successful run names the branch [nb]. *)
Definition names_branch (nb : jstr) (r : Response) : Prop :=
  forall payload,
    r = JsonResponse 200 payload -> get_opt payload (lit "branch") = VStr nb.

Definition one_branch {R : Runtime} (w : World R) (o : outcome Response)
    (t : list Event) : Prop :=
  Behaviour.branch_of names_branch w o t.

(** The run stops short of the file write, and throws a [TypeError] once the
    branch is there. *)
Definition stranded (o : outcome Response) (t : list Event) : Prop :=
  Behaviour.count_site PutFile t = 0%nat
  /\ Behaviour.count_site CreatePR t = 0%nat
  /\ forall c r,
       In (c, Replied r) t -> site c = CreateBranch -> res_ok r = true ->
       o = Raised TypeError.

End CodeBehaviour.

(** ** Further scenarios *)

Module Cases.
Import Harmonizer Mock.

Definition reply_of_net (n : Net) : Reply :=
  match n with
  | Replied r => r
  | Rejected => mkReply 0 [] None
  end.

(** The base-branch lookup is refused. *)
Definition refusal : Reply := mkReply 500 (lit "boom") None.

Definition refused_script : list Net :=
  [ok_json a_meta; ok_json a_meta; ok_json (completion proposal); Replied refusal].

Definition base_ref_call : Call :=
  mkCall BaseRef GET (lit "https://api.github.com/repos/acme/site/git/ref/heads/main")
    (lit "Bearer ghp_token") None.

(** The model service answers with a page that is not JSON. *)
Definition garbled : Reply := mkReply 200 (lit "<html>") None.

Definition garbled_script : list Net :=
  [ok_json a_meta; ok_json a_meta; Replied garbled].

(** [src/a.txt] holds the single octet 255, which is not UTF-8. *)
Definition binary_meta : value :=
  obj [("type", str "file"); ("path", a_txt);
       ("content", str "/w=="); ("size", VNum 1)]%string.

Definition binary_reply : Reply :=
  mkReply 200 (stringify binary_meta) (Some binary_meta).

Definition binary_script : list Net := [ok_json a_meta; Replied binary_reply].

Definition a_txt_call : Call :=
  mkCall PushFetch GET
    (lit "https://api.github.com/repos/acme/site/contents/src%2Fa.txt?ref=main")
    (lit "Bearer ghp_token") None.

(** The apply step of the end-to-end scenario, on its own. *)
(** The code-harmonizer worker, configured, and a request for it. *)
Definition code_env : CodeHarmonizer.Env :=
  CodeHarmonizer.mkEnv (str "acme") (str "site") VUndef (str "ghp_token").

Definition code_request (b : value) : CodeHarmonizer.Request :=
  CodeHarmonizer.mkRequest (lit "/api/harmonize") (lit "POST") (Some b).

(** The branch exists already. *)
Definition conflict : Reply := mkReply 422 (lit "Reference already exists") None.

Definition conflict_script : list Net := [ok_json base_ref; Replied conflict].

Definition create_ref_call : Call :=
  mkCall CreateBranch POST (lit "https://api.github.com/repos/acme/site/git/refs")
    (lit "Bearer ghp_token")
    (Some (obj [("ref", str "refs/heads/asa-harmonizer-1700000000000");
                ("sha", str "base0")]%string)).

(** [paths] given as a text instead of a list. *)
Definition text_paths : value := obj [("paths", str "src")]%string.

Definition code_script : list Net :=
  [ok_json base_ref; ok_json (VObj []); ok_json written; ok_json pull].

(** One proposed change, written over the existing file. *)
Definition change : value := obj [("path", a_txt); ("content", str "new")]%string.

Definition commit_run :=
  commit_file (R:=e2e_runtime) (ghClient (str "ghp_token")) (str "acme") (str "site")
    (lit "asa-harmonizer-1") change [] [ok_json blob; ok_json written].

(** The same change where the file does not exist yet on the branch. *)
Definition create_run :=
  commit_file (R:=e2e_runtime) (ghClient (str "ghp_token")) (str "acme") (str "site")
    (lit "asa-harmonizer-1") change [] [not_found; ok_json written].

Definition put_call : Call :=
  mkCall PutFile PUT (lit "https://api.github.com/repos/acme/site/contents/src%2Fa.txt")
    (lit "Bearer ghp_token")
    (Some (write_payload a_txt (lit "bmV3") (lit "asa-harmonizer-1") (str "blob1"))).

Definition apply_script : list Net :=
  [ok_json base_ref; ok_json (VObj []); ok_json blob; ok_json written; ok_json pull].

Definition apply_run :=
  apply_changes (R:=e2e_runtime) env0 (e2e_params true) proposal apply_script.

Definition answer_of (o : outcome Response) : Response :=
  match o with
  | Done r => r
  | _ => json VNull 0
  end.

End Cases.
(* ===================================================================== *)
(** * Part II: properties                                                  *)
(* ===================================================================== *)

Arguments lit : simpl never.
Arguments dec : simpl never.

(** ** Running monadic code *)

Section MonadFacts.
Context {R : Runtime}.
Local Notation M := (M (R:=R)).
Local Notation sat := (sat (R:=R)).

Lemma run_bind_ret {A B} (a : A) (k : A -> M B) w :
  bind (ret a) k w = k a w.
Proof.
  unfold bind, ret. destruct (k a w) as [[o w2] t2]. reflexivity.
Qed.

Lemma run_bind_throw {A B} (e : exn) (k : A -> M B) w :
  bind (throw e) k w = (Raised e, w, []).
Proof. reflexivity. Qed.

Lemma run_bind_lift {A B} (p : partial A) (k : A -> M B) w :
  bind (lift p) k w =
  match p with
  | inl e => (Raised e, w, [])
  | inr a => k a w
  end.
Proof.
  destruct p; simpl.
  - reflexivity.
  - apply run_bind_ret.
Qed.

Lemma run_bind_done {A B} (m : M A) (k : A -> M B) w a w1 t1 :
  m w = (Done a, w1, t1) ->
  bind m k w = (let '(o, w2, t2) := k a w1 in (o, w2, t1 ++ t2)).
Proof. intros H. unfold bind. rewrite H. reflexivity. Qed.

Lemma run_bind_raised {A B} (m : M A) (k : A -> M B) w e w1 t1 :
  m w = (Raised e, w1, t1) ->
  bind m k w = (Raised e, w1, t1).
Proof. intros H. unfold bind. rewrite H. reflexivity. Qed.

Lemma run_catch_done {A} (m : M A) (h : exn -> M A) w a w1 t1 :
  m w = (Done a, w1, t1) -> catch m h w = (Done a, w1, t1).
Proof. intros H. unfold catch. rewrite H. reflexivity. Qed.

Lemma run_catch_raised {A} (m : M A) (h : exn -> M A) w e w1 t1 :
  m w = (Raised e, w1, t1) ->
  catch m h w = (let '(o, w2, t2) := h e w1 in (o, w2, t1 ++ t2)).
Proof. intros H. unfold catch. rewrite H. reflexivity. Qed.

(** *** Postconditions on the outcome and the emitted calls *)

Lemma sat_run {A} (m : M A) Q w o w' t :
  sat m Q -> m w = (o, w', t) -> Q o t.
Proof. intros H E. specialize (H w). rewrite E in H. exact H. Qed.

Lemma sat_weaken {A} (m : M A) (P Q : outcome A -> list Event -> Prop) :
  sat m P -> (forall o t, P o t -> Q o t) -> sat m Q.
Proof. intros H HPQ w. apply HPQ, H. Qed.

Lemma sat_ret {A} (a : A) (Q : outcome A -> list Event -> Prop) :
  Q (Done a) [] -> sat (ret a) Q.
Proof. intros H w. exact H. Qed.

Lemma sat_throw {A} e (Q : outcome A -> list Event -> Prop) :
  Q (Raised e) [] -> sat (throw e) Q.
Proof. intros H w. exact H. Qed.

Lemma sat_diverge {A} (Q : outcome A -> list Event -> Prop) :
  Q OutOfFuel [] -> sat diverge Q.
Proof. intros H w. exact H. Qed.

Lemma sat_lift {A} (p : partial A) (Q : outcome A -> list Event -> Prop) :
  (forall a, p = inr a -> Q (Done a) []) ->
  (forall e, p = inl e -> Q (Raised e) []) ->
  sat (lift p) Q.
Proof.
  intros Hr Hl. destruct p as [e|a]; simpl.
  - apply sat_throw. now apply Hl.
  - apply sat_ret. now apply Hr.
Qed.

Lemma sat_now (Q : outcome Z -> list Event -> Prop) :
  (forall t, Q (Done t) []) -> sat now Q.
Proof.
  intros H w. unfold now. destruct (Date_now R w) as [w1 t]. apply H.
Qed.

Lemma sat_now_iso (Q : outcome jstr -> list Event -> Prop) :
  (forall t, Q (Done t) []) -> sat now_iso Q.
Proof.
  intros H w. unfold now_iso. destruct (Date_toISOString R w) as [w1 t]. apply H.
Qed.

Lemma sat_net_fetch c (Q : outcome Reply -> list Event -> Prop) :
  Q (Raised TypeError) [(c, Rejected)] ->
  (forall r, Q (Done r) [(c, Replied r)]) ->
  sat (net_fetch c) Q.
Proof.
  intros Hrej Hrep w. unfold net_fetch.
  destruct (network R w c) as [w1 [|r]]; simpl; auto.
Qed.

Lemma sat_json_of r (Q : outcome value -> list Event -> Prop) :
  (forall v, res_json r = Some v -> Q (Done v) []) ->
  (res_json r = None -> Q (Raised SyntaxError) []) ->
  sat (json_of r) Q.
Proof.
  intros Hs Hn. unfold json_of. destruct (res_json r).
  - apply sat_ret. now apply Hs.
  - apply sat_throw. now apply Hn.
Qed.

Lemma sat_bind {A B} (m : M A) (k : A -> M B) P (Q : outcome B -> list Event -> Prop) :
  sat m P ->
  (forall a t1, P (Done a) t1 -> sat (k a) (fun o t2 => Q o (t1 ++ t2))) ->
  (forall e t1, P (Raised e) t1 -> Q (Raised e) t1) ->
  (forall t1, P OutOfFuel t1 -> Q OutOfFuel t1) ->
  sat (bind m k) Q.
Proof.
  intros Hm Hk He Hf w. specialize (Hm w). unfold bind.
  destruct (m w) as [[[a|e|] w1] t1]; simpl in *.
  - specialize (Hk a t1 Hm w1). destruct (k a w1) as [[o w2] t2]. exact Hk.
  - now apply He.
  - now apply Hf.
Qed.

Lemma sat_catch {A} (m : M A) (h : exn -> M A) P (Q : outcome A -> list Event -> Prop) :
  sat m P ->
  (forall a t1, P (Done a) t1 -> Q (Done a) t1) ->
  (forall e t1, P (Raised e) t1 -> sat (h e) (fun o t2 => Q o (t1 ++ t2))) ->
  (forall t1, P OutOfFuel t1 -> Q OutOfFuel t1) ->
  sat (catch m h) Q.
Proof.
  intros Hm Hd Hh Hf w. specialize (Hm w). unfold catch.
  destruct (m w) as [[[a|e|] w1] t1]; simpl in *.
  - now apply Hd.
  - specialize (Hh e t1 Hm w1). destruct (h e w1) as [[o w2] t2]. exact Hh.
  - now apply Hf.
Qed.

End MonadFacts.

(** ** Properties of the emitted calls *)

(** A property of traces that holds of the empty trace and is kept by
    concatenation holds of every run once it holds of each call. *)
Section Traces.
Context {R : Runtime}.
Local Notation M := (M (R:=R)).
Local Notation emits := (Spec.emits (R:=R)).
Variable T : list Event -> Prop.
Hypothesis T_nil : T [].
Hypothesis T_app : forall t1 t2, T t1 -> T t2 -> T (t1 ++ t2).

Lemma emits_ret {A} (a : A) : emits T (ret a).
Proof. apply sat_ret. exact T_nil. Qed.

Lemma emits_throw {A} e : emits T (throw (A:=A) e).
Proof. apply sat_throw. exact T_nil. Qed.

Lemma emits_diverge {A} : emits T (diverge (A:=A)).
Proof. apply sat_diverge. exact T_nil. Qed.

Lemma emits_lift {A} (p : partial A) : emits T (lift p).
Proof. apply sat_lift; intros; exact T_nil. Qed.

Lemma emits_now : emits T now.
Proof. apply sat_now. intros; exact T_nil. Qed.

Lemma emits_now_iso : emits T now_iso.
Proof. apply sat_now_iso. intros; exact T_nil. Qed.

Lemma emits_json_of r : emits T (json_of r).
Proof. apply sat_json_of; intros; exact T_nil. Qed.

Lemma emits_net_fetch c : (forall n, T [(c, n)]) -> emits T (net_fetch c).
Proof. intros H. apply sat_net_fetch; intros; apply H. Qed.

Lemma emits_bind {A B} (m : M A) (k : A -> M B) :
  emits T m -> (forall a, emits T (k a)) -> emits T (bind m k).
Proof.
  intros Hm Hk. eapply sat_bind.
  - exact Hm.
  - intros a t1 H1. eapply sat_weaken; [apply Hk|].
    intros o t H2. now apply T_app.
  - auto.
  - auto.
Qed.

Lemma emits_catch {A} (m : M A) (h : exn -> M A) :
  emits T m -> (forall e, emits T (h e)) -> emits T (catch m h).
Proof.
  intros Hm Hh. eapply sat_catch.
  - exact Hm.
  - auto.
  - intros e t1 H1. eapply sat_weaken; [apply Hh|].
    intros o t H2. now apply T_app.
  - auto.
Qed.

Lemma emits_for_of {A St} (body : A -> St -> M St) l s :
  (forall x s', emits T (body x s')) -> emits T (for_of body l s).
Proof.
  intros Hb. revert s. induction l as [|x l IH]; intros s; simpl.
  - apply emits_ret.
  - apply emits_bind; auto.
Qed.

End Traces.

(** ** Which call sites a computation can reach *)

Section Sites.
Import Harmonizer Spec.
Context {R : Runtime}.
Local Notation M := (M (R:=R)).
Local Notation only := (only (R:=R)).
Variable P : Call -> bool.

Lemma calls_in_nil : calls_in P [].
Proof. constructor. Qed.

Lemma calls_in_app t1 t2 : calls_in P t1 -> calls_in P t2 -> calls_in P (t1 ++ t2).
Proof. unfold calls_in. intros. apply Forall_app. now split. Qed.

Lemma calls_in_sub (P' : Call -> bool) t :
  (forall c, P c = true -> P' c = true) -> calls_in P t -> calls_in P' t.
Proof.
  intros Hsub H. unfold calls_in in *. eapply Forall_impl; [|exact H].
  intros e He. simpl in He. now apply Hsub.
Qed.

Lemma only_ret {A} (a : A) : only P (ret a).
Proof. apply emits_ret, calls_in_nil. Qed.

Lemma only_throw {A} e : only P (throw (A:=A) e).
Proof. apply emits_throw, calls_in_nil. Qed.

Lemma only_diverge {A} : only P (diverge (A:=A)).
Proof. apply emits_diverge, calls_in_nil. Qed.

Lemma only_lift {A} (p : partial A) : only P (lift p).
Proof. apply emits_lift, calls_in_nil. Qed.

Lemma only_now : only P now.
Proof. apply emits_now, calls_in_nil. Qed.

Lemma only_now_iso : only P now_iso.
Proof. apply emits_now_iso, calls_in_nil. Qed.

Lemma only_json_of r : only P (json_of r).
Proof. apply emits_json_of, calls_in_nil. Qed.

Lemma only_net_fetch c : P c = true -> only P (net_fetch c).
Proof. intros H. apply emits_net_fetch. intros n. repeat constructor. exact H. Qed.

Lemma only_bind {A B} (m : M A) (k : A -> M B) :
  only P m -> (forall a, only P (k a)) -> only P (bind m k).
Proof. apply emits_bind, calls_in_app. Qed.

Lemma only_catch {A} (m : M A) (h : exn -> M A) :
  only P m -> (forall e, only P (h e)) -> only P (catch m h).
Proof. apply emits_catch, calls_in_app. Qed.

Lemma only_for_of {A St} (body : A -> St -> M St) l s :
  (forall x s', only P (body x s')) -> only P (for_of body l s).
Proof. apply emits_for_of; [apply calls_in_nil|apply calls_in_app]. Qed.

End Sites.

Ltac only_step :=
  first
    [ apply only_ret | apply only_throw | apply only_diverge | apply only_lift
    | apply only_now | apply only_now_iso | apply only_json_of
    | apply only_net_fetch; reflexivity
    | apply only_bind; [|intros ?]
    | apply only_catch; [|intros ?]
    | apply only_for_of; intros ? ?
    | match goal with
      | |- Spec.only _ (if ?c then _ else _) => destruct c
      | |- Spec.only _ (match ?x with _ => _ end) => destruct x
      end ].

Section ReadingSites.
Import Harmonizer Spec.
Context {R : Runtime}.
Local Notation only := (only (R:=R)).

Lemma pushFile_only owner repo branch path token out :
  only (at_sites collector_site) (pushFile owner repo branch path token out).
Proof. unfold pushFile. repeat only_step. Qed.

Lemma crawlGitHubDir_only fuel : forall owner repo branch path token out,
  only (at_sites collector_site) (crawlGitHubDir fuel owner repo branch path token out).
Proof.
  induction fuel as [|fuel IH]; intros; simpl.
  - apply only_diverge.
  - repeat first [ apply IH | apply pushFile_only | only_step ].
Qed.

Lemma collect_only fuel env p : only (at_sites collector_site) (collect fuel env p).
Proof.
  unfold collect. repeat first [ apply crawlGitHubDir_only | only_step ].
Qed.

Lemma callOpenAIHarmonizer_only apiKey owner repo baseBranch note files :
  only (at_sites model_site) (callOpenAIHarmonizer apiKey owner repo baseBranch note files).
Proof. unfold callOpenAIHarmonizer. repeat only_step. Qed.

End ReadingSites.

(** ** Call sites and HTTP methods *)

Section Tagging.
Import Harmonizer Spec.
Context {R : Runtime}.
Local Notation only := (only (R:=R)).

Lemma pushFile_tagged owner repo branch path token out :
  only well_tagged (pushFile owner repo branch path token out).
Proof. unfold pushFile. repeat only_step. Qed.

Lemma crawlGitHubDir_tagged fuel : forall owner repo branch path token out,
  only well_tagged (crawlGitHubDir fuel owner repo branch path token out).
Proof.
  induction fuel as [|fuel IH]; intros; simpl.
  - apply only_diverge.
  - repeat first [ apply IH | apply pushFile_tagged | only_step ].
Qed.

Lemma commit_file_tagged token owner repo newBranch file acc :
  only well_tagged (commit_file (ghClient token) owner repo newBranch file acc).
Proof.
  unfold commit_file, probe, ghGet, ghPut, ghClient, request. repeat only_step.
Qed.

(** Every call of the harmonizer worker uses the method of its call site:
    reads are GETs, the model call and the branch and pull-request creations
    are POSTs, the file write is a PUT. *)
Lemma fetch_tagged fuel req env : only well_tagged (fetch fuel req env).
Proof.
  unfold fetch, harmonize, collect, callOpenAIHarmonizer, apply_changes,
    ghGet, ghPost.
  repeat first [ apply crawlGitHubDir_tagged
               | apply only_for_of; intros ? ?; apply commit_file_tagged
               | progress unfold ghClient, request
               | only_step ].
Qed.

Lemma code_fetch_tagged request env :
  only well_tagged (CodeHarmonizer.fetch request env).
Proof.
  unfold CodeHarmonizer.fetch, CodeHarmonizer.harmonize.
  repeat only_step.
Qed.

End Tagging.

(** ** Fuel is only a bound *)

Section Fuel.
Import Harmonizer.
Context {R : Runtime}.
Local Notation M := (M (R:=R)).
Local Notation refines := (refines (R:=R)).

Lemma refines_refl {A} (m : M A) : refines m m.
Proof. intros w o w' t H _. exact H. Qed.

Lemma refines_bind {A B} (m1 m2 : M A) (k1 k2 : A -> M B) :
  refines m1 m2 -> (forall a, refines (k1 a) (k2 a)) ->
  refines (bind m1 k1) (bind m2 k2).
Proof.
  intros Hm Hk w o w' t Hrun Ho. unfold bind in *.
  destruct (m1 w) as [[[a|e|] w1] t1] eqn:E1.
  - rewrite (Hm w (Done a) w1 t1 E1) by discriminate.
    destruct (k1 a w1) as [[o2 w2] t2] eqn:E2.
    injection Hrun as <- <- <-.
    rewrite (Hk a w1 o2 w2 t2 E2 Ho). reflexivity.
  - rewrite (Hm w (Raised e) w1 t1 E1) by discriminate. exact Hrun.
  - injection Hrun as <- <- <-. congruence.
Qed.

Lemma refines_catch {A} (m1 m2 : M A) (h : exn -> M A) :
  refines m1 m2 -> refines (catch m1 h) (catch m2 h).
Proof.
  intros Hm w o w' t Hrun Ho. unfold catch in *.
  destruct (m1 w) as [[[a|e|] w1] t1] eqn:E1.
  - rewrite (Hm w (Done a) w1 t1 E1) by discriminate. exact Hrun.
  - rewrite (Hm w (Raised e) w1 t1 E1) by discriminate. exact Hrun.
  - injection Hrun as <- <- <-. congruence.
Qed.

Lemma refines_for_of {A S} (b1 b2 : A -> S -> M S) l :
  (forall x s, refines (b1 x s) (b2 x s)) ->
  forall s, refines (for_of b1 l s) (for_of b2 l s).
Proof.
  intros Hb. induction l as [|x l IH]; intros s; simpl.
  - apply refines_refl.
  - apply refines_bind; [apply Hb|exact IH].
Qed.

(** More fuel changes nothing to a traversal that completed or threw. *)
Lemma crawlGitHubDir_more_fuel n : forall m owner repo branch path token out,
  (n <= m)%nat ->
  refines (crawlGitHubDir n owner repo branch path token out)
          (crawlGitHubDir m owner repo branch path token out).
Proof.
  induction n as [|n IH]; intros m owner repo branch path token out Hle.
  - intros w o w' t Hrun Ho. simpl in Hrun. injection Hrun as <- <- <-. congruence.
  - destruct m as [|m]; [lia|]. cbn [crawlGitHubDir].
    apply refines_bind; [apply refines_refl|intros u].
    apply refines_bind; [apply refines_refl|intros res].
    destruct (negb (res_ok res)); [apply refines_refl|].
    apply refines_bind; [apply refines_refl|intros data].
    apply refines_bind; [|intros out1; apply refines_refl].
    destruct data; try apply refines_refl.
    apply refines_for_of. intros item acc.
    apply refines_bind; [apply refines_refl|intros ty].
    destruct (is_str ty (lit "dir")); [|apply refines_refl].
    apply refines_bind; [apply refines_refl|intros p].
    apply IH. lia.
Qed.

Lemma fetch_more_fuel n m req env :
  (n <= m)%nat -> refines (fetch n req env) (fetch m req env).
Proof.
  intros Hle. unfold fetch.
  destruct (jstr_eqb _ _); [apply refines_refl|].
  destruct (negb _); [apply refines_refl|].
  destruct (negb _); [apply refines_refl|].
  apply refines_catch.
  apply refines_bind; [apply refines_refl|intros b].
  unfold harmonize.
  apply refines_bind; [apply refines_refl|intros p].
  apply refines_bind; [apply refines_refl|intros _].
  apply refines_bind; [|intros collected; apply refines_refl].
  unfold collect.
  apply refines_bind; [apply refines_refl|intros items].
  apply refines_for_of. intros path out.
  now apply crawlGitHubDir_more_fuel.
Qed.

End Fuel.

(** ** The request handler, phase by phase *)

Section Handler.
Import Harmonizer Spec.
Context {R : Runtime}.

Lemma fetch_post fuel b env (w : World R) :
  fetch fuel (post b) env w =
  catch (harmonize fuel env b) (fun err => ret (error_response (R:=R) err)) w.
Proof.
  unfold fetch.
  replace (jstr_eqb (pathname (post b)) (lit "/health")) with false by reflexivity.
  replace (jstr_eqb (pathname (post b)) (lit "/harmonize")) with true by reflexivity.
  replace (jstr_eqb (req_method (post b)) (lit "POST")) with true by reflexivity.
  cbn [negb req_json post]. unfold catch.
  rewrite run_bind_ret. reflexivity.
Qed.

Lemma harmonize_run fuel env b p (w : World R) :
  destructure env b = inr p ->
  validate env p = inr tt ->
  harmonize fuel env b w =
  bind (collect fuel env p) (fun collected =>
    match collected with
    | [] => ret (no_files_response p)
    | _ =>
      bind (callOpenAIHarmonizer (OPENAI_API_KEY env) (owner p) (repo p)
              (baseBranch p) (note p) (firstn file_cap collected))
        (fun harmonizerResult =>
      bind (lift (get harmonizerResult (lit "files"))) (fun files =>
      if negb (truthy (get_opt files length_key)) then ret no_rewrite_response
      else if negb (truthy (apply p)) then
        bind (lift (get harmonizerResult (lit "summary"))) (fun summary =>
        ret (preview_response summary files))
      else apply_changes env p harmonizerResult))
    end) w.
Proof.
  intros Hd Hv. unfold harmonize.
  rewrite run_bind_lift, Hd, run_bind_lift, Hv. reflexivity.
Qed.

Lemma error_response_failure msg :
  msg <> [] -> error_response (R:=R) (Error msg) = failure msg.
Proof. destruct msg; [congruence|reflexivity]. Qed.

Lemma validate_incomplete env p :
  incomplete env p ->
  exists msg, In msg validation_messages /\ validate env p = inl (Error msg).
Proof.
  unfold incomplete, validate, validation_messages. intros H.
  destruct (truthy (GITHUB_TOKEN env)); simpl.
  2:{ eexists; split; [|reflexivity]. simpl; auto. }
  destruct (truthy (OPENAI_API_KEY env)); simpl.
  2:{ eexists; split; [|reflexivity]. simpl; auto. }
  destruct (truthy (owner p)); simpl.
  2:{ eexists; split; [|reflexivity]. simpl; auto. }
  destruct (truthy (repo p)); simpl.
  2:{ eexists; split; [|reflexivity]. simpl; auto. }
  destruct H as [H|[H|[H|[H|H]]]]; try discriminate.
  rewrite H. simpl. eexists; split; [|reflexivity]. simpl; auto 6.
Qed.



Lemma get_total v k x k' : get v k = inr x -> get v k' = inr (get_opt v k').
Proof.
  unfold get_opt. destruct v; simpl; intros H; try discriminate; reflexivity.
Qed.

Lemma only_sub {A} (P P' : Call -> bool) (m : M (R:=R) A) :
  (forall c, P c = true -> P' c = true) -> only P m -> only P' m.
Proof.
  intros Hsub H. eapply sat_weaken; [exact H|].
  intros o t Ht. eapply calls_in_sub; eauto.
Qed.

Lemma sites_no_mutation t : calls_in (at_sites reading_site) t -> no_mutation t.
Proof.
  unfold calls_in, at_sites, no_mutation. apply Forall_impl. intros [c n] H.
  unfold mutating, reading_site, collector_site, model_site in *. simpl in *.
  destruct (site c); simpl in *; congruence.
Qed.

Lemma sites_no_model t : calls_in (at_sites collector_site) t -> no_model_call t.
Proof.
  unfold calls_in, at_sites, no_model_call. apply Forall_impl. intros [c n] H.
  unfold collector_site in *. simpl in *.
  destruct (site c); simpl in *; congruence.
Qed.

Lemma reading_tagged_reads t :
  calls_in (at_sites reading_site) t -> calls_in well_tagged t -> reads_only t.
Proof.
  unfold calls_in, reads_only. intros Hs Ht.
  rewrite Forall_forall in *. intros [c n] Hin.
  specialize (Hs _ Hin). specialize (Ht _ Hin). simpl in *.
  unfold at_sites, reading_site, collector_site, model_site, well_tagged in *.
  destruct (site c), (method c); simpl in *; try discriminate; auto.
Qed.

Lemma collector_reading c :
  at_sites collector_site c = true -> at_sites reading_site c = true.
Proof. unfold at_sites, reading_site. intros ->. reflexivity. Qed.

Lemma model_reading c :
  at_sites model_site c = true -> at_sites reading_site c = true.
Proof. unfold at_sites, reading_site. intros ->. apply orb_true_r. Qed.

(** In preview mode the handler only ever reads: whatever the remote side
    answers, and however the run ends, its calls are listings, file reads
    and the model call. *)
Lemma preview_only_reads fuel env b :
  (forall p, destructure env b = inr p -> truthy (apply p) = false) ->
  only (at_sites reading_site) (harmonize (R:=R) fuel env b).
Proof.
  intros Hprev. unfold harmonize.
  destruct (destructure env b) as [e|p] eqn:Hd; simpl.
  - intros w. rewrite run_bind_throw. constructor.
  - specialize (Hprev p eq_refl).
    intros w. rewrite run_bind_ret. revert w.
    apply only_bind; [apply only_lift|intros _].
    apply only_bind.
    + eapply only_sub; [apply collector_reading|apply collect_only].
    + intros collected. destruct collected as [|f fs]; [apply only_ret|].
      apply only_bind.
      * eapply only_sub; [apply model_reading|apply callOpenAIHarmonizer_only].
      * intros hr. apply only_bind; [apply only_lift|intros files].
        destruct (negb (truthy (get_opt files length_key))); [apply only_ret|].
        rewrite Hprev. simpl. repeat only_step.
Qed.

End Handler.

(** C3 (fail fast): when a required credential or identifier is missing, or
    [paths] is empty, the handler answers with a validation failure
    [{ ok: false, error }] (status 500) whose message is one of the four
    validation messages, without issuing any network call. *)
Theorem validation_fails_fast :
  forall (R : Runtime) (fuel : nat) (env : Harmonizer.Env) (b : value)
         (p : Harmonizer.Params) (w : World R),
    Harmonizer.destructure env b = inr p ->
    Spec.incomplete env p ->
    exists msg,
      In msg Spec.validation_messages /\
      Harmonizer.fetch fuel (Harmonizer.post b) env w
      = (Done (Spec.failure msg), w, []).
Proof.
  intros R fuel env b p w Hd Hinc.
  destruct (validate_incomplete env p Hinc) as (msg & Hin & Hv).
  exists msg. split; [exact Hin|].
  rewrite fetch_post. unfold Harmonizer.harmonize.
  erewrite run_catch_raised.
  2:{ rewrite run_bind_lift, Hd, run_bind_lift, Hv. reflexivity. }
  simpl. rewrite error_response_failure; [reflexivity|].
  unfold Spec.validation_messages in Hin. simpl in Hin.
  intuition (subst; discriminate).
Qed.

Lemma validation_fails_fast_witness :
  exists msg,
    In msg Spec.validation_messages /\
    Harmonizer.fetch (R:=Mock.e2e_runtime) 3
      (Harmonizer.post (Harmonizer.obj [("paths", VArr [])]%string))
      Mock.env0 Mock.e2e_script
    = (Done (Spec.failure msg), Mock.e2e_script, []).
Proof.
  apply (validation_fails_fast Mock.e2e_runtime 3 Mock.env0
           (Harmonizer.obj [("paths", VArr [])]%string)
           (Harmonizer.mkParams (VArr []) (VBool false) (Mock.str "acme")
              (Mock.str "site") (Mock.str "main")
              (Mock.str "ASA MATRIX harmonizer run"))).
  - reflexivity.
  - right; right; right; right. reflexivity.
Defined.

(** C6 (no files): when the given paths collect nothing, the handler answers
    with the "no files found" failure, [{ ok: false, error: "No files found
    in provided paths", paths }] with status 400; the calls it made are
    exactly those of the collection, so the model service is never called
    and nothing is mutated. *)
Theorem no_files_fails_before_model :
  forall (R : Runtime) (fuel : nat) (env : Harmonizer.Env) (b : value)
         (p : Harmonizer.Params) (w w1 : World R) (t1 : list Event),
    Harmonizer.destructure env b = inr p ->
    Harmonizer.validate env p = inr tt ->
    Harmonizer.collect fuel env p w = (Done [], w1, t1) ->
    Harmonizer.fetch fuel (Harmonizer.post b) env w
    = (Done (Harmonizer.mkResponse 400
               (VObj [(lit "ok", VBool false);
                      (lit "error", VStr (lit "No files found in provided paths"));
                      (lit "paths", Harmonizer.paths p)])),
       w1, t1)
    /\ Spec.no_model_call t1
    /\ Spec.no_mutation t1.
Proof.
  intros R fuel env b p w w1 t1 Hd Hv Hc.
  assert (Hsites : Spec.calls_in (Spec.at_sites Spec.collector_site) t1).
  { exact (sat_run _ _ _ _ _ _ (collect_only fuel env p) Hc). }
  split; [|split].
  - rewrite fetch_post. erewrite run_catch_done; [reflexivity|].
    rewrite (harmonize_run fuel env b p w Hd Hv).
    rewrite (run_bind_done _ _ _ _ _ _ Hc). cbn [ret]. now rewrite app_nil_r.
  - now apply sites_no_model.
  - apply sites_no_mutation. eapply calls_in_sub; [|exact Hsites].
    apply collector_reading.
Qed.

Lemma no_files_fails_before_model_witness :
  exists w1 t1,
    Harmonizer.fetch (R:=Mock.e2e_runtime) 3
      (Harmonizer.post (Mock.e2e_body false)) Mock.env0 [Mock.ok_json (VArr [])]
    = (Done (Harmonizer.mkResponse 400
               (VObj [(lit "ok", VBool false);
                      (lit "error", VStr (lit "No files found in provided paths"));
                      (lit "paths", VArr [VStr (lit "src/a.txt")])])),
       w1, t1)
    /\ Spec.no_model_call t1
    /\ Spec.no_mutation t1.
Proof.
  do 2 eexists.
  apply (no_files_fails_before_model Mock.e2e_runtime 3 Mock.env0
           (Mock.e2e_body false) (Mock.e2e_params false)
           [Mock.ok_json (VArr [])]); reflexivity.
Defined.

(** C1 (preview): a request with a falsy [apply] whose collection is
    non-empty and whose rewrite result has a non-empty [files] gets the
    preview outcome, [{ ok: true, mode: "preview", summary, files }] with
    status 200, where [summary] is the summary of the rewrite result (or
    [null] when that is falsy) and [files] its files; the calls of the run
    are those of the collection followed by the model call, none of which
    creates a branch, writes a file or opens a pull request: apart from the
    model call they are all GETs. *)
Theorem preview_returns_rewrite_without_mutation :
  forall (R : Runtime) (fuel : nat) (env : Harmonizer.Env) (b : value)
         (p : Harmonizer.Params) (w w1 w2 : World R) (t1 t2 : list Event)
         (collected : list Harmonizer.CollectedFile) (hr files : value),
    Harmonizer.destructure env b = inr p ->
    truthy (Harmonizer.apply p) = false ->
    Harmonizer.validate env p = inr tt ->
    Harmonizer.collect fuel env p w = (Done collected, w1, t1) ->
    collected <> [] ->
    Harmonizer.callOpenAIHarmonizer (Harmonizer.OPENAI_API_KEY env)
      (Harmonizer.owner p) (Harmonizer.repo p) (Harmonizer.baseBranch p)
      (Harmonizer.note p) (firstn Harmonizer.file_cap collected) w1
    = (Done hr, w2, t2) ->
    get hr (lit "files") = inr files ->
    truthy (get_opt files length_key) = true ->
    Harmonizer.fetch fuel (Harmonizer.post b) env w
    = (Done (Harmonizer.mkResponse 200
               (VObj [(lit "ok", VBool true);
                      (lit "mode", VStr (lit "preview"));
                      (lit "summary", or_else (get_opt hr (lit "summary")) VNull);
                      (lit "files", files)])),
       w2, t1 ++ t2)
    /\ Spec.no_mutation (t1 ++ t2)
    /\ Spec.reads_only (t1 ++ t2).
Proof.
  intros R fuel env b p w w1 w2 t1 t2 collected hr files
         Hd Hprev Hv Hc Hne Hm Hfiles Hlen.
  assert (Hsites : Spec.calls_in (Spec.at_sites Spec.reading_site) (t1 ++ t2)).
  { apply calls_in_app.
    - eapply calls_in_sub; [apply collector_reading|].
      exact (sat_run _ _ _ _ _ _ (collect_only fuel env p) Hc).
    - eapply calls_in_sub; [apply model_reading|].
      exact (sat_run _ _ _ _ _ _ (callOpenAIHarmonizer_only _ _ _ _ _ _) Hm). }
  assert (Hrun : Harmonizer.fetch fuel (Harmonizer.post b) env w
                 = (Done (Harmonizer.preview_response (get_opt hr (lit "summary")) files),
                    w2, t1 ++ t2)); [|split; [exact Hrun|split]].
  - rewrite fetch_post. erewrite run_catch_done; [reflexivity|].
    rewrite (harmonize_run fuel env b p w Hd Hv).
    rewrite (run_bind_done _ _ _ _ _ _ Hc).
    destruct collected as [|f fs]; [congruence|].
    rewrite (run_bind_done _ _ _ _ _ _ Hm).
    rewrite run_bind_lift, Hfiles, Hlen, Hprev. cbn [negb].
    rewrite run_bind_lift, (get_total _ _ _ (lit "summary") Hfiles).
    simpl. now rewrite !app_nil_r.
  - now apply sites_no_mutation.
  - apply reading_tagged_reads; [exact Hsites|].
    pose proof (fetch_tagged fuel (Harmonizer.post b) env w) as Htag.
    rewrite Hrun in Htag. exact Htag.
Qed.

Lemma preview_returns_rewrite_without_mutation_witness :
  exists w2 t,
    Harmonizer.fetch (R:=Mock.e2e_runtime) 3
      (Harmonizer.post (Mock.e2e_body false)) Mock.env0 Mock.e2e_script
    = (Done (Harmonizer.mkResponse 200
               (VObj [(lit "ok", VBool true);
                      (lit "mode", VStr (lit "preview"));
                      (lit "summary", VStr (lit "tidy"));
                      (lit "files",
                       VArr [VObj [(lit "path", VStr (lit "src/a.txt"));
                                   (lit "content", VStr (lit "new"))]])])),
       w2, t)
    /\ Spec.no_mutation t
    /\ Spec.reads_only t.
Proof.
  do 2 eexists.
  eapply (preview_returns_rewrite_without_mutation Mock.e2e_runtime 3 Mock.env0
            (Mock.e2e_body false) (Mock.e2e_params false) Mock.e2e_script
            _ _ _ _ _ Mock.proposal).
  - reflexivity.
  - reflexivity.
  - reflexivity.
  - reflexivity.
  - discriminate.
  - reflexivity.
  - reflexivity.
  - reflexivity.
Defined.

(** Preview mode never mutates, whatever the input and however the run
    ends; in particular two runs in a row leave the remote repository
    untouched. *)
Lemma preview_never_mutates (R : Runtime) fuel env b (w : World R) :
  (forall p, Harmonizer.destructure env b = inr p ->
             truthy (Harmonizer.apply p) = false) ->
  Spec.no_mutation (snd (Harmonizer.fetch fuel (Harmonizer.post b) env w)).
Proof.
  intros Hprev. apply sites_no_mutation.
  rewrite fetch_post.
  apply (only_catch (Spec.at_sites Spec.reading_site)).
  - now apply preview_only_reads.
  - intros e. apply only_ret.
Qed.

Lemma preview_twice_never_mutates (R : Runtime) fuel env b (w : World R) :
  (forall p, Harmonizer.destructure env b = inr p ->
             truthy (Harmonizer.apply p) = false) ->
  let first := Harmonizer.fetch fuel (Harmonizer.post b) env w in
  let second := Harmonizer.fetch fuel (Harmonizer.post b) env (snd (fst first)) in
  Spec.no_mutation (snd first ++ snd second).
Proof.
  intros Hprev first second. apply Forall_app. split.
  - now apply preview_never_mutates.
  - now apply preview_never_mutates.
Qed.

(** C4, as stated, fails: a reply whose [files] is a string is not of the
    expected shape, yet the apply run it triggers is answered with status
    200 after creating a branch, writing a file and opening a pull
    request. *)
Lemma stray_files_are_applied :
  let run := Harmonizer.fetch (R:=Mock.e2e_runtime) 3
               (Harmonizer.post (Mock.e2e_body true)) Mock.env0
               (Mock.fresh_script Mock.stray_reply) in
  JSON_parse Mock.e2e_runtime (Mock.stringify Mock.stray_reply) = Some Mock.stray_reply
  /\ Spec.well_shaped Mock.stray_reply = false
  /\ option_map Harmonizer.status
       (match fst (fst run) with Done r => Some r | _ => None end) = Some 200
  /\ map (fun e => site (fst e)) (snd run)
     = [CrawlList; PushFetch; ModelCall; BaseRef; CreateBranch; Probe; PutFile; CreatePR]
  /\ ~ Spec.no_mutation (snd run).
Proof.
  cbv zeta. repeat split; try reflexivity.
  intros H. unfold Spec.no_mutation in H. rewrite Forall_forall in H.
  assert (Hin : exists e, In e (snd (Harmonizer.fetch (R:=Mock.e2e_runtime) 3
               (Harmonizer.post (Mock.e2e_body true)) Mock.env0
               (Mock.fresh_script Mock.stray_reply))) /\ Spec.mutating (fst e) = true).
  { eexists. split; [vm_compute; do 4 right; left; reflexivity|reflexivity]. }
  destruct Hin as (e & Hin & He). rewrite (H e Hin) in He. discriminate.
Qed.

(** C4, amended: when the model call fails, its reply cannot be parsed, or
    the parsed reply has no [files] or a [files] of zero length, the handler
    answers with a failure (status 500, [ok: false]) and the calls of the run
    are those of the collection and the model call: nothing was mutated. *)
Theorem unusable_reply_aborts_before_mutation :
  forall (R : Runtime) (fuel : nat) (env : Harmonizer.Env) (b : value)
         (p : Harmonizer.Params) (w w1 w2 : World R) (t1 t2 : list Event)
         (collected : list Harmonizer.CollectedFile) (o : outcome value),
    Harmonizer.destructure env b = inr p ->
    Harmonizer.validate env p = inr tt ->
    Harmonizer.collect fuel env p w = (Done collected, w1, t1) ->
    collected <> [] ->
    Harmonizer.callOpenAIHarmonizer (Harmonizer.OPENAI_API_KEY env)
      (Harmonizer.owner p) (Harmonizer.repo p) (Harmonizer.baseBranch p)
      (Harmonizer.note p) (firstn Harmonizer.file_cap collected) w1
    = (o, w2, t2) ->
    Spec.unusable o ->
    exists resp,
      Harmonizer.fetch fuel (Harmonizer.post b) env w = (Done resp, w2, t1 ++ t2)
      /\ Spec.is_failure resp
      /\ Spec.no_mutation (t1 ++ t2).
Proof.
  intros R fuel env b p w w1 w2 t1 t2 collected o Hd Hv Hc Hne Hm Hun.
  assert (Hmut : Spec.no_mutation (t1 ++ t2)).
  { apply sites_no_mutation. apply calls_in_app.
    - eapply calls_in_sub; [apply collector_reading|].
      exact (sat_run _ _ _ _ _ _ (collect_only fuel env p) Hc).
    - eapply calls_in_sub; [apply model_reading|].
      exact (sat_run _ _ _ _ _ _ (callOpenAIHarmonizer_only _ _ _ _ _ _) Hm). }
  destruct collected as [|f fs]; [congruence|].
  destruct o as [hr|e|]; simpl in Hun; [|  |contradiction].
  - destruct (get hr (lit "files")) as [e|files] eqn:Hfiles.
    + exists (Harmonizer.error_response (R:=R) e). split; [|split; [split; reflexivity|exact Hmut]].
      rewrite fetch_post. erewrite run_catch_raised.
      2:{ rewrite (harmonize_run fuel env b p w Hd Hv).
          rewrite (run_bind_done _ _ _ _ _ _ Hc).
          rewrite (run_bind_done _ _ _ _ _ _ Hm).
          rewrite run_bind_lift, Hfiles. reflexivity. }
      simpl. now rewrite !app_nil_r.
    + exists Harmonizer.no_rewrite_response. split; [|split; [split; reflexivity|exact Hmut]].
      rewrite fetch_post. erewrite run_catch_done; [reflexivity|].
      rewrite (harmonize_run fuel env b p w Hd Hv).
      rewrite (run_bind_done _ _ _ _ _ _ Hc).
      rewrite (run_bind_done _ _ _ _ _ _ Hm).
      rewrite run_bind_lift, Hfiles, Hun. simpl. now rewrite !app_nil_r.
  - exists (Harmonizer.error_response (R:=R) e). split; [|split; [split; reflexivity|exact Hmut]].
    rewrite fetch_post. erewrite run_catch_raised.
    2:{ rewrite (harmonize_run fuel env b p w Hd Hv).
        rewrite (run_bind_done _ _ _ _ _ _ Hc).
        rewrite (run_bind_raised _ _ _ _ _ _ Hm). reflexivity. }
    simpl. now rewrite !app_nil_r.
Qed.

Lemma unusable_reply_aborts_before_mutation_witness :
  exists resp w2 t,
    Harmonizer.fetch (R:=Mock.e2e_runtime) 3
      (Harmonizer.post (Mock.e2e_body true)) Mock.env0 (Mock.fresh_script Mock.empty_reply)
    = (Done resp, w2, t)
    /\ Spec.is_failure resp
    /\ Spec.no_mutation t.
Proof.
  assert (H := fun w1 w2 t1 t2 c o =>
    unusable_reply_aborts_before_mutation Mock.e2e_runtime 3 Mock.env0
      (Mock.e2e_body true) (Mock.e2e_params true) (Mock.fresh_script Mock.empty_reply)
      w1 w2 t1 t2 c o eq_refl eq_refl).
  edestruct H as (resp & Hrun & Hfail & Hmut).
  - reflexivity.
  - discriminate.
  - reflexivity.
  - reflexivity.
  - exists resp. do 2 eexists. split; [exact Hrun|split; assumption].
Defined.

(** C9, as stated, fails: the only proposed change of this reply has an empty
    path, and the apply run hands it on: the file write goes to the contents
    endpoint with an empty path and the run is answered with status 200. *)
Lemma empty_path_is_handed_on :
  let run := Harmonizer.fetch (R:=Mock.e2e_runtime) 3
               (Harmonizer.post (Mock.e2e_body true)) Mock.env0
               (Mock.fresh_script Mock.pathless_reply) in
  JSON_parse Mock.e2e_runtime (Mock.stringify Mock.pathless_reply)
  = Some Mock.pathless_reply
  /\ Spec.change_paths Mock.pathless_reply = [VStr []]
  /\ option_map Harmonizer.status
       (match fst (fst run) with Done r => Some r | _ => None end) = Some 200
  /\ map (fun e => url (fst e))
       (filter (fun e => Spec.mutating (fst e)) (snd run))
     = [lit "https://api.github.com/repos/acme/site/git/refs";
        lit "https://api.github.com/repos/acme/site/contents/";
        lit "https://api.github.com/repos/acme/site/pulls"].
Proof. cbv zeta. repeat split; reflexivity. Qed.

(** C9, amended: the handler does not look at the paths of the proposed
    changes; a run fails, with the "no files" failure and status 500,
    whenever the rewrite result carries zero proposed changes ([files]
    missing or empty). *)
Theorem zero_changes_fail_the_run :
  forall (R : Runtime) (fuel : nat) (env : Harmonizer.Env) (b : value)
         (p : Harmonizer.Params) (w w1 w2 : World R) (t1 t2 : list Event)
         (collected : list Harmonizer.CollectedFile) (hr : value),
    Harmonizer.destructure env b = inr p ->
    Harmonizer.validate env p = inr tt ->
    Harmonizer.collect fuel env p w = (Done collected, w1, t1) ->
    collected <> [] ->
    Harmonizer.callOpenAIHarmonizer (Harmonizer.OPENAI_API_KEY env)
      (Harmonizer.owner p) (Harmonizer.repo p) (Harmonizer.baseBranch p)
      (Harmonizer.note p) (firstn Harmonizer.file_cap collected) w1
    = (Done hr, w2, t2) ->
    Spec.no_changes hr ->
    Harmonizer.fetch fuel (Harmonizer.post b) env w
    = (Done (Spec.failure (lit "Harmonizer returned no files")), w2, t1 ++ t2).
Proof.
  intros R fuel env b p w w1 w2 t1 t2 collected hr Hd Hv Hc Hne Hm Hz.
  destruct collected as [|f fs]; [congruence|].
  rewrite fetch_post. erewrite run_catch_done; [reflexivity|].
  rewrite (harmonize_run fuel env b p w Hd Hv).
  rewrite (run_bind_done _ _ _ _ _ _ Hc).
  rewrite (run_bind_done _ _ _ _ _ _ Hm).
  rewrite run_bind_lift.
  destruct Hz as [Hz|Hz]; rewrite Hz; simpl; now rewrite !app_nil_r.
Qed.

Lemma zero_changes_fail_the_run_witness :
  exists w2 t,
    Harmonizer.fetch (R:=Mock.e2e_runtime) 3
      (Harmonizer.post (Mock.e2e_body true)) Mock.env0 (Mock.fresh_script Mock.empty_reply)
    = (Done (Spec.failure (lit "Harmonizer returned no files")), w2, t).
Proof.
  do 2 eexists.
  eapply (zero_changes_fail_the_run Mock.e2e_runtime 3 Mock.env0
            (Mock.e2e_body true) (Mock.e2e_params true) (Mock.fresh_script Mock.empty_reply)).
  - reflexivity.
  - reflexivity.
  - reflexivity.
  - discriminate.
  - reflexivity.
  - right. reflexivity.
Defined.

(** ** Create versus update *)

Section CreateOrUpdate.
Import Harmonizer Spec.
Context {R : Runtime}.

Lemma request_run token at_ m u b (w : World R) :
  exists w1 n,
    network R w (mkCall at_ m u (bearer token) b) = (w1, n)
    /\ snd (request token at_ m u b w) = [(mkCall at_ m u (bearer token) b, n)]
    /\ snd (fst (request token at_ m u b w)) = w1
    /\ fst (fst (request token at_ m u b w)) =
       match n with
       | Rejected => Raised TypeError
       | Replied r =>
           if res_ok r then
             match res_json r with
             | Some v => Done v
             | None => Raised SyntaxError
             end
           else Raised (Error (lit "GitHub " ++ method_name m ++ lit " failed: "
                               ++ dec (res_status r) ++ lit " " ++ res_text r))
       end.
Proof.
  unfold request, bind, net_fetch.
  destruct (network R w (mkCall at_ m u (bearer token) b)) as [w1 [|r]] eqn:E.
  - exists w1, Rejected. repeat split; reflexivity.
  - exists w1, (Replied r). split; [reflexivity|].
    destruct (res_ok r); simpl.
    + unfold json_of. destruct (res_json r); repeat split; reflexivity.
    + repeat split; reflexivity.
Qed.

(** The probe never fails: it yields the probed SHA, or a falsy value. *)
Lemma probe_run token putURL newBranch (w : World R) :
  exists w1 n v,
    probe (ghClient token) putURL newBranch w
    = (Done v, w1, [(mkCall Probe GET (putURL ++ lit "?ref=" ++ newBranch)
                       (bearer token) None, n)])
    /\ match probed_sha n with
       | Some sha => v = sha /\ truthy v = true
       | None => truthy v = false
       end.
Proof.
  unfold probe, ghGet, ghClient.
  destruct (request_run token Probe GET (putURL ++ lit "?ref=" ++ newBranch) None w)
    as (w1 & n & _ & Ht & Hw & Ho).
  unfold catch, bind.
  destruct (request token Probe GET (putURL ++ lit "?ref=" ++ newBranch) None w)
    as [[o w1'] t] eqn:E.
  simpl in Ht, Hw, Ho. subst t w1' o.
  exists w1, n.
  destruct n as [|r]; simpl.
  - exists VNull. split; reflexivity.
  - destruct (res_ok r); [|exists VNull; split; reflexivity].
    destruct (res_json r) as [existing|]; [|exists VNull; split; reflexivity].
    destruct (get existing (lit "sha")) as [e|sha] eqn:Hsha; simpl.
    + exists VNull. split; reflexivity.
    + exists sha. split; [reflexivity|].
      destruct (truthy sha) eqn:?; auto.
Qed.

Lemma write_payload_sha c fpath encoded newBranch v :
  body c = Some (write_payload fpath encoded newBranch v) ->
  payload_sha c = if truthy v then Some v else None.
Proof.
  intros Hb. unfold payload_sha. rewrite Hb. unfold write_payload.
  destruct (truthy v); reflexivity.
Qed.

Lemma update_entry_status fpath v commit :
  recorded_status (update_entry fpath v commit)
  = VStr (if truthy v then lit "updated" else lit "created").
Proof. reflexivity. Qed.

End CreateOrUpdate.

Section WritesAfterProbes.
Import Harmonizer Spec.
Context {R : Runtime}.
Local Notation emits := (emits (R:=R)).

(** Processing one proposed change: no call at all, or the probe followed by
    the write that carries the probed SHA. *)
Lemma commit_file_trace token owner repo newBranch file acc (w : World R) :
  let run := commit_file (ghClient token) owner repo newBranch file acc w in
  snd run = [] \/
  exists probe_call probe_reply write_call write_reply,
    snd run = [(probe_call, probe_reply); (write_call, write_reply)]
    /\ site probe_call = Probe
    /\ site write_call = PutFile
    /\ payload_sha write_call = probed_sha probe_reply
    /\ forall acc',
         fst (fst run) = Done acc' ->
         exists entry,
           acc' = acc ++ [entry]
           /\ recorded_status entry = status_for (probed_sha probe_reply).
Proof.
  intros run. subst run.
  destruct (commit_file (ghClient token) owner repo
              newBranch file acc w)
    as [[o w'] t] eqn:Hrun.
  cbn [fst snd]. unfold commit_file in Hrun.
  rewrite run_bind_lift in Hrun.
  destruct (get file (lit "content")) as [e|content];
    [left; congruence|].
  rewrite run_bind_lift in Hrun.
  destruct (base64encode (toStr content)) as [e|encoded];
    [left; congruence|].
  rewrite run_bind_lift in Hrun.
  destruct (get file (lit "path")) as [e|fpath];
    [left; congruence|].
  rewrite run_bind_lift in Hrun.
  destruct (contents_url owner repo fpath) as [e|putURL];
    [left; congruence|].
  right.
  destruct (probe_run token putURL newBranch w) as (w1 & pn & v & Hp & Hv).
  rewrite (run_bind_done _ _ _ _ _ _ Hp) in Hrun.
  unfold ghPut, ghClient in Hrun.
  destruct (request_run token PutFile PUT putURL
              (Some (write_payload fpath encoded newBranch v)) w1)
    as (w2 & wn & _ & Ht & Hw & _).
  unfold bind at 1 in Hrun.
  destruct (request token PutFile PUT putURL
              (Some (write_payload fpath encoded newBranch v)) w1)
    as [[o2 w2'] t2] eqn:E.
  simpl in Ht, Hw. subst t2 w2'.
  assert (Hsha : payload_sha
                   (mkCall PutFile PUT putURL (bearer token)
                      (Some (write_payload fpath encoded newBranch v)))
                 = probed_sha pn).
  { erewrite write_payload_sha; [|reflexivity].
    destruct (probed_sha pn) as [sha|].
    - destruct Hv as [-> ->]. reflexivity.
    - rewrite Hv. reflexivity. }
  assert (Hst : forall commit,
             recorded_status (update_entry fpath v commit)
             = status_for (probed_sha pn)).
  { intros commit. rewrite update_entry_status. unfold status_for.
    destruct (probed_sha pn) as [sha|].
    - destruct Hv as [_ ->]. reflexivity.
    - rewrite Hv. reflexivity. }
  exists (mkCall Probe GET (putURL ++ lit "?ref=" ++ newBranch)
            (bearer token) None), pn,
         (mkCall PutFile PUT putURL (bearer token)
            (Some (write_payload fpath encoded newBranch v))), wn.
  destruct o2 as [res|e|].
  - rewrite run_bind_lift in Hrun.
    destruct (get res (lit "commit")) as [e|commit]; simpl in Hrun;
      injection Hrun as <- <- <-.
    + repeat split; try exact Hsha. intros acc' Hacc. discriminate.
    + repeat split; try exact Hsha.
      intros acc' Hacc. injection Hacc as <-. eexists. split; [reflexivity|].
      apply Hst.
  - simpl in Hrun. injection Hrun as <- <- <-.
    repeat split; try exact Hsha. intros acc' Hacc. discriminate.
  - simpl in Hrun. injection Hrun as <- <- <-.
    repeat split; try exact Hsha. intros acc' Hacc. discriminate.
Qed.


(** A change whose content and path can be encoded is probed and then
    written, whatever the probe finds; the entry is recorded when the write
    succeeds, and only then. *)
Lemma commit_file_run token owner repo newBranch file acc (w : World R)
    content encoded fpath putURL :
  get file (lit "content") = inr content ->
  base64encode (toStr content) = inr encoded ->
  get file (lit "path") = inr fpath ->
  contents_url owner repo fpath = inr putURL ->
  let run := commit_file (ghClient token) owner repo newBranch file acc w in
  exists probe_call probe_reply write_call write_reply,
    snd run = [(probe_call, probe_reply); (write_call, write_reply)]
    /\ site probe_call = Probe /\ method probe_call = GET
    /\ url probe_call = putURL ++ lit "?ref=" ++ newBranch
    /\ site write_call = PutFile /\ method write_call = PUT
    /\ url write_call = putURL
    /\ payload_sha write_call = probed_sha probe_reply
    /\ (forall r res commit,
          write_reply = Replied r -> res_ok r = true ->
          res_json r = Some res -> get res (lit "commit") = inr commit ->
          exists entry,
            fst (fst run) = Done (acc ++ [entry])
            /\ get_opt entry (lit "path") = fpath
            /\ recorded_status entry = status_for (probed_sha probe_reply))
    /\ (replied_ok write_reply = false ->
        forall acc', fst (fst run) <> Done acc').
Proof.
  intros Hc He Hp Hu run. subst run.
  destruct (commit_file (ghClient token) owner repo newBranch file acc w)
    as [[o w'] t] eqn:Hrun.
  cbn [fst snd]. unfold commit_file in Hrun.
  rewrite run_bind_lift, Hc, run_bind_lift, He, run_bind_lift, Hp,
    run_bind_lift, Hu in Hrun.
  destruct (probe_run token putURL newBranch w) as (w1 & pn & v & Hpr & Hv).
  rewrite (run_bind_done _ _ _ _ _ _ Hpr) in Hrun.
  unfold ghPut, ghClient in Hrun.
  destruct (request_run token PutFile PUT putURL
              (Some (write_payload fpath encoded newBranch v)) w1)
    as (w2 & wn & _ & Ht & Hw & Ho).
  unfold bind at 1 in Hrun.
  destruct (request token PutFile PUT putURL
              (Some (write_payload fpath encoded newBranch v)) w1)
    as [[o2 w2'] t2] eqn:E.
  cbn [fst snd] in Ht, Hw, Ho. subst t2 w2'.
  assert (Hsha : payload_sha
                   (mkCall PutFile PUT putURL (bearer token)
                      (Some (write_payload fpath encoded newBranch v)))
                 = probed_sha pn).
  { erewrite write_payload_sha; [|reflexivity].
    destruct (probed_sha pn) as [sha|].
    - destruct Hv as [-> ->]. reflexivity.
    - rewrite Hv. reflexivity. }
  assert (Hst : forall commit,
             recorded_status (update_entry fpath v commit)
             = status_for (probed_sha pn)).
  { intros commit. rewrite update_entry_status. unfold status_for.
    destruct (probed_sha pn) as [sha|].
    - destruct Hv as [_ ->]. reflexivity.
    - rewrite Hv. reflexivity. }
  exists (mkCall Probe GET (putURL ++ lit "?ref=" ++ newBranch)
            (bearer token) None), pn,
         (mkCall PutFile PUT putURL (bearer token)
            (Some (write_payload fpath encoded newBranch v))), wn.
  assert (Htrace : t = [(mkCall Probe GET (putURL ++ lit "?ref=" ++ newBranch)
                           (bearer token) None, pn);
                        (mkCall PutFile PUT putURL (bearer token)
                           (Some (write_payload fpath encoded newBranch v)), wn)]).
  { destruct o2 as [res|e|].
    - rewrite run_bind_lift in Hrun.
      destruct (get res (lit "commit")); cbn in Hrun; injection Hrun as _ _ <-;
        reflexivity.
    - cbn in Hrun. injection Hrun as _ _ <-. reflexivity.
    - cbn in Hrun. injection Hrun as _ _ <-. reflexivity. }
  split; [exact Htrace|]. do 6 (split; [reflexivity|]).
  split; [exact Hsha|]. split.
  - intros r res commit -> Hok Hj Hcm. rewrite Hok, Hj in Ho. subst o2.
    rewrite run_bind_lift, Hcm in Hrun. cbn in Hrun. injection Hrun as <- _ _.
    eexists. split; [reflexivity|]. split; [reflexivity|apply Hst].
  - intros Hfail acc' Hacc. subst o.
    destruct wn as [|r]; cbn in Hfail.
    + subst o2. cbn in Hrun. discriminate.
    + rewrite Hfail in Ho. subst o2. cbn in Hrun. discriminate.
Qed.

Lemma probed_writes_nil : probed_writes [].
Proof. intros last. exact I. Qed.

Lemma writes_follow_probes_app t1 t2 : forall last,
  writes_follow_probes last t1 -> probed_writes t2 ->
  writes_follow_probes last (t1 ++ t2).
Proof.
  induction t1 as [|e t1 IH]; intros last H1 H2.
  - apply H2.
  - cbn [app writes_follow_probes] in *. destruct H1 as [He Hr].
    split; [exact He|]. now apply IH.
Qed.

Lemma probed_writes_app t1 t2 :
  probed_writes t1 -> probed_writes t2 -> probed_writes (t1 ++ t2).
Proof. intros H1 H2 last. apply writes_follow_probes_app; auto. Qed.

Lemma probed_writes_single c n : site c <> PutFile -> probed_writes [(c, n)].
Proof. intros Hc last. cbn. split; [intros H; contradiction|exact I]. Qed.

Lemma commit_file_probed token owner repo newBranch file acc :
  emits probed_writes (commit_file (ghClient token) owner repo newBranch file acc).
Proof.
  intros w.
  destruct (commit_file_trace token owner repo newBranch file acc w)
    as [->|(pc & pn & wc & wn & -> & Hp & Hw & Hsha & _)].
  - apply probed_writes_nil.
  - intros last. cbn. unfold is_probe. rewrite Hp. repeat split.
    + intros H. congruence.
    + intros _. exists pn. split; [reflexivity|exact Hsha].
Qed.

Ltac probed_step :=
  first
    [ apply emits_ret; exact probed_writes_nil
    | apply emits_throw; exact probed_writes_nil
    | apply emits_diverge; exact probed_writes_nil
    | apply emits_lift; exact probed_writes_nil
    | apply emits_now; exact probed_writes_nil
    | apply emits_json_of; exact probed_writes_nil
    | apply emits_net_fetch; intros ?; apply probed_writes_single; discriminate
    | apply emits_bind; [exact probed_writes_app| |intros ?]
    | apply emits_catch; [exact probed_writes_app| |intros ?]
    | apply emits_for_of; [exact probed_writes_nil|exact probed_writes_app|intros ? ?]
    | match goal with
      | |- Spec.emits _ (if ?c then _ else _) => destruct c
      | |- Spec.emits _ (match ?x with _ => _ end) => destruct x
      end ].

Lemma pushFile_probed owner repo branch path token out :
  emits probed_writes (pushFile owner repo branch path token out).
Proof. unfold pushFile. repeat probed_step. Qed.

Lemma crawlGitHubDir_probed fuel : forall owner repo branch path token out,
  emits probed_writes (crawlGitHubDir fuel owner repo branch path token out).
Proof.
  induction fuel as [|fuel IH]; intros; simpl.
  - apply emits_diverge. exact probed_writes_nil.
  - repeat first [ apply IH | apply pushFile_probed | probed_step ].
Qed.

Lemma fetch_probed fuel req env : emits probed_writes (fetch fuel req env).
Proof.
  unfold fetch, harmonize, collect, callOpenAIHarmonizer, apply_changes,
    ghGet, ghPost.
  repeat first [ apply crawlGitHubDir_probed
               | apply commit_file_probed
               | progress unfold ghClient at 1, request
               | probed_step ].
Qed.

(** Read from the start of a run, such a trace has every write right after
    its probe. *)
Lemma writes_follow_probes_split t1 : forall last e t2,
  writes_follow_probes last (t1 ++ e :: t2) -> site (fst e) = PutFile ->
  (t1 = [] /\ exists pn, last = Some pn /\ payload_sha (fst e) = probed_sha pn)
  \/ (exists t0 p, t1 = t0 ++ [p] /\ site (fst p) = Probe
                   /\ payload_sha (fst e) = probed_sha (snd p)).
Proof.
  induction t1 as [|x t1 IH]; intros last e t2 H He.
  - left. split; [reflexivity|]. cbn in H. exact (proj1 H He).
  - right. cbn [app writes_follow_probes] in H. destruct H as [_ Hr].
    destruct (IH _ e t2 Hr He) as [[-> (pn & Hl & Hsha)]|(t0 & p & -> & Hp & Hsha)].
    + exists [], x. unfold is_probe in Hl.
      destruct (site (fst x)) eqn:Hx; try discriminate.
      injection Hl as <-. repeat split; auto.
    + exists (x :: t0), p. repeat split; auto.
Qed.

Lemma probed_write_after_probe t : probed_writes t -> write_after_probe t.
Proof.
  intros H t1 e t2 -> He.
  destruct (writes_follow_probes_split t1 None e t2 (H None) He)
    as [[_ (pn & Hl & _)]|Hr]; [discriminate|exact Hr].
Qed.

End WritesAfterProbes.

(** C2 (create versus update): a proposed change whose content and path can
    be encoded is processed by the branch-scoped existence probe of its path
    followed by the write of that path, whatever the probe finds.  The [sha]
    field of the write payload is exactly the blob SHA the probe yielded:
    present when the probe succeeded with a SHA, absent when the probe
    failed or yielded none (a failed probe is no error).  When the write
    succeeds, the entry recorded for the path has status [updated] in the
    first case and [created] in the second; when the write fails, nothing
    is recorded.  In a whole run of the handler, every file write comes
    right after such a probe and carries the SHA it yielded. *)
Theorem write_follows_probe :
  forall (R : Runtime),
    (forall (token owner repo : value) (newBranch : jstr)
            (file : value) (acc : list value) (w : World R)
            (content : value) (encoded : jstr) (fpath : value) (putURL : jstr),
        get file (lit "content") = inr content ->
        base64encode (toStr content) = inr encoded ->
        get file (lit "path") = inr fpath ->
        Harmonizer.contents_url owner repo fpath = inr putURL ->
        let run := Harmonizer.commit_file (Harmonizer.ghClient token) owner repo
                     newBranch file acc w in
        exists probe_call probe_reply write_call write_reply,
          snd run = [(probe_call, probe_reply); (write_call, write_reply)]
          /\ site probe_call = Probe /\ method probe_call = GET
          /\ url probe_call = putURL ++ lit "?ref=" ++ newBranch
          /\ site write_call = PutFile /\ method write_call = PUT
          /\ url write_call = putURL
          /\ Spec.payload_sha write_call = Spec.probed_sha probe_reply
          /\ (forall r res commit,
                write_reply = Replied r -> res_ok r = true ->
                res_json r = Some res -> get res (lit "commit") = inr commit ->
                exists entry,
                  fst (fst run) = Done (acc ++ [entry])
                  /\ get_opt entry (lit "path") = fpath
                  /\ Spec.recorded_status entry
                     = Spec.status_for (Spec.probed_sha probe_reply))
          /\ (Spec.replied_ok write_reply = false ->
              forall acc', fst (fst run) <> Done acc'))
    /\ (forall (fuel : nat) (req : Harmonizer.Request) (env : Harmonizer.Env)
               (w : World R),
          Spec.write_after_probe (snd (Harmonizer.fetch fuel req env w))).
Proof.
  intros R. split.
  - intros token owner repo newBranch file acc w content encoded fpath putURL.
    apply commit_file_run.
  - intros. apply probed_write_after_probe. apply (fetch_probed fuel req env w).
Qed.

(** The two cases on the end-to-end scenario: [src/a.txt] exists on the new
    branch with blob [blob1], and it does not exist there. *)
Lemma write_follows_probe_witness :
  (exists probe_call write_call write_reply entry,
     snd Cases.commit_run
     = [(probe_call, Mock.ok_json Mock.blob); (write_call, write_reply)]
     /\ Spec.payload_sha write_call = Some (VStr (lit "blob1"))
     /\ fst (fst Cases.commit_run) = Done [entry]
     /\ Spec.recorded_status entry = VStr (lit "updated"))
  /\ (exists probe_call write_call write_reply entry,
        snd Cases.create_run
        = [(probe_call, Mock.not_found); (write_call, write_reply)]
        /\ Spec.payload_sha write_call = None
        /\ fst (fst Cases.create_run) = Done [entry]
        /\ Spec.recorded_status entry = VStr (lit "created")).
Proof.
  split.
  - destruct (proj1 (write_follows_probe Mock.e2e_runtime)
                (Mock.str "ghp_token") (Mock.str "acme") (Mock.str "site")
                (lit "asa-harmonizer-1") Cases.change []
                [Mock.ok_json Mock.blob; Mock.ok_json Mock.written]
                (Mock.str "new") (lit "bmV3") Mock.a_txt
                (lit "https://api.github.com/repos/acme/site/contents/src%2Fa.txt")
                eq_refl eq_refl eq_refl eq_refl)
      as (pc & pn & wc & wn & Ht & _ & _ & _ & _ & _ & _ & Hsha & Hdone & _).
    fold Cases.commit_run in Ht, Hdone.
    assert (Hpn : pn = Mock.ok_json Mock.blob).
    { exact (f_equal (fun t => snd (hd (pc, pn) t)) (eq_sym Ht)). }
    assert (Hwn : wn = Mock.ok_json Mock.written).
    { exact (f_equal (fun t => snd (last t (pc, pn))) (eq_sym Ht)). }
    subst pn wn.
    destruct (Hdone _ _ _ eq_refl eq_refl eq_refl eq_refl) as (entry & Ho & _ & Hs).
    exists pc, wc, (Mock.ok_json Mock.written), entry.
    split; [exact Ht|]. split; [exact Hsha|]. split; [exact Ho|exact Hs].
  - destruct (proj1 (write_follows_probe Mock.e2e_runtime)
                (Mock.str "ghp_token") (Mock.str "acme") (Mock.str "site")
                (lit "asa-harmonizer-1") Cases.change []
                [Mock.not_found; Mock.ok_json Mock.written]
                (Mock.str "new") (lit "bmV3") Mock.a_txt
                (lit "https://api.github.com/repos/acme/site/contents/src%2Fa.txt")
                eq_refl eq_refl eq_refl eq_refl)
      as (pc & pn & wc & wn & Ht & _ & _ & _ & _ & _ & _ & Hsha & Hdone & _).
    fold Cases.create_run in Ht, Hdone.
    assert (Hpn : pn = Mock.not_found).
    { exact (f_equal (fun t => snd (hd (pc, pn) t)) (eq_sym Ht)). }
    assert (Hwn : wn = Mock.ok_json Mock.written).
    { exact (f_equal (fun t => snd (last t (pc, pn))) (eq_sym Ht)). }
    subst pn wn.
    destruct (Hdone _ _ _ eq_refl eq_refl eq_refl eq_refl) as (entry & Ho & _ & Hs).
    exists pc, wc, (Mock.ok_json Mock.written), entry.
    split; [exact Ht|]. split; [exact Hsha|]. split; [exact Ho|exact Hs].
Defined.

(** ** The order of the remote calls *)

Section Automaton.
Import Spec.

Lemma runs_app s t1 t2 :
  runs s (t1 ++ t2) = match runs s t1 with
                      | Some s1 => runs s1 t2
                      | None => None
                      end.
Proof.
  revert s. induction t1 as [|e t1 IH]; intros s; simpl.
  - reflexivity.
  - destruct (step s e); [apply IH|reflexivity].
Qed.

Lemma runs_halted t s : runs Halted t = Some s -> t = [].
Proof. destruct t as [|e t]; [reflexivity|]. simpl. discriminate. Qed.

Lemma writes_ok_snoc t e :
  writes_ok t -> (site (fst e) = PutFile -> replied_ok (snd e) = true) ->
  writes_ok (t ++ [e]).
Proof.
  intros Hw He x Hx Hput. apply in_app_or in Hx.
  destruct Hx as [Hx|[<-|[]]]; auto.
Qed.

Lemma stands_step s e s1 t :
  stands s t -> step s e = Some s1 -> stands s1 (t ++ [e]).
Proof.
  intros Hs He. unfold step in He.
  destruct s, (site (fst e)) eqn:Hsite; try discriminate;
    injection He as <-; simpl in *;
    try (apply writes_ok_snoc; [assumption|congruence]).
  - destruct (replied_ok (snd e)) eqn:Hok; simpl; auto. split.
    + exists e. split; [apply in_or_app; right; left; reflexivity|auto].
    + apply writes_ok_snoc; [assumption|congruence].
  - destruct (replied_ok (snd e)) eqn:Hok; simpl; auto.
    destruct Hs as [Hb Hw]. split.
    + exists e. split; [apply in_or_app; right; left; reflexivity|auto].
    + apply writes_ok_snoc; [assumption|congruence].
  - destruct Hs as [(x & Hx & Hsx & Hok) Hw]. split.
    + exists x. split; [apply in_or_app; auto|auto].
    + apply writes_ok_snoc; [assumption|congruence].
  - destruct (replied_ok (snd e)) eqn:Hok; simpl; auto.
    destruct Hs as [(x & Hx & Hsx & Hokx) Hw]. split.
    + exists x. split; [apply in_or_app; auto|auto].
    + apply writes_ok_snoc; [assumption|auto].
  - exact I.
Qed.

Lemma runs_stands t : forall s t0 s',
  stands s t0 -> runs s t = Some s' -> stands s' (t0 ++ t).
Proof.
  induction t as [|e t IH]; intros s t0 s' Hs Hr; simpl in Hr.
  - injection Hr as <-. now rewrite app_nil_r.
  - destruct (step s e) as [s1|] eqn:He; [|discriminate].
    replace (t0 ++ e :: t) with ((t0 ++ [e]) ++ t)
      by (rewrite <- app_assoc; reflexivity).
    eapply IH; [|exact Hr]. eapply stands_step; eauto.
Qed.

Lemma runs_split t1 e t2 s' :
  runs Reading (t1 ++ e :: t2) = Some s' ->
  exists s1 s2,
    runs Reading t1 = Some s1 /\ stands s1 t1
    /\ step s1 e = Some s2 /\ runs s2 t2 = Some s'.
Proof.
  rewrite runs_app. destruct (runs Reading t1) as [s1|] eqn:H1; [|discriminate].
  simpl. destruct (step s1 e) as [s2|] eqn:He; [|discriminate].
  intros H2. exists s1, s2. repeat split; auto.
  apply (runs_stands t1 Reading [] s1); [|exact H1].
  intros x [].
Qed.

(** A trace that keeps to the automaton is in apply order. *)
Lemma runs_apply_order t : runs Reading t <> None -> apply_order t.
Proof.
  intros Hr. destruct (runs Reading t) as [s'|] eqn:Ht; [clear Hr|congruence].
  repeat split.
  - intros t1 e t2 -> Hsite.
    destruct (runs_split _ _ _ _ Ht) as (s1 & s2 & _ & Hst & He & _).
    unfold step in He. rewrite Hsite in He.
    destruct s1; try discriminate. exact (proj1 Hst).
  - intros t1 e t2 -> Hsite.
    destruct (runs_split _ _ _ _ Ht) as (s1 & s2 & _ & Hst & He & _).
    unfold step in He. rewrite Hsite in He.
    destruct s1; try discriminate. exact (proj1 Hst).
  - destruct (runs_split _ _ _ _ (eq_trans (f_equal (runs Reading) (eq_sym H)) Ht))
      as (s1 & s2 & _ & Hst & He & _).
    unfold step in He. rewrite H0 in He.
    destruct s1; try discriminate. exact (proj1 Hst).
  - subst t.
    destruct (runs_split _ _ _ _ Ht) as (s1 & s2 & _ & Hst & He & _).
    unfold step in He. rewrite H0 in He.
    destruct s1; try discriminate. exact (proj2 Hst).
  - subst t.
    destruct (runs_split _ _ _ _ Ht) as (s1 & s2 & _ & Hst & He & H2).
    unfold step in He. rewrite H0 in He.
    destruct s1; try discriminate. injection He as <-.
    apply runs_halted in H2. subst t2. intros x [].
  - intros t1 e t2 -> Hstep Hfail.
    destruct (runs_split _ _ _ _ Ht) as (s1 & s2 & _ & Hst & He & H2).
    unfold step in He. rewrite Hfail in He.
    destruct s1, (site (fst e)); try discriminate; injection He as <-;
      try (now apply runs_halted in H2).
Qed.

End Automaton.

Section Sequencing.
Import Spec.
Context {R : Runtime}.
Local Notation M := (M (R:=R)).
Local Notation accepts := (accepts (R:=R)).
Local Notation keeps := (keeps (R:=R)).

Lemma accepts_keeps {A} s (m : M A) s' : accepts s m s' -> keeps s m.
Proof.
  intros H. eapply sat_weaken; [exact H|].
  intros [a|e|] t Ht; simpl in Ht; congruence.
Qed.

Lemma accepts_ret {A} s (a : A) : accepts s (ret a) s.
Proof. apply sat_ret. reflexivity. Qed.

Lemma accepts_throw {A} s e s' : accepts s (throw (A:=A) e) s'.
Proof. apply sat_throw. simpl. discriminate. Qed.

Lemma accepts_lift {A} s (p : partial A) : accepts s (lift p) s.
Proof. apply sat_lift; intros; simpl; congruence. Qed.

Lemma accepts_now s : accepts s now s.
Proof. apply sat_now. reflexivity. Qed.

Lemma accepts_now_iso s : accepts s now_iso s.
Proof. apply sat_now_iso. reflexivity. Qed.

Lemma accepts_json_of s r : accepts s (json_of r) s.
Proof. apply sat_json_of; intros; simpl; congruence. Qed.

Lemma accepts_bind {A B} s s1 s2 (m : M A) (k : A -> M B) :
  accepts s m s1 -> (forall a, accepts s1 (k a) s2) -> accepts s (bind m k) s2.
Proof.
  intros Hm Hk. eapply sat_bind.
  - exact Hm.
  - intros a t1 H1. simpl in H1. eapply sat_weaken; [apply Hk|].
    intros o t H2. rewrite runs_app, H1. exact H2.
  - intros e t1 H1. exact H1.
  - intros t1 H1. exact H1.
Qed.

Lemma keeps_bind {A B} s s1 (m : M A) (k : A -> M B) :
  accepts s m s1 -> (forall a, keeps s1 (k a)) -> keeps s (bind m k).
Proof.
  intros Hm Hk. eapply sat_bind.
  - exact Hm.
  - intros a t1 H1. simpl in H1. eapply sat_weaken; [apply Hk|].
    intros o t H2. rewrite runs_app, H1. exact H2.
  - intros e t1 H1. exact H1.
  - intros t1 H1. exact H1.
Qed.

Lemma keeps_catch_ret {A} s (m : M A) (h : exn -> A) :
  keeps s m -> keeps s (catch m (fun e => ret (h e))).
Proof.
  intros Hm. eapply sat_catch.
  - exact Hm.
  - auto.
  - intros e t1 H1. apply sat_ret. now rewrite app_nil_r.
  - auto.
Qed.

Lemma accepts_for_of {A S} s (body : A -> S -> M S) l acc :
  (forall x acc', accepts s (body x acc') s) -> accepts s (for_of body l acc) s.
Proof.
  intros Hb. revert acc. induction l as [|x l IH]; intros acc; simpl.
  - apply accepts_ret.
  - eapply accepts_bind; [apply Hb|apply IH].
Qed.

(** Reads leave the run in the reading phase. *)
Lemma runs_reading t :
  calls_in (at_sites reading_site) t -> runs Reading t = Some Reading.
Proof.
  induction 1 as [|[c n] t Hc _ IH]; simpl; [reflexivity|].
  unfold step. simpl in *. unfold at_sites, reading_site, collector_site, model_site in Hc.
  destruct (site c); simpl in Hc; try discriminate; exact IH.
Qed.

Lemma accepts_reading {A} (m : M A) :
  only (at_sites reading_site) m -> accepts Reading m Reading.
Proof.
  intros H. eapply sat_weaken; [exact H|].
  intros o t Ht. rewrite (runs_reading t Ht). destruct o; congruence.
Qed.

(** A request through the GitHub client completes only on a successful
    reply. *)
Lemma accepts_request token at_ m u b s s1 :
  (forall e, site (fst e) = at_ ->
     step s e = Some (if replied_ok (snd e) then s1 else Halted)) ->
  accepts s (Harmonizer.request token at_ m u b) s1.
Proof.
  intros Hstep w.
  destruct (request_run token at_ m u b w) as (w1 & n & _ & Ht & _ & Ho).
  rewrite Ht, Ho. simpl.
  rewrite (Hstep (mkCall at_ m u (Harmonizer.bearer token) b, n) eq_refl). simpl.
  destruct n as [|r]; simpl; [discriminate|].
  destruct (res_ok r); [|discriminate].
  destruct (res_json r); [reflexivity|discriminate].
Qed.

Lemma accepts_probe token putURL newBranch :
  accepts Writing (Harmonizer.probe (Harmonizer.ghClient token) putURL newBranch) Writing.
Proof.
  intros w.
  destruct (probe_run token putURL newBranch w) as (w1 & n & v & Hp & _).
  rewrite Hp. reflexivity.
Qed.

Lemma accepts_commit_file token owner repo newBranch file acc :
  accepts Writing
    (Harmonizer.commit_file (Harmonizer.ghClient token) owner repo newBranch file acc)
    Writing.
Proof.
  unfold Harmonizer.commit_file.
  repeat (eapply accepts_bind; [apply accepts_lift|intros ?]).
  eapply accepts_bind; [apply accepts_probe|intros existingSha].
  eapply accepts_bind.
  - apply accepts_request. intros e He. unfold step. rewrite He. reflexivity.
  - intros res. eapply accepts_bind; [apply accepts_lift|intros ?].
    apply accepts_ret.
Qed.

Lemma accepts_apply_changes env p hr :
  accepts Reading (Harmonizer.apply_changes env p hr) Halted.
Proof.
  unfold Harmonizer.apply_changes, Harmonizer.ghGet, Harmonizer.ghPost.
  cbv zeta. unfold Harmonizer.ghClient at 1 2 4.
  eapply accepts_bind.
  { apply accepts_request. intros e He. unfold step. rewrite He. reflexivity. }
  intros baseRef.
  repeat (eapply accepts_bind; [apply accepts_lift|intros ?]).
  eapply accepts_bind; [apply accepts_now|intros t].
  eapply accepts_bind.
  { apply accepts_request. intros e He. unfold step. rewrite He. reflexivity. }
  intros _.
  repeat (eapply accepts_bind; [apply accepts_lift|intros ?]).
  eapply accepts_bind.
  { apply accepts_for_of. intros. apply accepts_commit_file. }
  intros updateResults.
  eapply accepts_bind; [apply accepts_lift|intros ?].
  eapply accepts_bind.
  { apply (accepts_request _ _ _ _ _ Writing Halted).
    intros e He. unfold step. rewrite He.
    destruct (replied_ok (snd e)); reflexivity. }
  intros pr.
  repeat (eapply accepts_bind; [apply accepts_lift|intros ?]).
  apply accepts_ret.
Qed.

Lemma keeps_harmonize fuel env b : keeps Reading (Harmonizer.harmonize fuel env b).
Proof.
  unfold Harmonizer.harmonize.
  eapply keeps_bind; [apply accepts_lift|intros p].
  eapply keeps_bind; [apply accepts_lift|intros _].
  eapply keeps_bind.
  { apply accepts_reading. eapply only_sub; [apply collector_reading|apply collect_only]. }
  intros collected. destruct collected as [|f fs].
  { eapply accepts_keeps, accepts_ret. }
  eapply keeps_bind.
  { apply accepts_reading.
    eapply only_sub; [apply model_reading|apply callOpenAIHarmonizer_only]. }
  intros hr.
  eapply keeps_bind; [apply accepts_lift|intros files].
  destruct (negb (truthy (get_opt files length_key))).
  { eapply accepts_keeps, accepts_ret. }
  destruct (negb (truthy (Harmonizer.apply p))).
  - eapply keeps_bind; [apply accepts_lift|intros summary].
    eapply accepts_keeps, accepts_ret.
  - eapply accepts_keeps, accepts_apply_changes.
Qed.

Lemma keeps_fetch fuel req env : keeps Reading (Harmonizer.fetch fuel req env).
Proof.
  unfold Harmonizer.fetch.
  destruct (jstr_eqb _ _); [eapply accepts_keeps, accepts_ret|].
  destruct (negb _); [eapply accepts_keeps, accepts_ret|].
  destruct (negb _); [eapply accepts_keeps, accepts_ret|].
  apply keeps_catch_ret.
  eapply keeps_bind.
  - destruct (Harmonizer.req_json req); [apply accepts_ret|apply accepts_throw].
  - intros b. apply keeps_harmonize.
Qed.

(** The code-harmonizer worker checks each response itself. *)
Lemma keeps_fetch_guard {A} c s s1 (x : Reply -> A) (rest : Reply -> M A) :
  (forall n, step s (c, n) = Some (if replied_ok n then s1 else Halted)) ->
  (forall r, keeps s1 (rest r)) ->
  keeps s (bind (net_fetch c)
             (fun r => if negb (res_ok r) then ret (x r) else rest r)).
Proof.
  intros Hstep Hrest. eapply sat_bind.
  - apply (sat_net_fetch c (fun o t =>
             match o with
             | Done r => t = [(c, Replied r)]
             | _ => t = [(c, Rejected)]
             end)); auto.
  - intros r t1 ->. destruct (res_ok r) eqn:Hok; simpl.
    + eapply sat_weaken; [apply Hrest|].
      intros o t Ht. simpl. rewrite Hstep. simpl. rewrite Hok. exact Ht.
    + apply sat_ret. simpl. rewrite Hstep. simpl. rewrite Hok. discriminate.
  - intros e t1 ->. simpl. rewrite Hstep. discriminate.
  - intros t1 ->. simpl. rewrite Hstep. discriminate.
Qed.

Lemma keeps_code_harmonize env b : keeps Reading (CodeHarmonizer.harmonize env b).
Proof.
  unfold CodeHarmonizer.harmonize.
  repeat (eapply keeps_bind; [apply accepts_lift|intros ?]).
  destruct (_ || _); [eapply accepts_keeps, accepts_ret|].
  apply keeps_fetch_guard with (s1 := Based); [reflexivity|intros baseRefResp].
  eapply keeps_bind; [apply accepts_json_of|intros baseRef].
  repeat (eapply keeps_bind; [apply accepts_lift|intros ?]).
  eapply keeps_bind; [apply accepts_now|intros t].
  apply keeps_fetch_guard with (s1 := Writing); [reflexivity|intros createRefResp].
  eapply keeps_bind; [apply accepts_now|intros t'].
  eapply keeps_bind; [apply accepts_now_iso|intros iso].
  repeat (eapply keeps_bind; [apply accepts_lift|intros ?]).
  apply keeps_fetch_guard with (s1 := Writing); [reflexivity|intros putFileResp].
  apply keeps_fetch_guard with (s1 := Halted).
  { intros n. unfold step. simpl. destruct (replied_ok n); reflexivity. }
  intros prResp.
  eapply keeps_bind; [apply accepts_json_of|intros prJson].
  repeat (eapply keeps_bind; [apply accepts_lift|intros ?]).
  eapply accepts_keeps, accepts_ret.
Qed.

Lemma keeps_code_fetch request env : keeps Reading (CodeHarmonizer.fetch request env).
Proof.
  unfold CodeHarmonizer.fetch.
  destruct (jstr_eqb _ _); [eapply accepts_keeps, accepts_ret|].
  destruct (_ && _).
  - apply keeps_catch_ret. apply keeps_code_harmonize.
  - destruct (_ && _); eapply accepts_keeps, accepts_ret.
Qed.

End Sequencing.

(** C5 (ordering): in every run of either worker, whatever the request and
    whatever the remote side answers, the base-branch reference lookup comes
    before the branch creation, the branch creation before every file write,
    and every file write before the pull-request creation; each of these
    steps is taken only after the previous one succeeded, and nothing
    follows a step that failed. *)
Theorem apply_calls_are_ordered :
  forall (R : Runtime),
    (forall (fuel : nat) (req : Harmonizer.Request) (env : Harmonizer.Env)
            (w : World R),
        Spec.apply_order (snd (Harmonizer.fetch fuel req env w)))
    /\ (forall (request : CodeHarmonizer.Request) (env : CodeHarmonizer.Env)
               (w : World R),
        Spec.apply_order (snd (CodeHarmonizer.fetch request env w))).
Proof.
  intros R. split; intros.
  - apply runs_apply_order. apply (keeps_fetch fuel req env w).
  - apply runs_apply_order. apply (keeps_code_fetch request env w).
Qed.

(** ** The collector *)

Section Collector.
Import Harmonizer Spec.
Context {R : Runtime}.
Variables owner repo branch token : value.
Local Notation skipped := (skipped (R:=R)).
Local Notation eligible := (eligible (R:=R)).
Local Notation oversized := (oversized (R:=R)).
Local Notation harvest := (harvest (R:=R)).
Local Notation served := (served (R:=R) owner repo branch token).

Lemma pushFile_skipped path out (w w1 : World R) u a :
  contents_url owner repo path = inr u ->
  network R w (contents_call PushFetch u branch token) = (w1, a) ->
  skipped a ->
  pushFile owner repo branch path token out w
  = (Done out, w1, [(contents_call PushFetch u branch token, a)]).
Proof.
  intros Hu Hn Hs. unfold pushFile.
  rewrite run_bind_lift, Hu. unfold bind at 1, net_fetch.
  fold (contents_call PushFetch u branch token). rewrite Hn.
  destruct Hs as [r -> Hok | r meta content -> Hok Hj Hc Ht
                 | r meta content size -> Hok Hj Hc Ht Hsz Hgt];
    rewrite Hok; simpl.
  - reflexivity.
  - unfold json_of. rewrite Hj, run_bind_ret, run_bind_lift, Hc, Ht. reflexivity.
  - unfold json_of.
    rewrite Hj, run_bind_ret, run_bind_lift, Hc, Ht. cbn [negb].
    rewrite run_bind_lift, Hsz, Hgt. reflexivity.
Qed.

Lemma pushFile_eligible path out (w w1 : World R) u a d :
  contents_url owner repo path = inr u ->
  network R w (contents_call PushFetch u branch token) = (w1, a) ->
  eligible a d ->
  pushFile owner repo branch path token out w
  = (Done (out ++ [entry_for path d]), w1,
     [(contents_call PushFetch u branch token, a)]).
Proof.
  intros Hu Hn (r & meta & content & size & -> & Hok & Hj & Hc & Ht & Hsz & Hgt & Hd).
  unfold pushFile.
  rewrite run_bind_lift, Hu. unfold bind at 1, net_fetch.
  fold (contents_call PushFetch u branch token). rewrite Hn, Hok. simpl.
  unfold json_of.
  rewrite Hj, run_bind_ret, run_bind_lift, Hc, Ht. cbn [negb].
  rewrite run_bind_lift, Hsz, Hgt, run_bind_lift, Hd. reflexivity.
Qed.

Lemma eligible_not_skipped a d : eligible a d -> skipped a -> False.
Proof.
  intros (r & meta & content & size & -> & Hok & Hj & Hc & Ht & Hsz & Hgt & Hd) Hs.
  destruct Hs as [r' E Hok' | r' meta' content' E Hok' Hj' Hc' Ht'
                 | r' meta' content' size' E Hok' Hj' Hc' Ht' Hsz' Hgt'];
    injection E as <-; congruence.
Qed.

Lemma eligible_not_oversized a d : eligible a d -> ~ oversized a.
Proof.
  intros (r & meta & content & size & -> & Hok & Hj & Hc & Ht & Hsz & Hgt & Hd)
         (r' & meta' & size' & E & Hj' & Hsz' & Hgt').
  injection E as <-. congruence.
Qed.

Lemma eligible_functional a d d' : eligible a d -> eligible a d' -> d = d'.
Proof.
  intros (r & meta & content & size & -> & Hok & Hj & Hc & Ht & Hsz & Hgt & Hd)
         (r' & meta' & content' & size' & E & _ & Hj' & Hc' & _ & _ & _ & Hd').
  injection E as <-. congruence.
Qed.

(** Sizes that are numbers: the comparison of the code is the comparison of
    the reported size with 120000. *)
Lemma unavailable_skipped a : unavailable a -> skipped a.
Proof.
  intros [r Ha Hok|r meta content Ha Hok Hj Hc Ht].
  - eapply fetch_failed; eauto.
  - eapply no_content; eauto.
Qed.

Lemma readable_small a n d : readable a n d -> n <= 120000 -> eligible a d.
Proof.
  intros (r & meta & content & Ha & Hok & Hj & Hc & Ht & Hsz & Hd) Hn.
  exists r, meta, content, (VNum n). repeat split; try assumption.
  unfold js_gt, to_number, size_threshold. apply Z.ltb_ge. exact Hn.
Qed.

Lemma readable_large a n d : readable a n d -> 120000 < n -> skipped a.
Proof.
  intros (r & meta & content & Ha & Hok & Hj & Hc & Ht & Hsz & Hd) Hn.
  eapply too_large; eauto.
  unfold js_gt, to_number, size_threshold. apply Z.ltb_lt. exact Hn.
Qed.

Lemma readable_functional a n d n' d' :
  readable a n d -> readable a n' d' -> n = n' /\ d = d'.
Proof.
  intros (r & meta & content & Ha & _ & Hj & Hc & _ & Hsz & Hd)
         (r' & meta' & content' & Ha' & _ & Hj' & Hc' & _ & Hsz' & Hd').
  subst a. injection Ha' as <-.
  rewrite Hj in Hj'. injection Hj' as <-.
  rewrite Hc in Hc'. injection Hc' as <-.
  rewrite Hsz in Hsz'. injection Hsz' as <-.
  rewrite Hd in Hd'. injection Hd' as <-. now split.
Qed.

Lemma eligible_readable a d n d' :
  eligible a d -> readable a n d' -> d = d' /\ n <= 120000.
Proof.
  intros (r & meta & content & size & Ha & _ & Hj & Hc & _ & Hsz & Hgt & Hd)
         (r' & meta' & content' & Ha' & _ & Hj' & Hc' & _ & Hsz' & Hd').
  subst a. injection Ha' as <-.
  rewrite Hj in Hj'. injection Hj' as <-.
  rewrite Hc in Hc'. injection Hc' as <-.
  rewrite Hsz in Hsz'. injection Hsz' as ->.
  rewrite Hd in Hd'. injection Hd' as <-. split; [reflexivity|].
  unfold js_gt, to_number, size_threshold in Hgt. now apply Z.ltb_ge.
Qed.

(** Every run of [pushFile] that completes either leaves the accumulator
    alone or appends the truncated text of an eligible file. *)
Lemma pushFile_inv path out (w : World R) out' :
  fst (fst (pushFile owner repo branch path token out w)) = Done out' ->
  out' = out \/
  exists c a decoded,
    snd (pushFile owner repo branch path token out w) = [(c, a)]
    /\ eligible a decoded
    /\ out' = out ++ [entry_for path decoded].
Proof.
  destruct (pushFile owner repo branch path token out w) as [[o w'] t] eqn:Hrun.
  cbn [fst snd]. intros ->.
  unfold pushFile in Hrun. rewrite run_bind_lift in Hrun.
  destruct (contents_url owner repo path) as [e|u]; [discriminate|].
  unfold bind at 1, net_fetch in Hrun.
  destruct (network R w _) as [w1 [|r]]; [discriminate|].
  destruct (res_ok r) eqn:Hok; cbn [negb] in Hrun;
    [|injection Hrun as <- <- <-; now left].
  unfold json_of in Hrun. destruct (res_json r) as [meta|] eqn:Hj;
    [rewrite run_bind_ret in Hrun|rewrite run_bind_throw in Hrun; discriminate].
  rewrite run_bind_lift in Hrun.
  destruct (get meta (lit "content")) as [e|content] eqn:Hc; [discriminate|].
  destruct (truthy content) eqn:Ht; cbn [negb] in Hrun;
    [|injection Hrun as <- <- <-; now left].
  rewrite run_bind_lift in Hrun.
  destruct (get meta (lit "size")) as [e|size] eqn:Hsz; [discriminate|].
  destruct (js_gt size size_threshold) eqn:Hgt;
    [injection Hrun as <- <- <-; now left|].
  rewrite run_bind_lift in Hrun.
  destruct (base64decode (toStr content)) as [e|decoded] eqn:Hd; [discriminate|].
  injection Hrun as <- <- <-. right.
  do 3 eexists. split; [reflexivity|]. split; [|reflexivity].
  exists r, meta, content, size. repeat split; assumption.
Qed.

Lemma harvest_app f1 l1 f2 l2 :
  harvest f1 l1 -> harvest f2 l2 -> harvest (f1 ++ f2) (l1 ++ l2).
Proof.
  induction 1; intros H2; simpl.
  - exact H2.
  - apply harvest_skip; auto.
  - apply harvest_take; auto.
Qed.

Lemma harvest_sound fs l :
  harvest fs l ->
  forall f, In f l ->
    exists q a d, In (q, a) fs /\ eligible a d /\ ~ oversized a /\ f = entry_for q d.
Proof.
  induction 1 as [|p a fs l Hs _ IH|p a d fs l He _ IH]; intros f Hf.
  - destruct Hf.
  - destruct (IH f Hf) as (q & a' & d & Hin & H').
    exists q, a', d. split; [now right|exact H'].
  - destruct Hf as [<-|Hf].
    + exists p, a, d. split; [now left|]. split; [exact He|].
      split; [eapply eligible_not_oversized; eauto|reflexivity].
    + destruct (IH f Hf) as (q & a' & d' & Hin & H').
      exists q, a', d'. split; [now right|exact H'].
Qed.

Lemma harvest_complete fs l :
  harvest fs l ->
  forall q a d, In (q, a) fs -> eligible a d -> In (entry_for q d) l.
Proof.
  induction 1 as [|p a fs l Hs _ IH|p a d fs l He _ IH]; intros q a' d' Hin He'.
  - destruct Hin.
  - destruct Hin as [[= <- <-]|Hin].
    + exfalso. eapply eligible_not_skipped; eauto.
    + eauto.
  - destruct Hin as [[= <- <-]|Hin].
    + left. f_equal. eapply eligible_functional; eauto.
    + right. eauto.
Qed.

Lemma item_is_file p more a :
  get (item_of (RFile p more a)) (lit "type") = inr (VStr (lit "file"))
  /\ get (item_of (RFile p more a)) (lit "path") = inr p.
Proof. split; reflexivity. Qed.

Lemma item_is_dir p more es :
  get (item_of (RDir p more es)) (lit "type") = inr (VStr (lit "dir"))
  /\ get (item_of (RDir p more es)) (lit "path") = inr p.
Proof. split; reflexivity. Qed.

Lemma served_dir p more es :
  served (RDir p more es) ->
  (exists u r, contents_url owner repo p = inr u
     /\ res_ok r = true
     /\ res_json r = Some (VArr (map item_of es))
     /\ forall w, snd (network R w (contents_call CrawlList u branch token)) = Replied r)
  /\ Forall served es.
Proof.
  simpl. intros [H Hall]. split; [exact H|]. clear H.
  induction es as [|e es IH]; constructor.
  - exact (proj1 Hall).
  - apply IH. exact (proj2 Hall).
Qed.

(** The traversal of a served tree terminates and harvests its files. *)
Lemma crawl_served fuel : forall p more es out (w : World R),
  served (RDir p more es) ->
  (depth (RDir p more es) <= fuel)%nat ->
  (forall q a, In (q, a) (files_of (RDir p more es)) ->
               skipped a \/ exists d, eligible a d) ->
  exists l w' evs,
    crawlGitHubDir fuel owner repo branch p token out w
    = (Done (out ++ l), w', evs)
    /\ harvest (files_of (RDir p more es)) l.
Proof.
  induction fuel as [|fuel IH]; intros p more es out w Hserved Hdepth Hread.
  - simpl in Hdepth. inversion Hdepth.
  - destruct (served_dir _ _ _ Hserved) as [(u & r & Hu & Hok & Hj & Hnet) Hall].
    cbn [crawlGitHubDir].
    rewrite run_bind_lift, Hu. unfold bind at 1, net_fetch.
    fold (contents_call CrawlList u branch token).
    specialize (Hnet w).
    destruct (network R w (contents_call CrawlList u branch token)) as [w1 n].
    simpl in Hnet. subst n. rewrite Hok. cbn [negb].
    unfold json_of. rewrite Hj, run_bind_ret.
    (* the loop over the entries *)
    assert (Hloop : forall es' acc (w0 : World R),
      Forall served es' ->
      (fold_right (fun e d => Nat.max (depth e) d) O es' <= fuel)%nat ->
      (forall q a, In (q, a) (flat_map files_of es') ->
                   skipped a \/ exists d, eligible a d) ->
      exists l w' evs,
        for_of (fun item acc0 =>
          bind (lift (get item (lit "type"))) (fun ty =>
          if is_str ty (lit "dir") then
            bind (lift (get item (lit "path"))) (fun p0 =>
            crawlGitHubDir fuel owner repo branch p0 token acc0)
          else if is_str ty (lit "file") then
            bind (lift (get item (lit "path"))) (fun p0 =>
            pushFile owner repo branch p0 token acc0)
          else ret acc0)) (map item_of es') acc w0
        = (Done (acc ++ l), w', evs)
        /\ harvest (flat_map files_of es') l).
    { induction es' as [|e es' IHes]; intros acc w0 Hs Hd Hr.
      - exists [], w0, []. simpl. rewrite app_nil_r. split; [reflexivity|constructor].
      - inversion Hs as [|? ? Hse Hses]; subst.
        cbn [fold_right] in Hd.
        assert (Hr2 : forall q a, In (q, a) (flat_map files_of es') ->
                         skipped a \/ exists d, eligible a d).
        { intros q a Hin. apply (Hr q a). simpl. apply in_or_app. now right. }
        assert (Hd2 : (fold_right (fun e d => Nat.max (depth e) d) O es' <= fuel)%nat)
          by lia.
        cbn [map for_of].
        destruct e as [q more' a|q more' sub|item].
        + (* a file entry *)
          destruct (item_is_file q more' a) as [Hty Hpath].
          destruct Hse as (u' & Hu' & Hnet').
          assert (Hrun : exists acc1 w1' ev1 l1,
                    pushFile owner repo branch q token acc w0 = (Done acc1, w1', ev1)
                    /\ acc1 = acc ++ l1 /\ harvest [(q, a)] l1).
          { specialize (Hnet' w0).
            destruct (network R w0 (contents_call PushFetch u' branch token))
              as [w1' n] eqn:Hn. simpl in Hnet'. subst n.
            destruct (Hr q a) as [Hsk|(d & Hel)].
            { simpl. now left. }
            - exists acc, w1', [(contents_call PushFetch u' branch token, a)], [].
              split; [eapply pushFile_skipped; eauto|].
              split; [now rewrite app_nil_r|].
              apply harvest_skip; [exact Hsk|constructor].
            - exists (acc ++ [entry_for q d]), w1',
                     [(contents_call PushFetch u' branch token, a)], [entry_for q d].
              split; [eapply pushFile_eligible; eauto|].
              split; [reflexivity|].
              apply harvest_take; [exact Hel|constructor]. }
          destruct Hrun as (acc1 & w1' & ev1 & l1 & Hrun & -> & Hh1).
          destruct (IHes (acc ++ l1) w1' Hses Hd2 Hr2) as (l2 & w2 & ev2 & Hrest & Hh2).
          exists (l1 ++ l2), w2, (ev1 ++ ev2). split.
          * erewrite run_bind_done.
            2:{ rewrite run_bind_lift, Hty.
                replace (is_str (VStr (lit "file")) (lit "dir")) with false by reflexivity.
                replace (is_str (VStr (lit "file")) (lit "file")) with true by reflexivity.
                rewrite run_bind_lift, Hpath. exact Hrun. }
            rewrite Hrest. now rewrite app_assoc.
          * apply (harvest_app [(q, a)] l1 _ l2 Hh1 Hh2).
        + (* a sub-directory *)
          destruct (item_is_dir q more' sub) as [Hty Hpath].
          assert (Hdsub : (depth (RDir q more' sub) <= fuel)%nat) by lia.
          assert (Hrsub : forall q0 a, In (q0, a) (files_of (RDir q more' sub)) ->
                            skipped a \/ exists d, eligible a d).
          { intros q0 a Hin. apply (Hr q0 a). simpl. apply in_or_app. now left. }
          destruct (IH q more' sub acc w0 Hse Hdsub Hrsub)
            as (l1 & w1' & ev1 & Hrun & Hh1).
          destruct (IHes (acc ++ l1) w1' Hses Hd2 Hr2) as (l2 & w2 & ev2 & Hrest & Hh2).
          exists (l1 ++ l2), w2, (ev1 ++ ev2). split.
          * erewrite run_bind_done.
            2:{ rewrite run_bind_lift, Hty.
                replace (is_str (VStr (lit "dir")) (lit "dir")) with true by reflexivity.
                rewrite run_bind_lift, Hpath. exact Hrun. }
            rewrite Hrest. now rewrite app_assoc.
          * apply (harvest_app _ l1 _ l2 Hh1 Hh2).
        + (* an entry of another type *)
          simpl in Hse. unfold other_item in Hse.
          destruct (get item (lit "type")) as [e|ty] eqn:Hty; [discriminate|].
          apply andb_prop in Hse. destruct Hse as [Hnd Hnf].
          apply negb_true_iff in Hnd, Hnf.
          destruct (IHes acc w0 Hses Hd2 Hr2) as (l2 & w2 & ev2 & Hrest & Hh2).
          exists l2, w2, ev2. split; [|exact Hh2].
          erewrite run_bind_done.
          2:{ rewrite run_bind_lift. cbn [item_of]. rewrite Hty, Hnd, Hnf. reflexivity. }
          rewrite Hrest. reflexivity. }
    simpl in Hdepth.
    destruct (Hloop es out w1 Hall ltac:(lia) Hread) as (l & w' & evs & Hrun & Hh).
    exists l, w'. eexists. split; [|exact Hh].
    rewrite (run_bind_done _ _ _ _ _ _ Hrun).
    rewrite run_bind_lift. simpl. reflexivity.
Qed.

End Collector.

(** C7 (truncation): whenever [pushFile] collects a file, the stored content
    is the first [truncation_bound] (7000) code units of the decoded content:
    exactly that many when the decoded content is longer, and the decoded
    content itself when it is not. *)
Theorem collected_content_is_truncated :
  forall (R : Runtime) (owner repo branch path token : value)
         (out out' : list Harmonizer.CollectedFile) (w : World R),
    fst (fst (Harmonizer.pushFile owner repo branch path token out w)) = Done out' ->
    out' = out \/
    exists c a decoded stored,
      snd (Harmonizer.pushFile owner repo branch path token out w) = [(c, a)]
      /\ Spec.eligible (R:=R) a decoded
      /\ out' = out ++ [Harmonizer.mkFile path stored]
      /\ stored = firstn Harmonizer.truncation_bound decoded
      /\ ((Harmonizer.truncation_bound < List.length decoded)%nat ->
          List.length stored = Harmonizer.truncation_bound)
      /\ ((List.length decoded <= Harmonizer.truncation_bound)%nat ->
          stored = decoded).
Proof.
  intros R owner repo branch path token out out' w Hrun.
  destruct (pushFile_inv owner repo branch token path out w out' Hrun)
    as [->|(c & a & decoded & Ht & He & ->)]; [now left|].
  right. exists c, a, decoded, (firstn Harmonizer.truncation_bound decoded).
  repeat split; auto.
  - intros Hlen. apply firstn_length_le. lia.
  - intros Hlen. now apply firstn_all2.
Qed.

Lemma collected_content_is_truncated_witness :
  let out' := [Harmonizer.mkFile (Mock.str "docs/long.txt") (repeat 65 7000)] in
  out' = [] \/
  exists c a decoded stored,
    snd Mock.long_run = [(c, a)]
    /\ Spec.eligible (R:=Mock.scripted (fun _ => None)) a decoded
    /\ out' = [] ++ [Harmonizer.mkFile (Mock.str "docs/long.txt") stored]
    /\ stored = firstn Harmonizer.truncation_bound decoded
    /\ ((Harmonizer.truncation_bound < List.length decoded)%nat ->
        List.length stored = Harmonizer.truncation_bound)
    /\ ((List.length decoded <= Harmonizer.truncation_bound)%nat ->
        stored = decoded).
Proof.
  apply (collected_content_is_truncated (Mock.scripted (fun _ => None))).
  vm_compute. reflexivity.
Defined.



(** ** The built-in functions on concrete inputs *)

Example encodeURIComponent_examples :
  Mock.gives (encodeURIComponent (lit "src/a b.txt")) (lit "src%2Fa%20b.txt") = true
  /\ Mock.gives (encodeURIComponent (lit "-_.!~*'()")) (lit "-_.!~*'()") = true
  /\ Mock.gives (encodeURIComponent [233; 8364]) (lit "%C3%A9%E2%82%AC") = true
  /\ Mock.gives (encodeURIComponent [55357; 56832]) (lit "%F0%9F%98%80") = true
  /\ Mock.throws (encodeURIComponent [55357]) = true
  /\ Mock.throws (encodeURIComponent [56832; 55357]) = true.
Proof. repeat split; reflexivity. Qed.

Example decodeURIComponent_examples :
  Mock.gives (decodeURIComponent (lit "a%e2%82%acb")) [97; 8364; 98] = true
  /\ Mock.gives (decodeURIComponent (lit "%F0%9F%98%80")) [55357; 56832] = true
  /\ Mock.gives (decodeURIComponent (lit "%25")) (lit "%") = true
  /\ Mock.throws (decodeURIComponent (lit "%")) = true
  /\ Mock.throws (decodeURIComponent (lit "%E4")) = true
  /\ Mock.throws (decodeURIComponent (lit "%C0%80")) = true
  /\ Mock.throws (decodeURIComponent (lit "%ED%A0%80")) = true
  /\ Mock.throws (decodeURIComponent (lit "%F4%90%80%80")) = true.
Proof. repeat split; reflexivity. Qed.

Example escape_unescape_examples :
  jstr_eqb (escape [228; 32; 8364; 47]) (lit "%E4%20%u20AC/") = true
  /\ jstr_eqb (unescape (lit "%E4%20%u20AC/")) [228; 32; 8364; 47] = true
  /\ jstr_eqb (unescape (lit "%u004")) (lit "%u004") = true
  /\ jstr_eqb (unescape (lit "100%")) (lit "100%") = true.
Proof. repeat split; reflexivity. Qed.

Example base64_examples :
  Mock.gives (btoa (lit "Hi")) (lit "SGk=") = true
  /\ Mock.throws (btoa [8364]) = true
  /\ Mock.gives (atob (lit "SGVs bG8=")) (lit "Hello") = true
  /\ Mock.gives (atob (lit "SGk")) (lit "Hi") = true
  /\ Mock.throws (atob (lit "SGVsbG8==")) = true
  /\ Mock.throws (atob (lit "SG-k")) = true
  /\ Mock.gives (base64encode (lit "new")) (lit "bmV3") = true
  /\ Mock.gives (base64decode (lit "b2xk")) (lit "old") = true.
Proof. repeat split; reflexivity. Qed.

(** ** The transport encoding *)

Ltac Zify.zify_post_hook ::= Z.to_euclidean_division_equations.

Ltac zbool :=
  repeat match goal with
    | |- context [?a <? ?b] =>
        first [ replace (a <? b) with true by (symmetry; apply Z.ltb_lt; lia)
              | replace (a <? b) with false by (symmetry; apply Z.ltb_ge; lia) ]
    | |- context [?a <=? ?b] =>
        first [ replace (a <=? b) with true by (symmetry; apply Z.leb_le; lia)
              | replace (a <=? b) with false by (symmetry; apply Z.leb_gt; lia) ]
    | |- context [?a =? ?b] =>
        first [ replace (a =? b) with true by (symmetry; apply Z.eqb_eq; lia)
              | replace (a =? b) with false by (symmetry; apply Z.eqb_neq; lia) ]
    end.

Section Hex.

Lemma hexval_hexdigit d : 0 <= d < 16 -> hexval (hexdigit d) = Some d.
Proof.
  intros Hd. unfold hexdigit, hexval.
  destruct (Z.ltb_spec d 10); zbool; cbn [andb]; f_equal; lia.
Qed.

Lemma hexbyte_pct b :
  0 <= b < 256 -> hexbyte (hexdigit (b / 16)) (hexdigit (b mod 16)) = Some b.
Proof.
  intros Hb. unfold hexbyte.
  rewrite !hexval_hexdigit by lia. f_equal. lia.
Qed.

Lemma hexdigit_range d : 0 <= d < 16 -> 48 <= hexdigit d <= 70.
Proof. intros Hd. unfold hexdigit. destruct (Z.ltb_spec d 10); lia. Qed.

Lemma mem_cons c x l : mem c (x :: l) = (c =? x) || mem c l.
Proof. reflexivity. Qed.

Lemma uri_unreserved_ascii c :
  uri_unreserved c = true -> 0 <= c < 128 /\ c <> 37.
Proof.
  unfold uri_unreserved, is_alnum. rewrite !mem_cons. unfold mem; cbn [existsb].
  rewrite !orb_true_iff, !andb_true_iff, !Z.leb_le, !Z.eqb_eq. lia.
Qed.

Lemma escape_unreserved_ascii c :
  escape_unreserved c = true -> 0 <= c < 128 /\ c <> 37.
Proof.
  unfold escape_unreserved, is_alnum. rewrite !mem_cons. unfold mem; cbn [existsb].
  rewrite !orb_true_iff, !andb_true_iff, !Z.leb_le, !Z.eqb_eq. lia.
Qed.

Lemma uri_reserved_high c : 128 <= c -> uri_unreserved c = false.
Proof.
  intros Hc. destruct (uri_unreserved c) eqn:E; [|reflexivity].
  apply uri_unreserved_ascii in E. lia.
Qed.

Lemma escape_high b : 128 <= b < 256 -> escape_unit b = pct b.
Proof.
  intros Hb. unfold escape_unit.
  destruct (escape_unreserved b) eqn:E.
  - apply escape_unreserved_ascii in E. lia.
  - zbool. reflexivity.
Qed.

End Hex.

Section Utf.
Import Transport.

Lemma utf8_octets cp : scalar cp -> Forall octet (utf8 cp).
Proof.
  intros [Hr Hs]. unfold utf8, octet.
  destruct (Z.ltb_spec cp 128); [repeat constructor; lia|].
  destruct (Z.ltb_spec cp 2048); [repeat constructor; lia|].
  destruct (Z.ltb_spec cp 65536); repeat constructor; lia.
Qed.

Lemma option_map_app_cons {A} (x : A) (o : option (list A)) :
  option_map (cons x) o = option_map (app [x]) o.
Proof. destruct o; reflexivity. Qed.

(** *** encodeURIComponent on the units of one code point *)

Lemma Encode_utf16 cp rest :
  scalar cp ->
  Encode uri_unreserved 0 (utf16 cp ++ rest)
  = option_map (app (enc_cp cp)) (Encode uri_unreserved 0 rest).
Proof.
  intros [Hr Hs]. unfold utf16, enc_cp.
  destruct (Z.ltb_spec cp 65536) as [Hb|Hb]; cbn [app Encode].
  - destruct (uri_unreserved cp) eqn:E; [apply option_map_app_cons|].
    unfold CodePointAt, is_lead, is_trail.
    destruct (Z.leb_spec 55296 cp); destruct (Z.leb_spec cp 56319);
      destruct (Z.leb_spec 56320 cp); destruct (Z.leb_spec cp 57343);
      cbn [andb]; try lia; reflexivity.
  - rewrite (uri_reserved_high (55296 + (cp - 65536) / 1024)) by lia.
    rewrite (uri_reserved_high cp) by lia.
    unfold CodePointAt, is_lead, is_trail. zbool. cbn [andb].
    replace ((55296 + (cp - 65536) / 1024 - 55296) * 1024
             + (56320 + (cp - 65536) mod 1024 - 56320) + 65536) with cp by lia.
    reflexivity.
Qed.

Lemma Encode_code_points cps :
  Forall scalar cps ->
  Encode uri_unreserved 0 (flat_map utf16 cps) = Some (flat_map enc_cp cps).
Proof.
  induction 1 as [|cp cps Hcp _ IH]; [reflexivity|].
  cbn [flat_map]. rewrite Encode_utf16 by exact Hcp. rewrite IH. reflexivity.
Qed.

(** *** unescape undoes the percent escapes *)

Lemma unescape_pct b rest :
  octet b -> unescape_from 0 (pct b ++ rest) = b :: unescape_from 0 rest.
Proof.
  intros Hb. unfold pct. cbn [app unescape_from].
  replace (37 =? 37) with true by reflexivity.
  assert (Hh : 48 <= hexdigit (b / 16) <= 70) by (apply hexdigit_range; unfold octet in Hb; lia).
  assert (Hat : unescape_at (hexdigit (b / 16) :: hexdigit (b mod 16) :: rest)
                = Some (b, 2%nat)).
  { unfold unescape_at.
    destruct rest as [|x [|y [|z rest']]];
      try (replace (hexdigit (b / 16) =? 117) with false
             by (symmetry; apply Z.eqb_neq; lia));
      rewrite hexbyte_pct by exact Hb; reflexivity. }
  rewrite Hat. reflexivity.
Qed.

Lemma unescape_pcts bs rest :
  Forall octet bs ->
  unescape_from 0 (flat_map pct bs ++ rest) = bs ++ unescape_from 0 rest.
Proof.
  induction 1 as [|b bs Hb _ IH]; [reflexivity|].
  cbn [flat_map]. rewrite <- app_assoc, unescape_pct by exact Hb.
  rewrite IH. reflexivity.
Qed.

Lemma unescape_enc_cp cp rest :
  scalar cp ->
  unescape_from 0 (enc_cp cp ++ rest) = utf8 cp ++ unescape_from 0 rest.
Proof.
  intros Hcp. unfold enc_cp. destruct (uri_unreserved cp) eqn:E.
  - apply uri_unreserved_ascii in E. unfold utf8. zbool.
    cbn [app unescape_from]. zbool. reflexivity.
  - apply unescape_pcts, utf8_octets, Hcp.
Qed.

Lemma unescape_code_points cps :
  Forall scalar cps -> unescape (flat_map enc_cp cps) = flat_map utf8 cps.
Proof.
  unfold unescape. induction 1 as [|cp cps Hcp _ IH]; [reflexivity|].
  cbn [flat_map]. rewrite unescape_enc_cp by exact Hcp. rewrite IH. reflexivity.
Qed.

End Utf.

Section Base64.
Import Transport.

Lemma list_ind3 {A} (P : list A -> Prop) :
  P [] -> (forall a, P [a]) -> (forall a b, P [a; b]) ->
  (forall a b c l, P l -> P (a :: b :: c :: l)) ->
  forall l, P l.
Proof.
  intros H0 H1 H2 H3.
  assert (H : forall l, P l /\ (forall a, P (a :: l)) /\ (forall a b, P (a :: b :: l))).
  { induction l as [|x l (IH0 & IH1 & IH2)].
    - auto.
    - repeat split; auto. }
  intros l. apply H.
Qed.

Lemma b64enc_groups bs : b64enc bs = map b64char (groups bs) ++ padding bs.
Proof.
  induction bs as [|a|a b|a b c l IH] using list_ind3; try reflexivity.
  cbn [b64enc groups padding map app]. rewrite IH. reflexivity.
Qed.

Lemma groups_sextets bs : Forall octet bs -> Forall sextet (groups bs).
Proof.
  unfold octet, sextet.
  induction bs as [|a|a b|a b c l IH] using list_ind3; intros H.
  - constructor.
  - inversion H; subst. repeat constructor; lia.
  - inversion H as [|? ? Ha H']; subst. inversion H'; subst.
    repeat constructor; lia.
  - inversion H as [|? ? Ha H']; subst. inversion H' as [|? ? Hb H'']; subst.
    inversion H'' as [|? ? Hc Hl]; subst.
    cbn [groups]. repeat (constructor; [lia|]). apply IH, Hl.
Qed.

Lemma b64dec_groups bs : Forall octet bs -> b64dec (groups bs) = bs.
Proof.
  unfold octet.
  induction bs as [|a|a b|a b c l IH] using list_ind3; intros H.
  - reflexivity.
  - inversion H; subst. cbn [groups b64dec]. f_equal. lia.
  - inversion H as [|? ? Ha H']; subst. inversion H'; subst.
    cbn [groups b64dec]. f_equal; [lia|]. f_equal. lia.
  - inversion H as [|? ? Ha H']; subst. inversion H' as [|? ? Hb H'']; subst.
    inversion H'' as [|? ? Hc Hl]; subst.
    cbn [groups b64dec]. rewrite (IH Hl).
    f_equal; [lia|]. f_equal; [lia|]. f_equal. lia.
Qed.

Lemma m4_cons4 a b c d l : m4 (a :: b :: c :: d :: l) = m4 l.
Proof. unfold m4. cbn [List.length]. lia. Qed.

(** The digits and the padding add up to a multiple of four. *)
Lemma groups_padding bs :
  (padding bs = [] /\ m4 (groups bs) = 0)
  \/ (padding bs = [61] /\ m4 (groups bs) = 3)
  \/ (padding bs = [61; 61] /\ m4 (groups bs) = 2).
Proof.
  induction bs as [|a|a b|a b c l IH] using list_ind3.
  - left. split; reflexivity.
  - right; right. split; reflexivity.
  - right; left. split; reflexivity.
  - cbn [groups padding]. rewrite m4_cons4. exact IH.
Qed.

Lemma b64char_props v :
  sextet v ->
  b64val (b64char v) = Some v /\ b64char v <> 61 /\ is_ws (b64char v) = false.
Proof.
  unfold sextet, b64char, b64val, is_ws. rewrite !mem_cons. unfold mem; cbn [existsb].
  intros Hv.
  destruct (Z.ltb_spec v 26); [zbool; cbn [andb orb]; repeat split; try lia; f_equal; lia|].
  destruct (Z.ltb_spec v 52); [zbool; cbn [andb orb]; repeat split; try lia; f_equal; lia|].
  destruct (Z.ltb_spec v 62); [zbool; cbn [andb orb]; repeat split; try lia; f_equal; lia|].
  destruct (Z.eqb_spec v 62); [subst; repeat split; try reflexivity; lia|].
  assert (v = 63) by lia. subst. repeat split; try reflexivity; lia.
Qed.

Lemma sextets_map vs : Forall sextet vs -> sextets (map b64char vs) = Some vs.
Proof.
  induction 1 as [|v vs Hv _ IH]; [reflexivity|].
  cbn [map sextets]. rewrite (proj1 (b64char_props v Hv)), IH. reflexivity.
Qed.

Lemma filter_keeps {A} (f : A -> bool) l :
  Forall (fun x => f x = true) l -> filter f l = l.
Proof.
  induction 1 as [|x l Hx _ IH]; [reflexivity|].
  cbn [filter]. rewrite Hx, IH. reflexivity.
Qed.

Lemma no_ws_digits vs :
  Forall sextet vs ->
  Forall (fun c => negb (is_ws c) = true) (map b64char vs).
Proof.
  induction 1 as [|v vs Hv _ IH]; constructor; [|exact IH].
  rewrite (proj2 (proj2 (b64char_props v Hv))). reflexivity.
Qed.

Lemma m4_app l p : m4 (l ++ p) = (m4 l + Z.of_nat (List.length p)) mod 4.
Proof. unfold m4. rewrite length_app, Nat2Z.inj_add. lia. Qed.

Lemma m4_map vs : m4 (map b64char vs) = m4 vs.
Proof. unfold m4. now rewrite length_map. Qed.

(** Stripping the padding leaves the digits. *)
Lemma strip_padding_digits vs pad :
  Forall sextet vs ->
  (pad = [] /\ m4 vs = 0) \/ (pad = [61] /\ m4 vs = 3) \/ (pad = [61; 61] /\ m4 vs = 2) ->
  strip_padding (map b64char vs ++ pad) = map b64char vs.
Proof.
  intros Hvs Hpad. unfold strip_padding.
  fold (m4 (map b64char vs ++ pad)). rewrite m4_app, m4_map.
  destruct Hpad as [[-> Hm]|[[-> Hm]|[-> Hm]]]; rewrite Hm;
    cbn [List.length]; replace (_ mod 4 =? 0) with true by reflexivity.
  - rewrite app_nil_r.
    destruct (rev (map b64char vs)) as [|a [|b r]] eqn:Hrev; [reflexivity| |].
    + assert (Hin : In a (map b64char vs))
        by (apply in_rev; rewrite Hrev; now left).
      apply in_map_iff in Hin. destruct Hin as (v & <- & Hv).
      rewrite Forall_forall in Hvs.
      destruct (b64char_props v (Hvs v Hv)) as (_ & Hne & _).
      apply Z.eqb_neq in Hne. rewrite Hne. reflexivity.
    + assert (Hin : In a (map b64char vs))
        by (apply in_rev; rewrite Hrev; now left).
      apply in_map_iff in Hin. destruct Hin as (v & <- & Hv).
      rewrite Forall_forall in Hvs.
      destruct (b64char_props v (Hvs v Hv)) as (_ & Hne & _).
      apply Z.eqb_neq in Hne. rewrite Hne. reflexivity.
  - rewrite rev_app_distr. cbn [rev app].
    destruct (rev (map b64char vs)) as [|b r] eqn:Hrev.
    + apply (f_equal (@List.length Z)) in Hrev. rewrite length_rev, length_map in Hrev.
      unfold m4 in Hm. rewrite Hrev in Hm. discriminate.
    + assert (Hin : In b (map b64char vs))
        by (apply in_rev; rewrite Hrev; now left).
      apply in_map_iff in Hin. destruct Hin as (v & <- & Hv).
      rewrite Forall_forall in Hvs.
      destruct (b64char_props v (Hvs v Hv)) as (_ & Hne & _).
      apply Z.eqb_neq in Hne. cbn [app]. rewrite Hne.
      replace (61 =? 61) with true by reflexivity. cbn [andb].
      change (rev r ++ [b64char v]) with (rev (b64char v :: r)).
      rewrite <- Hrev. apply rev_involutive.
  - rewrite rev_app_distr. cbn [rev app].
    replace (61 =? 61) with true by reflexivity. cbn [andb].
    apply rev_involutive.
Qed.

Lemma btoa_octets bs : Forall octet bs -> btoa bs = inr (b64enc bs).
Proof.
  intros H. unfold btoa.
  replace (forallb (fun c => c <=? 255) bs) with true; [reflexivity|].
  symmetry. apply forallb_forall. rewrite Forall_forall in H.
  intros b Hb. apply Z.leb_le. specialize (H b Hb). unfold octet in H. lia.
Qed.

Lemma atob_b64enc bs : Forall octet bs -> atob (b64enc bs) = inr bs.
Proof.
  intros H. unfold atob. rewrite b64enc_groups.
  pose proof (groups_sextets bs H) as Hg.
  pose proof (groups_padding bs) as Hp.
  rewrite filter_keeps.
  2:{ apply Forall_app. split; [apply no_ws_digits, Hg|].
      destruct Hp as [[-> _]|[[-> _]|[-> _]]]; repeat constructor. }
  rewrite (strip_padding_digits _ _ Hg Hp).
  fold (m4 (map b64char (groups bs))). rewrite m4_map.
  replace (m4 (groups bs) =? 1) with false
    by (destruct Hp as [[_ ->]|[[_ ->]|[_ ->]]]; reflexivity).
  rewrite (sextets_map _ Hg), (b64dec_groups _ H). reflexivity.
Qed.

End Base64.

Section DecodeUtf8.
Import Transport.

Lemma Decode_skip pre rest : Decode (List.length pre) (pre ++ rest) = Decode 0 rest.
Proof. induction pre as [|c pre IH]; [reflexivity|exact IH]. Qed.

Lemma Decode_pct tail :
  Decode 0 (37 :: tail)
  = match decode_at tail with
    | None => None
    | Some (units, adv) => option_map (app units) (Decode adv tail)
    end.
Proof. reflexivity. Qed.

Lemma octet_at_pct b rest : octet b -> octet_at (pct b ++ rest) = Some b.
Proof.
  intros Hb. unfold octet_at, pct. cbn [app].
  replace (37 =? 37) with true by reflexivity. now apply hexbyte_pct.
Qed.

Lemma skipn3_pct b rest : skipn 3 (pct b ++ rest) = rest.
Proof. reflexivity. Qed.

(** One octet below 128, escaped or not. *)
Lemma Decode_ascii c rest :
  0 <= c < 128 ->
  Decode 0 (escape_unit c ++ rest) = option_map (app [c]) (Decode 0 rest).
Proof.
  intros Hc. unfold escape_unit. destruct (escape_unreserved c) eqn:E.
  - apply escape_unreserved_ascii in E. cbn [app Decode]. zbool.
    symmetry. apply option_map_app_cons.
  - zbool. unfold pct. cbn [app]. rewrite Decode_pct.
    unfold decode_at. rewrite hexbyte_pct by lia. zbool.
    change (Decode 2 (hexdigit (c / 16) :: hexdigit (c mod 16) :: rest))
      with (Decode 0 rest).
    reflexivity.
Qed.

Lemma utf8_2_encoded cp :
  128 <= cp < 2048 -> utf8_2 (192 + cp / 64) (128 + cp mod 64) = Some cp.
Proof.
  intros Hcp. unfold utf8_2, is_cont. cbv zeta. zbool. cbn [andb]. f_equal. lia.
Qed.

Lemma utf8_3_encoded cp :
  2048 <= cp < 65536 -> ~ (55296 <= cp <= 57343) ->
  utf8_3 (224 + cp / 4096) (128 + (cp / 64) mod 64) (128 + cp mod 64) = Some cp.
Proof.
  intros Hcp Hs. unfold utf8_3, is_cont. cbv zeta.
  replace ((224 + cp / 4096 - 224) * 4096 + (128 + (cp / 64) mod 64 - 128) * 64
           + (128 + cp mod 64 - 128)) with cp by lia.
  zbool. cbn [andb].
  destruct (Z.leb_spec 55296 cp); destruct (Z.leb_spec cp 57343);
    cbn [andb negb]; try lia; reflexivity.
Qed.

Lemma utf8_4_encoded cp :
  65536 <= cp <= 1114111 ->
  utf8_4 (240 + cp / 262144) (128 + (cp / 4096) mod 64)
         (128 + (cp / 64) mod 64) (128 + cp mod 64) = Some cp.
Proof.
  intros Hcp. unfold utf8_4, is_cont. cbv zeta.
  replace ((240 + cp / 262144 - 240) * 262144 + (128 + (cp / 4096) mod 64 - 128) * 4096
           + (128 + (cp / 64) mod 64 - 128) * 64 + (128 + cp mod 64 - 128))
    with cp by lia.
  zbool. reflexivity.
Qed.

(** decodeURIComponent on the escaped octets of one code point. *)
Lemma Decode_utf8 cp rest :
  scalar cp ->
  Decode 0 (flat_map escape_unit (utf8 cp) ++ rest)
  = option_map (app (utf16 cp)) (Decode 0 rest).
Proof.
  intros [Hr Hs]. unfold utf8.
  destruct (Z.ltb_spec cp 128) as [H1|H1].
  { cbn [flat_map]. rewrite app_nil_r.
    unfold utf16. zbool. apply Decode_ascii. lia. }
  destruct (Z.ltb_spec cp 2048) as [H2|H2].
  { cbn [flat_map]. rewrite app_nil_r, !escape_high by lia.
    rewrite <- app_assoc. unfold pct at 1. cbn [app]. rewrite Decode_pct.
    unfold decode_at. rewrite hexbyte_pct by lia. zbool.
    rewrite octet_at_pct by (unfold octet; lia).
    rewrite utf8_2_encoded by lia. cbn [option_map].
    change (Decode 5 (hexdigit ((192 + cp / 64) / 16)
                        :: hexdigit ((192 + cp / 64) mod 16)
                        :: pct (128 + cp mod 64) ++ rest))
      with (Decode 0 rest).
    reflexivity. }
  destruct (Z.ltb_spec cp 65536) as [H3|H3].
  { cbn [flat_map]. rewrite app_nil_r, !escape_high by lia.
    rewrite <- !app_assoc. unfold pct at 1. cbn [app]. rewrite Decode_pct.
    unfold decode_at. rewrite hexbyte_pct by lia. zbool.
    rewrite octet_at_pct by (unfold octet; lia).
    rewrite skipn3_pct.
    rewrite octet_at_pct by (unfold octet; lia).
    rewrite utf8_3_encoded by lia. cbn [option_map].
    change (Decode 8 (hexdigit ((224 + cp / 4096) / 16)
                        :: hexdigit ((224 + cp / 4096) mod 16)
                        :: pct (128 + (cp / 64) mod 64)
                        ++ pct (128 + cp mod 64) ++ rest))
      with (Decode 0 rest).
    reflexivity. }
  cbn [flat_map]. rewrite app_nil_r, !escape_high by lia.
  rewrite <- !app_assoc. unfold pct at 1. cbn [app]. rewrite Decode_pct.
  unfold decode_at. rewrite hexbyte_pct by lia. zbool.
  rewrite octet_at_pct by (unfold octet; lia).
  rewrite skipn3_pct.
  rewrite octet_at_pct by (unfold octet; lia).
  change (skipn 6 (pct (128 + (cp / 4096) mod 64)
                   ++ pct (128 + (cp / 64) mod 64) ++ pct (128 + cp mod 64) ++ rest))
    with (pct (128 + cp mod 64) ++ rest).
  rewrite octet_at_pct by (unfold octet; lia).
  rewrite utf8_4_encoded by lia. cbn [option_map].
  change (Decode 11 (hexdigit ((240 + cp / 262144) / 16)
                       :: hexdigit ((240 + cp / 262144) mod 16)
                       :: pct (128 + (cp / 4096) mod 64)
                       ++ pct (128 + (cp / 64) mod 64)
                       ++ pct (128 + cp mod 64) ++ rest))
    with (Decode 0 rest).
  reflexivity.
Qed.

Lemma Decode_code_points cps :
  Forall scalar cps ->
  Decode 0 (escape (flat_map utf8 cps)) = Some (flat_map utf16 cps).
Proof.
  unfold escape. induction 1 as [|cp cps Hcp _ IH]; [reflexivity|].
  cbn [flat_map]. rewrite flat_map_app, Decode_utf8 by exact Hcp.
  rewrite IH. reflexivity.
Qed.

(** *** Well-formed strings are sequences of code points *)

Lemma well_formed_code_points n : forall s,
  (List.length s <= n)%nat ->
  Forall code_unit s -> well_formed s = true ->
  exists cps, Forall scalar cps /\ s = flat_map utf16 cps.
Proof.
  induction n as [|n IH]; intros s Hlen Hu Hwf.
  - destruct s; [|simpl in Hlen; lia]. exists []. split; [constructor|reflexivity].
  - destruct s as [|c r]; [exists []; split; [constructor|reflexivity]|].
    inversion Hu as [|? ? Hc Hr]; subst. unfold code_unit in Hc.
    cbn [well_formed] in Hwf. destruct (is_lead c) eqn:Hlead.
    + destruct r as [|d r']; [discriminate|].
      apply andb_prop in Hwf. destruct Hwf as [Htrail Hwf].
      inversion Hr as [|? ? Hd Hr']; subst.
      destruct (IH r') as (cps & Hcps & ->); auto.
      { simpl in Hlen |- *. lia. }
      unfold is_lead in Hlead. unfold is_trail in Htrail.
      apply andb_prop in Hlead, Htrail.
      rewrite !Z.leb_le in Hlead, Htrail.
      exists (((c - 55296) * 1024 + (d - 56320) + 65536) :: cps). split.
      * constructor; [unfold scalar; lia|exact Hcps].
      * cbn [flat_map]. unfold utf16. zbool. cbn [app]. f_equal; [lia|].
        f_equal. lia.
    + apply andb_prop in Hwf. destruct Hwf as [Htrail Hwf].
      apply negb_true_iff in Htrail.
      destruct (IH r) as (cps & Hcps & ->); auto.
      { simpl in Hlen. lia. }
      unfold is_lead in Hlead. unfold is_trail in Htrail.
      apply andb_false_iff in Hlead, Htrail.
      rewrite !Z.leb_gt in Hlead, Htrail.
      exists (c :: cps). split.
      * constructor; [unfold scalar; lia|exact Hcps].
      * cbn [flat_map]. unfold utf16. zbool. reflexivity.
Qed.

(** [encodeURIComponent] is defined only on well-formed strings. *)
Lemma Encode_defined s : forall k e,
  Forall code_unit s ->
  Encode uri_unreserved k s = Some e -> well_formed (skipn k s) = true.
Proof.
  induction s as [|c r IH]; intros k e Hu He.
  - destruct k; reflexivity.
  - inversion Hu as [|? ? Hc Hr]; subst. unfold code_unit in Hc.
    destruct k as [|k]; cbn [Encode skipn] in *.
    + destruct (uri_unreserved c) eqn:E.
      * apply uri_unreserved_ascii in E.
        destruct (Encode uri_unreserved 0 r) as [e'|] eqn:He'; [|discriminate].
        specialize (IH 0%nat e' Hr He'). cbn [skipn] in IH.
        cbn [well_formed]. unfold is_lead, is_trail. zbool. cbn [andb negb].
        exact IH.
      * unfold CodePointAt in He. cbn [well_formed].
        destruct (is_lead c).
        -- destruct r as [|d r']; [discriminate|].
           destruct (is_trail d); [|discriminate].
           destruct (Encode uri_unreserved 1 (d :: r')) as [e'|] eqn:He'; [|discriminate].
           apply (IH 1%nat e' Hr He').
        -- destruct (is_trail c); [discriminate|].
           destruct (Encode uri_unreserved 0 r) as [e'|] eqn:He'; [|discriminate].
           apply (IH 0%nat e' Hr He').
    + apply (IH k e Hr He).
Qed.

Lemma base64encode_code_points cps :
  Forall scalar cps ->
  base64encode (flat_map utf16 cps) = inr (b64enc (flat_map utf8 cps)).
Proof.
  intros H. unfold base64encode, encodeURIComponent.
  rewrite (Encode_code_points _ H). cbn [pbind].
  rewrite (unescape_code_points _ H).
  apply btoa_octets. clear - H.
  induction H as [|cp cps Hcp _ IH]; [constructor|].
  cbn [flat_map]. apply Forall_app. split; [now apply utf8_octets|exact IH].
Qed.

Lemma base64decode_code_points cps :
  Forall scalar cps ->
  base64decode (b64enc (flat_map utf8 cps)) = inr (flat_map utf16 cps).
Proof.
  intros H. unfold base64decode.
  rewrite atob_b64enc.
  - cbn [pbind]. unfold decodeURIComponent.
    rewrite (Decode_code_points _ H). reflexivity.
  - clear - H. induction H as [|cp cps Hcp _ IH]; [constructor|].
    cbn [flat_map]. apply Forall_app. split; [now apply utf8_octets|exact IH].
Qed.

End DecodeUtf8.

Lemma base64encode_well_formed s e :
  Forall code_unit s -> base64encode s = inr e -> well_formed s = true.
Proof.
  intros Hu He. unfold base64encode, encodeURIComponent in He.
  destruct (Encode uri_unreserved 0 s) as [x|] eqn:Hx; [|discriminate].
  exact (Encode_defined s 0%nat x Hu Hx).
Qed.

Lemma well_formed_round_trip s :
  Forall code_unit s -> well_formed s = true ->
  exists e, base64encode s = inr e /\ base64decode e = inr s.
Proof.
  intros Hu Hwf.
  destruct (well_formed_code_points (List.length s) s (le_n _) Hu Hwf)
    as (cps & Hcps & ->).
  exists (b64enc (flat_map utf8 cps)). split.
  - now apply base64encode_code_points.
  - now apply base64decode_code_points.
Qed.

Lemma base64decode_base64encode s e :
  Forall code_unit s -> base64encode s = inr e -> base64decode e = inr s.
Proof.
  intros Hu He.
  destruct (well_formed_round_trip s Hu (base64encode_well_formed s e Hu He))
    as (e' & He' & Hd).
  rewrite He in He'. injection He' as <-. exact Hd.
Qed.

(** What is written in apply mode decodes back to the proposed content: the
    [content] field of every write payload is the encoding of the proposed
    content, and [base64decode] maps it back to that content. *)
Lemma written_content_decodes (R : Runtime) token owner repo newBranch file acc
    (w : World R) content c n :
  get file (lit "content") = inr content ->
  Forall code_unit (toStr content) ->
  In (c, n) (snd (Harmonizer.commit_file (Harmonizer.ghClient token) owner repo
                    newBranch file acc w)) ->
  site c = PutFile ->
  exists encoded,
    option_map (fun b => get_opt b (lit "content")) (body c) = Some (VStr encoded)
    /\ base64decode encoded = inr (toStr content).
Proof.
  intros Hc Hu Hin Hsite.
  destruct (Harmonizer.commit_file (Harmonizer.ghClient token) owner repo
              newBranch file acc w) as [[o w'] t] eqn:Hrun.
  cbn [snd] in Hin. unfold Harmonizer.commit_file in Hrun.
  rewrite run_bind_lift, Hc, run_bind_lift in Hrun.
  destruct (base64encode (toStr content)) as [e|encoded] eqn:He;
    [injection Hrun as <- <- <-; destruct Hin|].
  rewrite run_bind_lift in Hrun.
  destruct (get file (lit "path")) as [e|fpath];
    [injection Hrun as <- <- <-; destruct Hin|].
  rewrite run_bind_lift in Hrun.
  destruct (Harmonizer.contents_url owner repo fpath) as [e|putURL];
    [injection Hrun as <- <- <-; destruct Hin|].
  destruct (probe_run token putURL newBranch w) as (w1 & pn & v & Hp & Hv).
  rewrite (run_bind_done _ _ _ _ _ _ Hp) in Hrun.
  unfold Harmonizer.ghPut, Harmonizer.ghClient in Hrun.
  destruct (request_run token PutFile PUT putURL
              (Some (Harmonizer.write_payload fpath encoded newBranch v)) w1)
    as (w2 & wn & _ & Ht & Hw & _).
  unfold bind at 1 in Hrun.
  destruct (Harmonizer.request token PutFile PUT putURL
              (Some (Harmonizer.write_payload fpath encoded newBranch v)) w1)
    as [[o2 w2'] t2] eqn:E.
  simpl in Ht, Hw. subst t2 w2'.
  assert (Ht : t = [(mkCall Probe GET (putURL ++ lit "?ref=" ++ newBranch)
                       (Harmonizer.bearer token) None, pn);
                    (mkCall PutFile PUT putURL (Harmonizer.bearer token)
                       (Some (Harmonizer.write_payload fpath encoded newBranch v)), wn)]).
  { destruct o2 as [res|e|].
    - rewrite run_bind_lift in Hrun.
      destruct (get res (lit "commit")); simpl in Hrun;
        injection Hrun as <- <- <-; reflexivity.
    - simpl in Hrun. injection Hrun as <- <- <-. reflexivity.
    - simpl in Hrun. injection Hrun as <- <- <-. reflexivity. }
  subst t. destruct Hin as [[= <- <-]|[[= <- <-]|[]]]; [discriminate|].
  exists encoded. split.
  - cbn [body option_map]. unfold Harmonizer.write_payload.
    destruct (truthy v); reflexivity.
  - now apply base64decode_base64encode.
Qed.

(** C10 (round trip): on strings of 16-bit code units, [base64encode] is
    defined exactly on the well-formed ones (no lone surrogate), and
    wherever it is defined [base64decode] gives the string back. *)
Theorem base64_round_trip :
  forall s : jstr,
    Forall code_unit s ->
    (well_formed s = true <-> exists e, base64encode s = inr e)
    /\ (forall e, base64encode s = inr e -> base64decode e = inr s).
Proof.
  intros s Hu. split; [split|].
  - intros Hwf. destruct (well_formed_round_trip s Hu Hwf) as (e & He & _).
    now exists e.
  - intros [e He]. exact (base64encode_well_formed s e Hu He).
  - intros e He. exact (base64decode_base64encode s e Hu He).
Qed.

Lemma base64_round_trip_witness :
  let s := [233; 8364; 55357; 56832; 37] in
  (well_formed s = true <-> exists e, base64encode s = inr e)
  /\ (forall e, base64encode s = inr e -> base64decode e = inr s).
Proof.
  apply (base64_round_trip [233; 8364; 55357; 56832; 37]).
  repeat constructor; unfold code_unit; lia.
Defined.

(** ** The end-to-end scenario of the specification *)

(** [src/a.txt] exists with content [old]; the model proposes [new]; the
    apply run creates one branch from the base SHA, writes the file with the
    existing blob's SHA attached, opens one pull request against the base
    branch and answers with the file marked [updated]. *)
Example end_to_end_apply :
  let run := Harmonizer.fetch (R:=Mock.e2e_runtime) 3
               (Harmonizer.post (Mock.e2e_body true)) Mock.env0 Mock.e2e_script in
  map (fun e => (site (fst e), method (fst e))) (snd run)
  = [(CrawlList, GET); (PushFetch, GET); (ModelCall, POST); (BaseRef, GET);
     (CreateBranch, POST); (Probe, GET); (PutFile, PUT); (CreatePR, POST)]
  /\ map (fun e => Spec.payload_sha (fst e))
       (filter (fun e => match site (fst e) with PutFile => true | _ => false end)
          (snd run))
     = [Some (Mock.str "blob1")]
  /\ fst (fst run)
     = Done (Harmonizer.json
               (Harmonizer.obj
                  [("ok", VBool true);
                   ("mode", Mock.str "apply");
                   ("branch", Mock.str "asa-harmonizer-1700000000000");
                   ("prUrl", Mock.str "https://pr/7");
                   ("prNumber", VNum 7);
                   ("changedFiles",
                    VArr [Harmonizer.obj
                            [("path", Mock.a_txt);
                             ("status", Mock.str "updated");
                             ("commit", Mock.str "c1")]])]%string) 200).
Proof. cbv zeta. repeat split; reflexivity. Qed.

(** The same request when the file does not exist yet on the new branch:
    no SHA is sent and the file is marked [created]. *)
Example end_to_end_created :
  let run := Harmonizer.fetch (R:=Mock.e2e_runtime) 3
               (Harmonizer.post (Mock.e2e_body true)) Mock.env0
               (Mock.fresh_script Mock.proposal) in
  map (fun e => Spec.payload_sha (fst e))
    (filter (fun e => match site (fst e) with PutFile => true | _ => false end)
       (snd run))
  = [None]
  /\ option_map (fun r => get_opt (get_opt (Harmonizer.payload r) (lit "changedFiles"))
                            (lit "length"))
       (match fst (fst run) with Done r => Some r | _ => None end)
     = Some (VNum 1)
  /\ match fst (fst run) with
     | Done r =>
         match get_opt (Harmonizer.payload r) (lit "changedFiles") with
         | VArr [entry] => Spec.recorded_status entry = Mock.str "created"
         | _ => False
         end
     | _ => False
     end.
Proof. cbv zeta. repeat split; reflexivity. Qed.
(* ===================================================================== *)
(** * Part III: further properties of the two workers                      *)
(* ===================================================================== *)

(** ** Strings *)

Lemma jstr_eqb_refl s : jstr_eqb s s = true.
Proof. induction s as [|c s IH]; simpl; [reflexivity|]. now rewrite Z.eqb_refl. Qed.

Lemma jstr_eqb_eq a b : jstr_eqb a b = true <-> a = b.
Proof.
  split; [|intros ->; apply jstr_eqb_refl].
  revert b. induction a as [|x a IH]; intros [|y b] H; simpl in H; try discriminate.
  - reflexivity.
  - apply andb_prop in H. destruct H as [Hx Hr].
    apply Z.eqb_eq in Hx. subst y. f_equal. now apply IH.
Qed.

Lemma jstr_eqb_neq a b : jstr_eqb a b = false <-> a <> b.
Proof.
  split.
  - intros H E. apply jstr_eqb_eq in E. congruence.
  - intros H. destruct (jstr_eqb a b) eqn:E; [|reflexivity].
    apply jstr_eqb_eq in E. contradiction.
Qed.

(** ** What a computation yields *)

Section Yields.
Import Behaviour.
Context {R : Runtime}.
Local Notation M := (M (R:=R)).
Local Notation yields := (yields (R:=R)).

Lemma yields_ret {A} (a : A) (P : A -> Prop) : P a -> yields (ret a) P.
Proof. intros H. apply sat_ret. exact H. Qed.

Lemma yields_throw {A} e (P : A -> Prop) : yields (throw e) P.
Proof. apply sat_throw. exact I. Qed.

Lemma yields_diverge {A} (P : A -> Prop) : yields diverge P.
Proof. apply sat_diverge. exact I. Qed.

Lemma yields_lift {A} (p : partial A) (P : A -> Prop) :
  (forall a, p = inr a -> P a) -> yields (lift p) P.
Proof. intros H. apply sat_lift; intros; simpl; auto. Qed.

Lemma yields_any {A} (m : M A) : yields m (fun _ => True).
Proof. intros w. destruct (fst (fst (m w))); exact I. Qed.

Lemma yields_bind {A B} (m : M A) (k : A -> M B) (P : A -> Prop) (Q : B -> Prop) :
  yields m P -> (forall a, P a -> yields (k a) Q) -> yields (bind m k) Q.
Proof.
  intros Hm Hk. eapply sat_bind.
  - exact Hm.
  - intros a t1 Ha. simpl in Ha. eapply sat_weaken; [apply (Hk a Ha)|].
    intros o t H. exact H.
  - intros; exact I.
  - intros; exact I.
Qed.

Lemma yields_then {A B} (m : M A) (k : A -> M B) (Q : B -> Prop) :
  (forall a, yields (k a) Q) -> yields (bind m k) Q.
Proof. intros Hk. eapply yields_bind; [apply yields_any|auto]. Qed.

Lemma yields_for_of {A St} (body : A -> St -> M St) (P : St -> Prop) l s :
  (forall x s', P s' -> yields (body x s') P) -> P s -> yields (for_of body l s) P.
Proof.
  intros Hb. revert s. induction l as [|x l IH]; intros s Hs; simpl.
  - now apply yields_ret.
  - eapply yields_bind; [apply Hb, Hs|]. intros s1 H1. now apply IH.
Qed.

Lemma yields_run {A} (m : M A) (P : A -> Prop) w a w' t :
  yields m P -> m w = (Done a, w', t) -> P a.
Proof. intros H E. exact (sat_run m _ w (Done a) w' t H E). Qed.

End Yields.

(** ** The answers of the harmonizer worker *)

Section Answers.
Import Harmonizer Behaviour.
Context {R : Runtime}.
Local Notation yields := (yields (R:=R)).

Lemma coherent_error e : coherent (error_response (R:=R) e).
Proof. split; [simpl; auto 6|reflexivity]. Qed.

Lemma apply_changes_coherent env p hr : yields (apply_changes env p hr) coherent.
Proof.
  unfold apply_changes. cbv zeta.
  repeat (apply yields_then; intros ?).
  apply yields_ret. split; [simpl; auto|reflexivity].
Qed.

Lemma harmonize_coherent fuel env b : yields (harmonize fuel env b) coherent.
Proof.
  unfold harmonize.
  repeat (apply yields_then; intros ?).
  match goal with |- yields (match ?c with _ => _ end) _ => destruct c end.
  - apply yields_ret. split; [simpl; auto|reflexivity].
  - repeat (apply yields_then; intros ?).
    destruct (negb _).
    + apply yields_ret. split; [simpl; auto 6|reflexivity].
    + destruct (negb _).
      * apply yields_then; intros ?. apply yields_ret. split; [simpl; auto|reflexivity].
      * apply apply_changes_coherent.
Qed.

End Answers.

(** X1 (the worker always answers): whatever the request, the configuration
    and the remote side, the handler of the harmonizer worker never throws:
    a run that ends is answered with status 200, 400, 404, 405 or 500, and
    the [ok] field of the answer is [true] exactly when the status is
    200. *)
Theorem harmonizer_always_answers :
  forall (R : Runtime) (fuel : nat) (req : Harmonizer.Request)
         (env : Harmonizer.Env) (w : World R),
    match fst (fst (Harmonizer.fetch fuel req env w)) with
    | Done r => Behaviour.coherent r
    | Raised _ => False
    | OutOfFuel => True
    end.
Proof.
  intros R fuel req env w. revert w. unfold Harmonizer.fetch.
  destruct (jstr_eqb _ _); [intros w; split; [simpl; auto|reflexivity]|].
  destruct (negb _); [intros w; split; [simpl; auto|reflexivity]|].
  destruct (negb _); [intros w; split; [simpl; auto 6|reflexivity]|].
  apply (sat_catch _ _ (fun o _ => match o with
                                   | Done r => Behaviour.coherent r
                                   | _ => True
                                   end)
           (fun o _ => match o with
                       | Done r => Behaviour.coherent r
                       | Raised _ => False
                       | OutOfFuel => True
                       end)).
  - apply yields_then. intros b. apply harmonize_coherent.
  - auto.
  - intros e t1 _. apply sat_ret. apply coherent_error.
  - auto.
Qed.

(** ** Routing *)

Section Routing.
Import Harmonizer Behaviour.
Context {R : Runtime}.

Lemma validate_complete env p : validate env p = inr tt -> complete env p.
Proof.
  unfold validate, complete. intros H.
  destruct (truthy (GITHUB_TOKEN env)); [|discriminate].
  destruct (truthy (OPENAI_API_KEY env)); [|discriminate].
  destruct (truthy (owner p)); [|discriminate].
  destruct (truthy (repo p)); [|discriminate].
  cbn [negb orb] in H. unfold get_opt.
  destruct (get (paths p) length_key) as [e|len]; [discriminate|].
  cbn [pbind] in H. destruct (truthy len); [|discriminate].
  repeat split; reflexivity.
Qed.

Lemma complete_validate env p : complete env p -> validate env p = inr tt.
Proof.
  unfold validate, complete, get_opt. intros (-> & -> & -> & -> & H).
  cbn [negb orb].
  destruct (get (paths p) length_key) as [e|len]; [discriminate|].
  cbn [pbind]. rewrite H. reflexivity.
Qed.

End Routing.

(** X2 (routing): the harmonizer worker answers a request for [/health]
    with status 200 whatever its method, a request for any other path than
    [/harmonize] with status 404, and a request for [/harmonize] that is not
    a POST with status 405; none of these looks at the configuration, calls
    the remote side or changes the world. *)
Theorem harmonizer_routes_requests :
  forall (R : Runtime) (fuel : nat) (req : Harmonizer.Request)
         (env : Harmonizer.Env) (w : World R),
    (Harmonizer.pathname req = lit "/health" ->
     Harmonizer.fetch fuel req env w
     = (Done (Harmonizer.mkResponse 200
                (VObj [(lit "ok", VBool true);
                       (lit "worker", VStr (lit "asa-directory-editor"));
                       (lit "status", VStr (lit "online"))])),
        w, []))
    /\ (Harmonizer.pathname req <> lit "/health" ->
        Harmonizer.pathname req <> lit "/harmonize" ->
        Harmonizer.fetch fuel req env w
        = (Done (Harmonizer.mkResponse 404
                   (VObj [(lit "ok", VBool false);
                          (lit "error", VStr (lit "Unknown endpoint"))])),
           w, []))
    /\ (Harmonizer.pathname req = lit "/harmonize" ->
        Harmonizer.req_method req <> lit "POST" ->
        Harmonizer.fetch fuel req env w
        = (Done (Harmonizer.mkResponse 405
                   (VObj [(lit "ok", VBool false);
                          (lit "error", VStr (lit "Only POST allowed"))])),
           w, [])).
Proof.
  intros R fuel req env w. unfold Harmonizer.fetch. repeat split.
  - intros ->. reflexivity.
  - intros H1 H2. apply jstr_eqb_neq in H1, H2. rewrite H1, H2. reflexivity.
  - intros H1 H2. rewrite H1. apply jstr_eqb_neq in H2. rewrite H2. reflexivity.
Qed.

Lemma harmonizer_routes_requests_witness :
  Harmonizer.fetch (R:=Mock.e2e_runtime) 0
    (Harmonizer.mkRequest (lit "/health") (lit "DELETE") None) Mock.env0 []
  = (Done (Harmonizer.mkResponse 200
             (VObj [(lit "ok", VBool true);
                    (lit "worker", VStr (lit "asa-directory-editor"));
                    (lit "status", VStr (lit "online"))])),
     [], [])
  /\ Harmonizer.fetch (R:=Mock.e2e_runtime) 0
       (Harmonizer.mkRequest (lit "/harmonise") (lit "POST") None) Mock.env0 []
     = (Done (Harmonizer.mkResponse 404
                (VObj [(lit "ok", VBool false);
                       (lit "error", VStr (lit "Unknown endpoint"))])),
        [], [])
  /\ Harmonizer.fetch (R:=Mock.e2e_runtime) 0
       (Harmonizer.mkRequest (lit "/harmonize") (lit "GET") None) Mock.env0 []
     = (Done (Harmonizer.mkResponse 405
                (VObj [(lit "ok", VBool false);
                       (lit "error", VStr (lit "Only POST allowed"))])),
        [], []).
Proof.
  split; [|split].
  - apply (harmonizer_routes_requests Mock.e2e_runtime 0
             (Harmonizer.mkRequest (lit "/health") (lit "DELETE") None)).
    reflexivity.
  - apply (harmonizer_routes_requests Mock.e2e_runtime 0
             (Harmonizer.mkRequest (lit "/harmonise") (lit "POST") None));
      vm_compute; discriminate.
  - apply (harmonizer_routes_requests Mock.e2e_runtime 0
             (Harmonizer.mkRequest (lit "/harmonize") (lit "GET") None));
      [reflexivity|vm_compute; discriminate].
Defined.

(** X3 (no call without a complete request): whenever a run of the
    harmonizer worker issues a remote call, the request was a POST to
    [/harmonize] whose body could be read and destructured, the two
    credentials and the repository owner and name are present, and [paths]
    has a non-zero length. *)
Theorem calls_need_complete_request :
  forall (R : Runtime) (fuel : nat) (req : Harmonizer.Request)
         (env : Harmonizer.Env) (w : World R),
    snd (Harmonizer.fetch fuel req env w) <> [] ->
    Behaviour.routed req
    /\ exists b p,
         Harmonizer.req_json req = Some b
         /\ Harmonizer.destructure env b = inr p
         /\ Behaviour.complete env p.
Proof.
  intros R fuel req env w. unfold Harmonizer.fetch, Behaviour.routed.
  destruct (jstr_eqb (Harmonizer.pathname req) (lit "/health")); [simpl; congruence|].
  destruct (jstr_eqb (Harmonizer.pathname req) (lit "/harmonize")) eqn:Hp;
    [|simpl; congruence].
  destruct (jstr_eqb (Harmonizer.req_method req) (lit "POST")) eqn:Hm;
    [|simpl; congruence].
  apply jstr_eqb_eq in Hp, Hm. cbn [negb].
  destruct (Harmonizer.req_json req) as [b|]; [|simpl; congruence].
  unfold catch. rewrite run_bind_ret. unfold Harmonizer.harmonize.
  rewrite run_bind_lift.
  destruct (Harmonizer.destructure env b) as [e|p] eqn:Hd; [simpl; congruence|].
  rewrite run_bind_lift.
  destruct (Harmonizer.validate env p) as [e|[]] eqn:Hv; [simpl; congruence|].
  intros _. split; [now split|].
  exists b, p. split; [reflexivity|]. split; [exact Hd|].
  now apply validate_complete.
Qed.

Lemma calls_need_complete_request_witness :
  Behaviour.routed (Harmonizer.post (Mock.e2e_body false))
  /\ exists b p,
       Harmonizer.req_json (Harmonizer.post (Mock.e2e_body false)) = Some b
       /\ Harmonizer.destructure Mock.env0 b = inr p
       /\ Behaviour.complete Mock.env0 p.
Proof.
  apply (calls_need_complete_request Mock.e2e_runtime 3
           (Harmonizer.post (Mock.e2e_body false)) Mock.env0 Mock.e2e_script).
  vm_compute. discriminate.
Defined.

(** ** What makes a run abort *)

Section Aborts.
Import Harmonizer Behaviour.
Context {R : Runtime}.
Local Notation M := (M (R:=R)).
Local Notation sat := (sat (R:=R)).
Local Notation aborts := (aborts (R:=R)).

Lemma reports_nil {A} (o : outcome A) : reports (R:=R) o [].
Proof. intros t1 e t2 x H. destruct t1; discriminate. Qed.

Lemma reports_single {A} (o : outcome A) ev :
  (forall x, aborts ev x -> o = Raised x) -> reports (R:=R) o [ev].
Proof.
  intros H t1 e t2 x Ht Ha. destruct t1 as [|? [|? ?]]; try discriminate.
  injection Ht as <- <-. split; [reflexivity|]. now apply H.
Qed.

Lemma reports_cons_quiet {A} (o : outcome A) ev t :
  (forall x, ~ aborts ev x) -> reports (R:=R) o t -> reports (R:=R) o (ev :: t).
Proof.
  intros Hq Ht t1 e t2 x E Ha. destruct t1 as [|e1 t1]; simpl in E.
  - injection E as <- <-. destruct (Hq x Ha).
  - injection E as <- ->. exact (Ht t1 e t2 x eq_refl Ha).
Qed.

Lemma reports_app {A B} (a : A) (o : outcome B) t1 t2 :
  reports (R:=R) (Done a) t1 -> reports (R:=R) o t2 -> reports (R:=R) o (t1 ++ t2).
Proof.
  intros H1 H2 l1 e l2 x E Ha.
  apply app_eq_app in E. destruct E as (l & [[E1 E2]|[E1 E2]]).
  - destruct l as [|e' l].
    + simpl in E2. exact (H2 [] e l2 x (eq_sym E2) Ha).
    + simpl in E2. injection E2 as <- ->.
      destruct (H1 l1 e l x E1 Ha) as [_ Hra]. discriminate.
  - exact (H2 l e l2 x E2 Ha).
Qed.

Lemma reporting_ret {A} (a : A) : sat (ret a) (reports (R:=R)).
Proof. apply sat_ret, reports_nil. Qed.

Lemma reporting_throw {A} e : sat (throw (A:=A) e) (reports (R:=R)).
Proof. apply sat_throw, reports_nil. Qed.

Lemma reporting_diverge {A} : sat (diverge (A:=A)) (reports (R:=R)).
Proof. apply sat_diverge, reports_nil. Qed.

Lemma reporting_lift {A} (p : partial A) : sat (lift p) (reports (R:=R)).
Proof. apply sat_lift; intros; apply reports_nil. Qed.

Lemma reporting_now : sat now (reports (R:=R)).
Proof. apply sat_now. intros. apply reports_nil. Qed.

Lemma reporting_bind {A B} (m : M A) (k : A -> M B) :
  sat m (reports (R:=R)) -> (forall a, sat (k a) (reports (R:=R))) ->
  sat (bind m k) (reports (R:=R)).
Proof.
  intros Hm Hk. eapply sat_bind.
  - exact Hm.
  - intros a t1 H1. eapply sat_weaken; [apply Hk|].
    intros o t H2. eapply reports_app; eauto.
  - intros e t1 H1 l1 ev l2 x E Ha.
    destruct (H1 l1 ev l2 x E Ha) as [-> Hx]. split; [reflexivity|].
    congruence.
  - intros t1 H1 l1 ev l2 x E Ha.
    destruct (H1 l1 ev l2 x E Ha) as [_ Hx]. discriminate.
Qed.

Lemma reporting_for_of {A St} (body : A -> St -> M St) l s :
  (forall x s', sat (body x s') (reports (R:=R))) ->
  sat (for_of body l s) (reports (R:=R)).
Proof.
  intros Hb. revert s. induction l as [|x l IH]; intros s; simpl.
  - apply reporting_ret.
  - apply reporting_bind; auto.
Qed.

(** A [fetch] followed by what is done with the response. *)
Lemma sat_fetch_then {A} c (k : Reply -> M A) (Q : outcome A -> list Event -> Prop) :
  Q (Raised TypeError) [(c, Rejected)] ->
  (forall r, sat (k r) (fun o t2 => Q o ((c, Replied r) :: t2))) ->
  sat (bind (net_fetch c) k) Q.
Proof.
  intros Hrej Hrep w. unfold bind, net_fetch.
  destruct (network R w c) as [w1 [|r]].
  - exact Hrej.
  - specialize (Hrep r w1). destruct (k r w1) as [[o w2] t2]. exact Hrep.
Qed.

Lemma request_reporting token at_ m u b :
  at_ <> ModelCall -> at_ <> PushFetch ->
  sat (request token at_ m u b) (reports (R:=R)).
Proof.
  intros Hm Hp w.
  destruct (request_run token at_ m u b w) as (w1 & n & _ & Ht & _ & Ho).
  rewrite Ht, Ho. apply reports_single. intros x Ha.
  inversion Ha as [c r Hf Hok|c Hs|c r Hs Hok Hj
                  |c r meta content size e Hs Hok Hj Hc Htr Hsz Hgt Hd]; subst.
  - rewrite Hok. unfold failure_message. simpl.
    destruct at_; try reflexivity; congruence.
  - reflexivity.
  - rewrite Hok, Hj. reflexivity.
  - simpl in Hs. congruence.
Qed.

Lemma quiet_probe c n x : site c = Probe -> ~ aborts (c, n) x.
Proof.
  intros Hs Ha.
  inversion Ha as [c' r Hf Hok|c' Hs'|c' r Hs' Hok Hj
                  |c' r meta content size e Hs' Hok Hj Hc Htr Hsz Hgt Hd]; subst;
    try congruence.
  rewrite Hs in Hf. discriminate.
Qed.

Lemma probe_reporting token putURL newBranch :
  sat (probe (ghClient token) putURL newBranch) (reports (R:=R)).
Proof.
  intros w.
  destruct (probe_run token putURL newBranch w) as (w1 & n & v & Hp & _).
  rewrite Hp. apply reports_single. intros x Ha.
  now apply quiet_probe in Ha.
Qed.

Lemma commit_file_reporting token owner repo newBranch file acc :
  sat (commit_file (ghClient token) owner repo newBranch file acc) (reports (R:=R)).
Proof.
  unfold commit_file, ghPut.
  repeat (apply reporting_bind; [apply reporting_lift|intros ?]).
  apply reporting_bind; [apply probe_reporting|intros existingSha].
  apply reporting_bind; [apply request_reporting; discriminate|intros res].
  apply reporting_bind; [apply reporting_lift|intros ?].
  apply reporting_ret.
Qed.

Lemma apply_changes_reporting env p hr :
  sat (apply_changes env p hr) (reports (R:=R)).
Proof.
  unfold apply_changes, ghGet, ghPost. cbv zeta. unfold ghClient at 1 2 4.
  apply reporting_bind; [apply request_reporting; discriminate|intros baseRef].
  repeat (apply reporting_bind; [apply reporting_lift|intros ?]).
  apply reporting_bind; [apply reporting_now|intros t].
  apply reporting_bind; [apply request_reporting; discriminate|intros _].
  repeat (apply reporting_bind; [apply reporting_lift|intros ?]).
  apply reporting_bind.
  { apply reporting_for_of. intros. apply commit_file_reporting. }
  intros updateResults.
  apply reporting_bind; [apply reporting_lift|intros ?].
  apply reporting_bind; [apply request_reporting; discriminate|intros pr].
  repeat (apply reporting_bind; [apply reporting_lift|intros ?]).
  apply reporting_ret.
Qed.

Lemma callOpenAIHarmonizer_reporting apiKey owner repo baseBranch note files :
  sat (callOpenAIHarmonizer apiKey owner repo baseBranch note files)
      (reports (R:=R)).
Proof.
  unfold callOpenAIHarmonizer. apply sat_fetch_then.
  - apply reports_single. intros x Ha. inversion Ha; subst. reflexivity.
  - intros r. destruct (res_ok r) eqn:Hok; cbn [negb].
    + unfold json_of. destruct (res_json r) as [j|] eqn:Hj.
      * assert (Hquiet : forall (o : outcome value),
                  reports (R:=R) o
                    [(mkCall ModelCall POST
                        (lit "https://api.openai.com/v1/chat/completions")
                        (bearer apiKey)
                        (Some (model_body owner repo baseBranch note files)),
                      Replied r)]).
        { intros o. apply reports_single. intros x Ha.
          inversion Ha; subst; simpl in *; congruence. }
        intros w. rewrite run_bind_ret.
        repeat (rewrite run_bind_lift;
                match goal with
                | |- context [match ?p with inl _ => _ | inr _ => _ end] =>
                    destruct p; [apply Hquiet|]
                end).
        destruct (JSON_parse R _); apply Hquiet.
      * intros w. rewrite run_bind_throw. simpl.
        apply reports_single. intros x Ha.
        inversion Ha; subst; simpl in *; try congruence.
    + apply sat_throw. apply reports_single. intros x Ha.
      inversion Ha; subst; simpl in *; try congruence. reflexivity.
Qed.

Lemma sat_ret_bind {A B} (a : A) (k : A -> M B) Q :
  sat (k a) Q -> sat (bind (ret a) k) Q.
Proof. intros H w. rewrite run_bind_ret. apply H. Qed.

Lemma sat_throw_bind {A B} e (k : A -> M B) (Q : outcome B -> list Event -> Prop) :
  Q (Raised e) [] -> sat (bind (throw e) k) Q.
Proof. intros H w. rewrite run_bind_throw. exact H. Qed.

Lemma pushFile_reporting owner repo branch path token out :
  sat (pushFile owner repo branch path token out) (reports (R:=R)).
Proof.
  unfold pushFile.
  apply reporting_bind; [apply reporting_lift|intros u].
  apply sat_fetch_then.
  { apply reports_single. intros x Ha. inversion Ha; subst. reflexivity. }
  intros r w. destruct (res_ok r) eqn:Hok; cbn [negb].
  2:{ apply reports_single. intros x Ha.
      inversion Ha; subst; simpl in *; congruence. }
  unfold json_of. destruct (res_json r) as [meta|] eqn:Hj.
  2:{ rewrite run_bind_throw. apply reports_single. intros x Ha.
      inversion Ha; subst; simpl in *; congruence. }
  rewrite run_bind_ret, run_bind_lift.
  destruct (get meta (lit "content")) as [e|content] eqn:Hc.
  { apply reports_single. intros x Ha.
    inversion Ha; subst; simpl in *; congruence. }
  destruct (truthy content) eqn:Ht; cbn [negb].
  2:{ apply reports_single. intros x Ha.
      inversion Ha; subst; simpl in *; congruence. }
  rewrite run_bind_lift.
  destruct (get meta (lit "size")) as [e|size] eqn:Hsz.
  { apply reports_single. intros x Ha.
    inversion Ha; subst; simpl in *; congruence. }
  destruct (js_gt size size_threshold) eqn:Hgt.
  { apply reports_single. intros x Ha.
    inversion Ha; subst; simpl in *; congruence. }
  rewrite run_bind_lift.
  destruct (base64decode (toStr content)) as [e|decoded] eqn:Hd.
  - apply reports_single. intros x Ha.
    inversion Ha; subst; simpl in *; congruence.
  - apply reports_single. intros x Ha.
    inversion Ha; subst; simpl in *; congruence.
Qed.

Lemma crawlGitHubDir_reporting fuel : forall owner repo branch path token out,
  sat (crawlGitHubDir fuel owner repo branch path token out) (reports (R:=R)).
Proof.
  induction fuel as [|fuel IH]; intros owner repo branch path token out; simpl.
  { apply reporting_diverge. }
  apply reporting_bind; [apply reporting_lift|intros u].
  apply sat_fetch_then.
  { apply reports_single. intros x Ha. inversion Ha; subst. reflexivity. }
  intros r. destruct (res_ok r) eqn:Hok; cbn [negb].
  2:{ apply sat_ret. apply reports_single. intros x Ha.
      inversion Ha; subst; simpl in *; congruence. }
  unfold json_of. destruct (res_json r) as [data|] eqn:Hj.
  2:{ apply sat_throw_bind. apply reports_single. intros x Ha.
      inversion Ha; subst; simpl in *; congruence. }
  apply sat_ret_bind.
  apply sat_weaken with (P := reports (R:=R)).
  2:{ intros o t Ht. apply reports_cons_quiet; [|exact Ht].
      intros x Ha. inversion Ha; subst; simpl in *; congruence. }
  apply reporting_bind.
  { destruct data; try apply reporting_ret.
    apply reporting_for_of. intros item acc.
    apply reporting_bind; [apply reporting_lift|intros ty].
    destruct (is_str ty (lit "dir")).
    - apply reporting_bind; [apply reporting_lift|intros p]. apply IH.
    - destruct (is_str ty (lit "file")); [|apply reporting_ret].
      apply reporting_bind; [apply reporting_lift|intros p].
      apply pushFile_reporting. }
  intros out1.
  apply reporting_bind; [apply reporting_lift|intros ty].
  destruct (is_str ty (lit "file")); [|apply reporting_ret].
  apply reporting_bind; [apply reporting_lift|intros p].
  apply pushFile_reporting.
Qed.

Lemma harmonize_reporting fuel env b :
  sat (harmonize fuel env b) (reports (R:=R)).
Proof.
  unfold harmonize.
  apply reporting_bind; [apply reporting_lift|intros p].
  apply reporting_bind; [apply reporting_lift|intros _].
  apply reporting_bind.
  { unfold collect. apply reporting_bind; [apply reporting_lift|intros items].
    apply reporting_for_of. intros path out. apply crawlGitHubDir_reporting. }
  intros collected. destruct collected as [|f fs]; [apply reporting_ret|].
  apply reporting_bind; [apply callOpenAIHarmonizer_reporting|intros hr].
  apply reporting_bind; [apply reporting_lift|intros files].
  destruct (negb _); [apply reporting_ret|].
  destruct (negb _).
  - apply reporting_bind; [apply reporting_lift|intros summary].
    apply reporting_ret.
  - apply apply_changes_reporting.
Qed.

(** Every run of the handler ends on the first answer that makes it abort,
    and is answered with the error that answer raised. *)
Lemma fetch_reports fuel req env (w : World R) t1 e t2 x :
  snd (fetch fuel req env w) = t1 ++ e :: t2 ->
  aborts e x ->
  t2 = [] /\ fst (fst (fetch fuel req env w)) = Done (error_response (R:=R) x).
Proof.
  revert w t1 e t2 x.
  change (sat (fetch fuel req env)
            (fun o t => forall t1 e t2 x,
               t = t1 ++ e :: t2 -> aborts e x ->
               t2 = [] /\ o = Done (error_response (R:=R) x))).
  unfold fetch.
  destruct (jstr_eqb _ _);
    [apply sat_ret; intros t1 e t2 x E; destruct t1; discriminate|].
  destruct (negb _);
    [apply sat_ret; intros t1 e t2 x E; destruct t1; discriminate|].
  destruct (negb _);
    [apply sat_ret; intros t1 e t2 x E; destruct t1; discriminate|].
  apply sat_catch with (P := reports (R:=R)).
  - apply reporting_bind.
    + destruct (req_json req); [apply reporting_ret|apply reporting_throw].
    + intros b. apply harmonize_reporting.
  - intros a t Hr t1 e t2 x E Ha.
    destruct (Hr t1 e t2 x E Ha) as [_ H]. discriminate.
  - intros e' t Hr. apply sat_ret. rewrite app_nil_r.
    intros t1 e t2 x E Ha.
    destruct (Hr t1 e t2 x E Ha) as [-> H]. split; [reflexivity|]. congruence.
  - intros t Hr t1 e t2 x E Ha.
    destruct (Hr t1 e t2 x E Ha) as [_ H]. discriminate.
Qed.

End Aborts.

Lemma lit_cons a s : lit (String a s) = Z.of_N (N_of_ascii a) :: lit s.
Proof. reflexivity. Qed.

Lemma failure_message_nonempty c r : Behaviour.failure_message c r <> [].
Proof.
  unfold Behaviour.failure_message. destruct (site c); rewrite lit_cons; discriminate.
Qed.

(** X4 (a refused step is reported): when the model service, the
    base-branch lookup, the branch creation, a file write or the
    pull-request creation is answered with a status outside 200-299, that
    call is the last one of the run and the worker answers with status 500
    and an error message that relays the status and the text of the refusal
    ([GitHub <METHOD> failed: <status> <text>], or [OpenAI Error: <status>
    <text>] for the model service). *)
Theorem refused_step_is_reported :
  forall (R : Runtime) (fuel : nat) (req : Harmonizer.Request)
         (env : Harmonizer.Env) (w : World R)
         (t1 : list Event) (c : Call) (r : Reply) (t2 : list Event),
    snd (Harmonizer.fetch fuel req env w) = t1 ++ (c, Replied r) :: t2 ->
    Behaviour.fatal (site c) = true ->
    res_ok r = false ->
    t2 = []
    /\ fst (fst (Harmonizer.fetch fuel req env w))
       = Done (Spec.failure (Behaviour.failure_message c r)).
Proof.
  intros R fuel req env w t1 c r t2 Ht Hf Hok.
  destruct (fetch_reports fuel req env w t1 (c, Replied r) t2
              (Error (Behaviour.failure_message c r)) Ht) as [H1 H2].
  { now constructor. }
  split; [exact H1|]. rewrite H2. f_equal.
  apply error_response_failure, failure_message_nonempty.
Qed.

Lemma refused_step_is_reported_witness :
  fst (fst (Harmonizer.fetch (R:=Mock.e2e_runtime) 3
              (Harmonizer.post (Mock.e2e_body true)) Mock.env0 Cases.refused_script))
  = Done (Spec.failure (lit "GitHub GET failed: 500 boom")).
Proof.
  exact (proj2 (refused_step_is_reported Mock.e2e_runtime 3
                  (Harmonizer.post (Mock.e2e_body true)) Mock.env0
                  Cases.refused_script
                  (firstn 3 (snd (Harmonizer.fetch (R:=Mock.e2e_runtime) 3
                                    (Harmonizer.post (Mock.e2e_body true)) Mock.env0
                                    Cases.refused_script)))
                  Cases.base_ref_call Cases.refusal [] eq_refl eq_refl eq_refl)).
Defined.

(** X5 (a remote breakdown ends the run): when a [fetch] rejects, or a
    successful reply carries no JSON body, anywhere but in the existence
    probe, that call is the last one of the run and the worker answers with
    [{ ok: false, error }] and status 500, the error being the message of
    the error the runtime raised (a [TypeError] for the rejection, a
    [SyntaxError] for the body). *)
Theorem remote_breakdown_ends_the_run :
  forall (R : Runtime) (fuel : nat) (req : Harmonizer.Request)
         (env : Harmonizer.Env) (w : World R)
         (t1 : list Event) (c : Call) (n : Net) (t2 : list Event),
    snd (Harmonizer.fetch fuel req env w) = t1 ++ (c, n) :: t2 ->
    site c <> Probe ->
    (forall r, n = Replied r -> res_ok r = true /\ res_json r = None) ->
    t2 = []
    /\ fst (fst (Harmonizer.fetch fuel req env w))
       = Done (Spec.failure
                 (engine_text R (match n with
                                 | Rejected => TypeError
                                 | Replied _ => SyntaxError
                                 end))).
Proof.
  intros R fuel req env w t1 c n t2 Ht Hs Hn.
  destruct n as [|r].
  - apply (fetch_reports fuel req env w t1 (c, Rejected) t2 TypeError Ht).
    now constructor.
  - apply (fetch_reports fuel req env w t1 (c, Replied r) t2 SyntaxError Ht).
    destruct (Hn r eq_refl) as [Hok Hj]. now constructor.
Qed.

Lemma remote_breakdown_ends_the_run_witness :
  fst (fst (Harmonizer.fetch (R:=Mock.e2e_runtime) 3
              (Harmonizer.post (Mock.e2e_body true)) Mock.env0 Cases.garbled_script))
  = Done (Spec.failure (lit "runtime error")).
Proof.
  refine (proj2 (remote_breakdown_ends_the_run Mock.e2e_runtime 3
                   (Harmonizer.post (Mock.e2e_body true)) Mock.env0
                   Cases.garbled_script
                   (firstn 2 (snd (Harmonizer.fetch (R:=Mock.e2e_runtime) 3
                                     (Harmonizer.post (Mock.e2e_body true)) Mock.env0
                                     Cases.garbled_script)))
                   (fst (last (snd (Harmonizer.fetch (R:=Mock.e2e_runtime) 3
                                      (Harmonizer.post (Mock.e2e_body true)) Mock.env0
                                      Cases.garbled_script))
                           (Cases.base_ref_call, Rejected)))
                   (Replied Cases.garbled) [] eq_refl _ _)).
  - vm_compute. discriminate.
  - intros r [= <-]. split; reflexivity.
Defined.

(** ** Where the calls go *)

Section Addressing.
Import Harmonizer Spec Behaviour.
Context {R : Runtime}.
Local Notation M := (M (R:=R)).
Local Notation only := (only (R:=R)).

Lemma prefix_of_app p s : prefix_of p (p ++ s) = true.
Proof.
  unfold prefix_of. replace (firstn (List.length p) (p ++ s)) with p.
  - apply jstr_eqb_refl.
  - induction p as [|c p IH]; simpl; [reflexivity|]. now rewrite <- IH.
Qed.

Lemma prefix_repo_url o r x rest :
  prefix_of (repo_url o r (lit "/")) (repo_url o r (lit "/" ++ x) ++ rest) = true.
Proof.
  unfold repo_url.
  replace ((api_repos ++ toStr o ++ lit "/" ++ toStr r ++ lit "/" ++ x) ++ rest)
    with ((api_repos ++ toStr o ++ lit "/" ++ toStr r ++ lit "/") ++ x ++ rest).
  - apply prefix_of_app.
  - rewrite <- !app_assoc. reflexivity.
Qed.

Lemma contents_url_inv o r path u :
  contents_url o r path = inr u ->
  exists enc, u = repo_url o r (lit "/" ++ lit "contents/" ++ enc).
Proof.
  unfold contents_url. destruct (encodeURIComponent (toStr path)) as [e|enc];
    [discriminate|].
  intros [= <-]. exists enc. reflexivity.
Qed.

Lemma only_lift_bind {A B} (P : Call -> bool) (p : partial A) (k : A -> M B) :
  (forall a, p = inr a -> only P (k a)) -> only P (bind (lift p) k).
Proof.
  intros H w. rewrite run_bind_lift. destruct p as [e|a].
  - constructor.
  - now apply H.
Qed.

Variable env : Env.
Variable p : Params.

Lemma addressed_github s m x rest b :
  s <> ModelCall ->
  addressed env p
    (mkCall s m (repo_url (owner p) (repo p) (lit "/" ++ x) ++ rest)
       (bearer (GITHUB_TOKEN env)) b) = true.
Proof.
  intros Hs. unfold addressed. cbn [site url auth].
  rewrite prefix_repo_url, jstr_eqb_refl.
  destruct s; try reflexivity. congruence.
Qed.

Lemma addressed_github_whole s m x b :
  s <> ModelCall ->
  addressed env p
    (mkCall s m (repo_url (owner p) (repo p) (lit "/" ++ x))
       (bearer (GITHUB_TOKEN env)) b) = true.
Proof.
  intros Hs.
  rewrite <- (app_nil_r (repo_url (owner p) (repo p) (lit "/" ++ x))).
  now apply addressed_github.
Qed.

Lemma pushFile_addressed path out :
  only (addressed env p)
    (pushFile (owner p) (repo p) (baseBranch p) path (GITHUB_TOKEN env) out).
Proof.
  unfold pushFile. apply only_lift_bind. intros u Hu.
  apply contents_url_inv in Hu. destruct Hu as (enc & ->).
  apply only_bind.
  - apply only_net_fetch. apply addressed_github. discriminate.
  - intros res. repeat only_step.
Qed.

Lemma crawlGitHubDir_addressed fuel : forall path out,
  only (addressed env p)
    (crawlGitHubDir fuel (owner p) (repo p) (baseBranch p) path (GITHUB_TOKEN env) out).
Proof.
  induction fuel as [|fuel IH]; intros path out; simpl.
  { apply only_diverge. }
  apply only_lift_bind. intros u Hu.
  apply contents_url_inv in Hu. destruct Hu as (enc & ->).
  apply only_bind.
  - apply only_net_fetch. apply addressed_github. discriminate.
  - intros res. repeat first [ apply IH | apply pushFile_addressed | only_step ].
Qed.

Lemma request_addressed s m x b :
  s <> ModelCall ->
  only (addressed env p)
    (request (GITHUB_TOKEN env) s m (repo_url (owner p) (repo p) (lit "/" ++ x)) b).
Proof.
  intros Hs. unfold request. apply only_bind.
  - apply only_net_fetch. now apply addressed_github_whole.
  - intros res. repeat only_step.
Qed.

Lemma commit_file_addressed newBranch file acc :
  only (addressed env p)
    (commit_file (ghClient (GITHUB_TOKEN env)) (owner p) (repo p) newBranch file acc).
Proof.
  unfold commit_file.
  do 3 (apply only_bind; [apply only_lift|intros ?]).
  apply only_lift_bind. intros u Hu.
  apply contents_url_inv in Hu. destruct Hu as (enc & ->).
  apply only_bind.
  { unfold probe, ghGet, ghClient, request.
    apply only_catch; [|intros ?; apply only_ret].
    apply only_bind; [|intros ?; apply only_lift].
    apply only_bind.
    - apply only_net_fetch. apply addressed_github. discriminate.
    - intros res. repeat only_step. }
  intros existingSha. apply only_bind.
  { unfold ghPut, ghClient. apply request_addressed. discriminate. }
  intros res. repeat only_step.
Qed.

Lemma apply_changes_addressed hr :
  only (addressed env p) (apply_changes env p hr).
Proof.
  unfold apply_changes, ghGet, ghPost. cbv zeta. unfold ghClient at 1 2 4.
  apply only_bind.
  { change (lit "/git/ref/heads/" ++ toStr (baseBranch p))
      with (lit "/" ++ lit "git/ref/heads/" ++ toStr (baseBranch p)).
    apply request_addressed. discriminate. }
  intros baseRef.
  repeat (apply only_bind; [apply only_lift|intros ?]).
  apply only_bind; [apply only_now|intros t].
  apply only_bind.
  { change (lit "/git/refs") with (lit "/" ++ lit "git/refs").
    apply request_addressed. discriminate. }
  intros _.
  repeat (apply only_bind; [apply only_lift|intros ?]).
  apply only_bind.
  { apply only_for_of. intros. apply commit_file_addressed. }
  intros updateResults.
  apply only_bind; [apply only_lift|intros ?].
  apply only_bind.
  { change (lit "/pulls") with (lit "/" ++ lit "pulls").
    apply request_addressed. discriminate. }
  intros pr. repeat only_step.
Qed.

Lemma callOpenAIHarmonizer_addressed files :
  only (addressed env p)
    (callOpenAIHarmonizer (OPENAI_API_KEY env) (owner p) (repo p) (baseBranch p)
       (note p) files).
Proof.
  unfold callOpenAIHarmonizer. apply only_bind.
  - apply only_net_fetch. unfold addressed. cbn [site url auth].
    now rewrite !jstr_eqb_refl.
  - intros res. repeat only_step.
Qed.

End Addressing.



(** ** The phases of a run *)

Section Phases.
Import Harmonizer Spec Behaviour.
Context {R : Runtime}.
Local Notation M := (M (R:=R)).
Local Notation sat := (sat (R:=R)).
Local Notation only := (only (R:=R)).

(** The model call is one call, and completes only on a successful reply. *)
Lemma callOpenAIHarmonizer_run apiKey owner repo baseBranch note files (w : World R) :
  let c := mkCall ModelCall POST (lit "https://api.openai.com/v1/chat/completions")
             (bearer apiKey) (Some (model_body owner repo baseBranch note files)) in
  let run := callOpenAIHarmonizer apiKey owner repo baseBranch note files w in
  exists n,
    snd run = [(c, n)]
    /\ forall hr, fst (fst run) = Done hr ->
         exists r, n = Replied r /\ res_ok r = true.
Proof.
  cbv zeta.
  destruct (callOpenAIHarmonizer apiKey owner repo baseBranch note files w)
    as [[o w'] t] eqn:Hrun.
  cbn [fst snd]. unfold callOpenAIHarmonizer, bind at 1, net_fetch in Hrun.
  destruct (network R w _) as [w1 [|r]].
  { injection Hrun as <- <- <-. exists Rejected. split; [reflexivity|]. discriminate. }
  exists (Replied r). destruct (res_ok r) eqn:Hok; cbn [negb] in Hrun.
  2:{ injection Hrun as <- <- <-. split; [reflexivity|]. discriminate. }
  split; [|intros hr _; exists r; split; [reflexivity|exact Hok]].
  assert (Hpure : forall (k : M value),
            (forall w', snd (k w') = []) ->
            forall c,
              (let '(o, w2, t2) := k w1 in (o, w2, [(c, Replied r)] ++ t2))
              = (o, w', t) ->
              t = [(c, Replied r)]).
  { intros k Hk c E. specialize (Hk w1). destruct (k w1) as [[o2 w2] t2].
    simpl in Hk. subst t2. now injection E as <- <- <-. }
  refine (Hpure _ _ _ Hrun). clear.
  intros w'. unfold json_of.
  destruct (res_json r) as [j|]; [rewrite run_bind_ret|reflexivity].
  repeat (rewrite run_bind_lift;
          match goal with
          | |- context [match ?p with inl _ => _ | inr _ => _ end] =>
              destruct p; [reflexivity|]
          end).
  destruct (JSON_parse R _); reflexivity.
Qed.

Lemma commit_file_applies token owner repo newBranch file acc :
  only (at_sites applier_site)
    (commit_file (ghClient token) owner repo newBranch file acc).
Proof.
  unfold commit_file, probe, ghGet, ghPut, ghClient, request. repeat only_step.
Qed.

Lemma apply_changes_applies env p hr :
  only (at_sites applier_site) (apply_changes env p hr).
Proof.
  unfold apply_changes, ghGet, ghPost.
  repeat first [ apply only_for_of; intros ? ?; apply commit_file_applies
               | progress unfold ghClient, request
               | only_step ].
Qed.

Lemma phased_collecting t :
  calls_in (at_sites collector_site) t -> phased t.
Proof.
  intros H. exists t, [], []. rewrite app_nil_r.
  repeat split; auto; try constructor. intros E. congruence.
Qed.

Lemma phased_asking t c n :
  calls_in (at_sites collector_site) t -> site c = ModelCall ->
  phased (t ++ [(c, n)]).
Proof.
  intros H Hc. exists t, [(c, n)], []. rewrite app_nil_r.
  repeat split; auto; try constructor.
  - unfold at_sites. simpl. now rewrite Hc.
  - constructor.
  - intros E. congruence.
Qed.

Lemma phased_applying t c r ta :
  calls_in (at_sites collector_site) t -> site c = ModelCall ->
  res_ok r = true -> calls_in (at_sites applier_site) ta ->
  phased (t ++ [(c, Replied r)] ++ ta).
Proof.
  intros H Hc Hok Ha. exists t, [(c, Replied r)], ta.
  repeat split; auto.
  - constructor; [|constructor]. unfold at_sites. simpl. now rewrite Hc.
  - intros _. exists c, r. split; [reflexivity|exact Hok].
Qed.

Lemma harmonize_phased fuel env b :
  sat (harmonize fuel env b) (fun _ t => phased t).
Proof.
  unfold harmonize. intros w.
  rewrite run_bind_lift.
  destruct (destructure env b) as [e|p]; [apply phased_collecting; constructor|].
  rewrite run_bind_lift.
  destruct (validate env p) as [e|[]]; [apply phased_collecting; constructor|].
  pose proof (collect_only fuel env p w) as Hc.
  unfold bind at 1.
  destruct (collect fuel env p w) as [[[collected|e|] w1] t1]; simpl in Hc;
    [|now apply phased_collecting|now apply phased_collecting].
  destruct collected as [|f fs].
  { simpl. rewrite app_nil_r. now apply phased_collecting. }
  set (files := firstn file_cap (f :: fs)).
  destruct (callOpenAIHarmonizer_run (OPENAI_API_KEY env) (owner p) (repo p)
              (baseBranch p) (note p) files w1) as (n & Ht & Hdone).
  unfold bind at 1.
  destruct (callOpenAIHarmonizer (OPENAI_API_KEY env) (owner p) (repo p)
              (baseBranch p) (note p) files w1) as [[[hr|e|] w2] t2];
    simpl in Ht, Hdone; subst t2;
    [|now apply phased_asking|now apply phased_asking].
  destruct (Hdone hr eq_refl) as (r & -> & Hok).
  rewrite run_bind_lift.
  destruct (get hr (lit "files")) as [e|fls].
  { cbn [fst snd app]. now apply phased_asking. }
  destruct (negb (truthy (get_opt fls length_key))).
  { cbn [fst snd app]. now apply phased_asking. }
  destruct (negb (truthy (apply p))).
  { rewrite run_bind_lift. destruct (get hr (lit "summary"));
      cbn [fst snd app]; now apply phased_asking. }
  pose proof (apply_changes_applies env p hr w2) as Ha.
  destruct (apply_changes env p hr w2) as [[o3 w3] t3]. cbn [fst snd] in Ha |- *.
  now apply phased_applying.
Qed.

Lemma fetch_phased fuel req env (w : World R) : phased (snd (fetch fuel req env w)).
Proof.
  unfold fetch.
  destruct (jstr_eqb _ _); [apply phased_collecting; constructor|].
  destruct (negb _); [apply phased_collecting; constructor|].
  destruct (negb _); [apply phased_collecting; constructor|].
  destruct (req_json req) as [b|].
  - unfold catch. rewrite run_bind_ret.
    pose proof (harmonize_phased fuel env b w) as H.
    destruct (harmonize fuel env b w) as [[[r|e|] w1] t1]; simpl in H |- *; auto.
    now rewrite app_nil_r.
  - apply phased_collecting; constructor.
Qed.

End Phases.

(** A run whose last call is a collection call made collection calls
    only. *)
Lemma ends_collecting t t1 e :
  t = t1 ++ [e] ->
  Spec.at_sites Spec.collector_site (fst e) = true ->
  Behaviour.phased t -> Spec.no_model_call t.
Proof.
  intros Ht He (tc & tm & ta & E & Hc & Hm & _ & Ha & _).
  assert (Hrest : tm ++ ta = []).
  { destruct (tm ++ ta) as [|x l] eqn:Hl; [reflexivity|]. exfalso.
    assert (Hne : x :: l <> []) by discriminate.
    destruct (exists_last Hne) as (l' & a & Hla). rewrite Hla in Hl, E.
    rewrite Ht, app_assoc in E.
    apply app_inj_tail in E. destruct E as [_ <-].
    assert (Hin : In e (tm ++ ta)) by (rewrite Hl; apply in_or_app; right; now left).
    apply in_app_or in Hin. unfold Spec.calls_in in Hm, Ha.
    rewrite Forall_forall in Hm, Ha.
    unfold Spec.at_sites in *. destruct Hin as [Hin|Hin].
    - specialize (Hm _ Hin). destruct (site (fst e)); simpl in *; congruence.
    - specialize (Ha _ Hin). destruct (site (fst e)); simpl in *; congruence. }
  rewrite Hrest, app_nil_r in E. subst t. rewrite E.
  now apply sites_no_model.
Qed.

(** X8 (three phases): the calls of every run of the harmonizer worker are
    the calls of the collection (listings and file reads), followed by at
    most one call of the model service, followed by the calls of the apply
    step (reference lookup, branch, probes, writes, pull request); the
    apply step is entered only after a model call that was answered
    successfully. *)
Theorem run_has_three_phases :
  forall (R : Runtime) (fuel : nat) (req : Harmonizer.Request)
         (env : Harmonizer.Env) (w : World R),
    Behaviour.phased (snd (Harmonizer.fetch fuel req env w)).
Proof. intros. apply fetch_phased. Qed.

(** What [base64decode] throws comes from [atob] or from
    [decodeURIComponent]. *)
Lemma base64decode_error s e :
  base64decode s = inl e -> e = InvalidCharacterError \/ e = URIError.
Proof.
  unfold base64decode, pbind, atob, decodeURIComponent.
  destruct (_ =? 1); [intros [= <-]; now left|].
  destruct (sextets _); [|intros [= <-]; now left].
  destruct (Decode _ _); [discriminate|intros [= <-]; now right].
Qed.

(** X6 (an undecodable file ends the run): when the content of a file that
    is neither empty nor oversized cannot be decoded (it is not base64, or
    its octets are not UTF-8), the read of that file is the last call of the
    run and the worker answers with [{ ok: false, error }] and status 500,
    the error being the message of the decoding error: the file is not
    passed over, and the model service is not called. *)
Theorem undecodable_file_ends_the_run :
  forall (R : Runtime) (fuel : nat) (req : Harmonizer.Request)
         (env : Harmonizer.Env) (w : World R)
         (t1 : list Event) (c : Call) (r : Reply) (t2 : list Event)
         (meta content size : value) (e : exn),
    snd (Harmonizer.fetch fuel req env w) = t1 ++ (c, Replied r) :: t2 ->
    site c = PushFetch ->
    res_ok r = true ->
    res_json r = Some meta ->
    get meta (lit "content") = inr content ->
    truthy content = true ->
    get meta (lit "size") = inr size ->
    Harmonizer.js_gt (R:=R) size Harmonizer.size_threshold = false ->
    base64decode (toStr content) = inl e ->
    t2 = []
    /\ fst (fst (Harmonizer.fetch fuel req env w))
       = Done (Spec.failure (engine_text R e))
    /\ Spec.no_model_call (snd (Harmonizer.fetch fuel req env w)).
Proof.
  intros R fuel req env w t1 c r t2 meta content size e Ht Hs Hok Hj Hc Htr Hsz Hgt Hd.
  destruct (fetch_reports fuel req env w t1 (c, Replied r) t2 e Ht) as [H1 H2].
  { econstructor; eauto. }
  split; [exact H1|]. split.
  { rewrite H2. destruct (base64decode_error _ _ Hd) as [-> | ->]; reflexivity. }
  subst t2.
  apply (ends_collecting _ _ _ Ht).
  - unfold Spec.at_sites. simpl. now rewrite Hs.
  - apply fetch_phased.
Qed.

Lemma undecodable_file_ends_the_run_witness :
  fst (fst (Harmonizer.fetch (R:=Mock.e2e_runtime) 3
              (Harmonizer.post (Mock.e2e_body true)) Mock.env0 Cases.binary_script))
  = Done (Spec.failure (lit "runtime error")).
Proof.
  exact (proj1 (proj2 (undecodable_file_ends_the_run Mock.e2e_runtime 3
                  (Harmonizer.post (Mock.e2e_body true)) Mock.env0
                  Cases.binary_script
                  (firstn 1 (snd (Harmonizer.fetch (R:=Mock.e2e_runtime) 3
                                    (Harmonizer.post (Mock.e2e_body true)) Mock.env0
                                    Cases.binary_script)))
                  Cases.a_txt_call Cases.binary_reply []
                  Cases.binary_meta (Mock.str "/w==") (VNum 1) URIError
                  eq_refl eq_refl eq_refl eq_refl eq_refl eq_refl eq_refl eq_refl
                  eq_refl))).
Defined.


(** ** How often a step is taken *)

Section Counting.
Import Spec Behaviour.

Lemma count_site_cons s e t :
  count_site s (e :: t) = ((if from_site s e then 1 else 0) + count_site s t)%nat.
Proof. unfold count_site. simpl. destruct (from_site s e); reflexivity. Qed.

Lemma count_site_app s t1 t2 :
  count_site s (t1 ++ t2) = (count_site s t1 + count_site s t2)%nat.
Proof. unfold count_site. now rewrite filter_app, length_app. Qed.

Lemma count_site_none s (P : Site -> bool) t :
  P s = false -> calls_in (at_sites P) t -> count_site s t = 0%nat.
Proof.
  intros Hs. induction 1 as [|e t He _ IH]; [reflexivity|].
  rewrite count_site_cons, IH. unfold at_sites in He. unfold from_site.
  destruct (site (fst e)), s; simpl in *; congruence.
Qed.

Lemma count_site_le_length s t : (count_site s t <= List.length t)%nat.
Proof. unfold count_site. apply filter_length_le. Qed.

(** A trace the sequencing automaton accepts takes each of its one-off steps
    at most once. *)
Lemma runs_counts t : forall s s',
  runs s t = Some s' ->
  (count_site BaseRef t <= match s with Reading => 1 | _ => 0 end)%nat
  /\ (count_site CreateBranch t <= match s with Reading | Based => 1 | _ => 0 end)%nat
  /\ (count_site CreatePR t <= match s with Halted => 0 | _ => 1 end)%nat.
Proof.
  induction t as [|e t IH]; intros s s' H.
  - unfold count_site. simpl. destruct s; repeat split; lia.
  - simpl in H. destruct (step s e) as [s1|] eqn:He; [|discriminate].
    specialize (IH s1 s' H). rewrite !count_site_cons.
    unfold step in He. unfold from_site.
    destruct s, (site (fst e)); try discriminate;
      injection He as <-; try destruct (replied_ok (snd e)); simpl in *; lia.
Qed.

End Counting.

(** X9 (one of each): a run of the harmonizer worker calls the model service
    at most once, looks up the base reference at most once, creates at most
    one branch and opens at most one pull request. *)
Theorem steps_are_taken_once :
  forall (R : Runtime) (fuel : nat) (req : Harmonizer.Request)
         (env : Harmonizer.Env) (w : World R),
    let t := snd (Harmonizer.fetch fuel req env w) in
    (Behaviour.count_site ModelCall t <= 1)%nat
    /\ (Behaviour.count_site BaseRef t <= 1)%nat
    /\ (Behaviour.count_site CreateBranch t <= 1)%nat
    /\ (Behaviour.count_site CreatePR t <= 1)%nat.
Proof.
  intros R fuel req env w t. subst t. split.
  - destruct (fetch_phased fuel req env w)
      as (tc & tm & ta & -> & Hc & Hm & Hlen & Ha & _).
    rewrite !count_site_app.
    rewrite (count_site_none ModelCall _ tc eq_refl Hc).
    rewrite (count_site_none ModelCall _ ta eq_refl Ha).
    pose proof (count_site_le_length ModelCall tm). lia.
  - pose proof (keeps_fetch fuel req env w) as Hk. simpl in Hk.
    destruct (Spec.runs Spec.Reading (snd (Harmonizer.fetch fuel req env w)))
      as [s'|] eqn:Hr; [|congruence].
    exact (runs_counts _ _ _ Hr).
Qed.

(** ** What the model is given *)

Section ModelInput.
Import Harmonizer Spec Behaviour.
Context {R : Runtime}.
Local Notation yields := (yields (R:=R)).

Lemma pushFile_bounded owner repo branch path token out :
  Forall bounded out ->
  yields (pushFile owner repo branch path token out) (Forall bounded).
Proof.
  intros Hout. unfold pushFile.
  repeat (apply yields_then; intros ?).
  destruct (negb _); [now apply yields_ret|].
  repeat (apply yields_then; intros ?).
  destruct (negb _); [now apply yields_ret|].
  repeat (apply yields_then; intros ?).
  destruct (js_gt _ _); [now apply yields_ret|].
  repeat (apply yields_then; intros ?).
  apply yields_ret. apply Forall_app. split; [exact Hout|].
  constructor; [|constructor]. unfold bounded. cbn [f_content].
  apply firstn_le_length.
Qed.

Lemma crawlGitHubDir_bounded fuel : forall owner repo branch path token out,
  Forall bounded out ->
  yields (crawlGitHubDir fuel owner repo branch path token out) (Forall bounded).
Proof.
  induction fuel as [|fuel IH]; intros owner repo branch path token out Hout; simpl.
  { apply yields_diverge. }
  repeat (apply yields_then; intros ?).
  destruct (negb _); [now apply yields_ret|].
  apply yields_then. intros data.
  eapply yields_bind with (P := Forall bounded).
  - destruct data; try (now apply yields_ret).
    apply yields_for_of; [|exact Hout].
    intros item acc Hacc. apply yields_then. intros ty.
    destruct (is_str ty (lit "dir")).
    + apply yields_then. intros q. now apply IH.
    + destruct (is_str ty (lit "file")); [|now apply yields_ret].
      apply yields_then. intros q. now apply pushFile_bounded.
  - intros out1 H1. apply yields_then. intros ty.
    destruct (is_str ty (lit "file")); [|now apply yields_ret].
    apply yields_then. intros q. now apply pushFile_bounded.
Qed.

Lemma collect_bounded fuel env p : yields (collect fuel env p) (Forall bounded).
Proof.
  unfold collect. apply yields_then. intros items.
  apply yields_for_of; [|constructor].
  intros path out Hout. now apply crawlGitHubDir_bounded.
Qed.

Lemma Forall_firstn {A} (P : A -> Prop) n l : Forall P l -> Forall P (firstn n l).
Proof.
  intros H. rewrite <- (firstn_skipn n l) in H.
  apply Forall_app in H. exact (proj1 H).
Qed.

Lemma sat_and {A} (m : M (R:=R) A) (P Q : outcome A -> list Event -> Prop) :
  sat m P -> sat m Q -> sat m (fun o t => P o t /\ Q o t).
Proof. intros HP HQ w. split; [apply HP|apply HQ]. Qed.

Lemma sat_lift_bind {A B} (p : partial A) (k : A -> M (R:=R) B)
    (Q : outcome B -> list Event -> Prop) :
  (forall e, p = inl e -> Q (Raised e) []) ->
  (forall a, p = inr a -> sat (k a) Q) ->
  sat (bind (lift p) k) Q.
Proof.
  intros He Ha w. rewrite run_bind_lift. destruct p as [e|a].
  - now apply He.
  - now apply Ha.
Qed.

Lemma fed_nil x : fed x [].
Proof. intros c n []. Qed.

Lemma fed_app x t1 t2 : fed x t1 -> fed x t2 -> fed x (t1 ++ t2).
Proof.
  intros H1 H2 c n Hin. apply in_app_or in Hin. destruct Hin; eauto.
Qed.

Lemma fed_quiet x (S : Site -> bool) t :
  S ModelCall = false -> calls_in (at_sites S) t -> fed x t.
Proof.
  intros HS Ht c n Hin Hs. unfold calls_in in Ht. rewrite Forall_forall in Ht.
  specialize (Ht _ Hin). unfold at_sites in Ht. simpl in Ht.
  rewrite Hs in Ht. congruence.
Qed.

(** The body of every model call of a run of [harmonize]. *)
Lemma harmonize_feeds fuel env b :
  sat (harmonize (R:=R) fuel env b)
    (fun _ t => forall p, destructure env b = inr p -> fed p t).
Proof.
  unfold harmonize.
  apply sat_lift_bind; [intros e He p Hp; apply fed_nil|intros p Hp].
  apply sat_lift_bind; [intros e He p' Hp'; apply fed_nil|intros [] _].
  eapply sat_bind
    with (P := fun o t => calls_in (at_sites collector_site) t
                          /\ match o with
                             | Done l => Forall bounded l
                             | _ => True
                             end).
  - apply sat_and; [apply collect_only|apply collect_bounded].
  - intros collected t1 [Hc Hb]. destruct collected as [|f fs].
    { apply sat_ret. rewrite app_nil_r. intros p' Hp'.
      now apply (fed_quiet p' collector_site). }
    set (files := firstn file_cap (f :: fs)).
    eapply sat_bind
      with (P := fun _ t =>
                   exists n,
                     t = [(mkCall ModelCall POST
                             (lit "https://api.openai.com/v1/chat/completions")
                             (bearer (OPENAI_API_KEY env))
                             (Some (model_body (owner p) (repo p) (baseBranch p)
                                      (note p) files)), n)]).
    + intros w1.
      destruct (callOpenAIHarmonizer_run (OPENAI_API_KEY env) (owner p) (repo p)
                  (baseBranch p) (note p) files w1) as (n & Ht & _).
      exists n. exact Ht.
    + assert (Hfed : forall n p',
                destructure env b = inr p' ->
                fed p' [(mkCall ModelCall POST
                           (lit "https://api.openai.com/v1/chat/completions")
                           (bearer (OPENAI_API_KEY env))
                           (Some (model_body (owner p) (repo p) (baseBranch p)
                                    (note p) files)), n)]).
      { intros n p' Hp' c n' [[= <- <-]|[]] _. exists files.
        rewrite Hp in Hp'. injection Hp' as <-.
        split; [reflexivity|]. split.
        - apply firstn_le_length.
        - now apply Forall_firstn. }
      intros hr t2 (n & ->).
      apply sat_weaken with (P := fun _ t => calls_in (at_sites applier_site) t).
      * apply only_bind; [apply only_lift|intros fls].
        destruct (negb _); [apply only_ret|].
        destruct (negb _); [repeat only_step|apply apply_changes_applies].
      * intros o t3 H3 p' Hp'. apply fed_app.
        { now apply (fed_quiet p' collector_site). }
        apply fed_app; [now apply Hfed|now apply (fed_quiet p' applier_site)].
    + intros e t2 (n & ->) p' Hp'. apply fed_app.
      { now apply (fed_quiet p' collector_site). }
      intros c n' [[= <- <-]|[]] _. exists files.
      rewrite Hp in Hp'. injection Hp' as <-.
      split; [reflexivity|]. split; [apply firstn_le_length|now apply Forall_firstn].
    + intros t2 (n & ->) p' Hp'. apply fed_app.
      { now apply (fed_quiet p' collector_site). }
      intros c n' [[= <- <-]|[]] _. exists files.
      rewrite Hp in Hp'. injection Hp' as <-.
      split; [reflexivity|]. split; [apply firstn_le_length|now apply Forall_firstn].
  - intros e t1 [Hc _] p' Hp'. now apply (fed_quiet p' collector_site).
  - intros t1 [Hc _] p' Hp'. now apply (fed_quiet p' collector_site).
Qed.

End ModelInput.



(** ** The branch a run works on *)

Section Branch.
Import Harmonizer Spec Behaviour.
Context {R : Runtime}.
Local Notation M := (M (R:=R)).
Local Notation sat := (sat (R:=R)).
Local Notation emits := (emits (R:=R)).
Local Notation only := (only (R:=R)).

Lemma on_branch_nil nb : on_branch nb [].
Proof. constructor. Qed.

Lemma on_branch_app nb t1 t2 :
  on_branch nb t1 -> on_branch nb t2 -> on_branch nb (t1 ++ t2).
Proof. intros. apply Forall_app. now split. Qed.

Lemma on_branch_single nb c n : targets nb c -> on_branch nb [(c, n)].
Proof. intros H. constructor; [exact H|constructor]. Qed.

(** Before the branch exists, no call concerns any branch. *)
Lemma on_branch_early nb t : calls_in (at_sites early_site) t -> on_branch nb t.
Proof.
  unfold calls_in, on_branch. apply Forall_impl. intros [c n] H.
  unfold at_sites, early_site in H. unfold targets. simpl in *.
  destruct (site c); try discriminate; exact I.
Qed.

Variable nb : jstr.

Ltac branch_step :=
  first
    [ apply emits_ret; exact (on_branch_nil nb)
    | apply emits_throw; exact (on_branch_nil nb)
    | apply emits_lift; exact (on_branch_nil nb)
    | apply emits_now; exact (on_branch_nil nb)
    | apply emits_json_of; exact (on_branch_nil nb)
    | apply emits_bind; [exact (on_branch_app nb)| |intros ?]
    | apply emits_catch; [exact (on_branch_app nb)| |intros ?]
    | match goal with
      | |- Spec.emits _ (if ?c then _ else _) => destruct c
      | |- Spec.emits _ (match ?x with _ => _ end) => destruct x
      end ].

Lemma request_on_branch token s m u b :
  targets nb (mkCall s m u (bearer token) b) ->
  emits (on_branch nb) (request token s m u b).
Proof.
  intros H. unfold request.
  apply emits_bind; [exact (on_branch_app nb)| |intros res].
  - apply emits_net_fetch. intros n. now apply on_branch_single.
  - repeat branch_step.
Qed.

Lemma commit_file_on_branch token owner repo file acc :
  emits (on_branch nb) (commit_file (ghClient token) owner repo nb file acc).
Proof.
  unfold commit_file.
  do 4 (apply emits_bind; [exact (on_branch_app nb)
                          |apply emits_lift; exact (on_branch_nil nb)|intros ?]).
  apply emits_bind; [exact (on_branch_app nb)| |intros existingSha].
  { unfold probe, ghGet, ghClient.
    apply emits_catch; [exact (on_branch_app nb)| |intros ?; branch_step].
    apply emits_bind; [exact (on_branch_app nb)| |intros ?; branch_step].
    apply request_on_branch. unfold targets. cbn [site url]. now eexists. }
  apply emits_bind; [exact (on_branch_app nb)| |intros res].
  { unfold ghPut, ghClient. apply request_on_branch. reflexivity. }
  repeat branch_step.
Qed.

End Branch.

(** *** The world a run leaves, and the clock *)

Section Worlds.
Import Harmonizer Spec Behaviour.
Context {R : Runtime}.
Local Notation M := (M (R:=R)).

Lemma world_after_app (w : World R) t1 t2 :
  world_after w (t1 ++ t2) = world_after (world_after w t1) t2.
Proof. unfold world_after. apply fold_left_app. Qed.

Lemma tracked_ret {A} (a : A) : tracked (ret (R:=R) a).
Proof. intros w. reflexivity. Qed.

Lemma tracked_throw {A} e : tracked (throw (R:=R) (A:=A) e).
Proof. intros w. reflexivity. Qed.

Lemma tracked_diverge {A} : tracked (diverge (R:=R) (A:=A)).
Proof. intros w. reflexivity. Qed.

Lemma tracked_lift {A} (p : partial A) : tracked (lift (R:=R) p).
Proof. destruct p; [apply tracked_throw|apply tracked_ret]. Qed.

Lemma tracked_json_of r : tracked (json_of (R:=R) r).
Proof. unfold json_of. destruct (res_json r); [apply tracked_ret|apply tracked_throw]. Qed.

Lemma tracked_net_fetch c : tracked (net_fetch (R:=R) c).
Proof.
  intros w. unfold net_fetch, world_after.
  destruct (network R w c) as [w1 [|r]] eqn:E; cbn; now rewrite E.
Qed.

Lemma tracked_bind {A B} (m : M A) (k : A -> M B) :
  tracked m -> (forall a, tracked (k a)) -> tracked (bind m k).
Proof.
  intros Hm Hk w. unfold bind. specialize (Hm w).
  destruct (m w) as [[[a|e|] w1] t1]; cbn [fst snd] in *; try exact Hm.
  specialize (Hk a w1). destruct (k a w1) as [[o w2] t2]. cbn [fst snd] in *.
  rewrite world_after_app, <- Hm. exact Hk.
Qed.

Lemma tracked_catch {A} (m : M A) (h : exn -> M A) :
  tracked m -> (forall e, tracked (h e)) -> tracked (catch m h).
Proof.
  intros Hm Hh w. unfold catch. specialize (Hm w).
  destruct (m w) as [[[a|e|] w1] t1]; cbn [fst snd] in *; try exact Hm.
  specialize (Hh e w1). destruct (h e w1) as [[o w2] t2]. cbn [fst snd] in *.
  rewrite world_after_app, <- Hm. exact Hh.
Qed.

Lemma tracked_for_of {A St} (body : A -> St -> M St) l :
  (forall a s, tracked (body a s)) -> forall s, tracked (for_of body l s).
Proof.
  intros Hb. induction l as [|x l IH]; intros s; simpl.
  - apply tracked_ret.
  - apply tracked_bind; [apply Hb|exact IH].
Qed.

End Worlds.

Ltac tracked_step :=
  first
    [ apply tracked_ret | apply tracked_throw | apply tracked_diverge
    | apply tracked_lift | apply tracked_json_of | apply tracked_net_fetch
    | apply tracked_bind; [|intros ?]
    | apply tracked_catch; [|intros ?]
    | apply tracked_for_of; intros ? ?
    | match goal with
      | |- Behaviour.tracked (if ?c then _ else _) => destruct c
      | |- Behaviour.tracked (match ?x with _ => _ end) => destruct x
      end ].

Section Clock.
Import Harmonizer Spec Behaviour.
Context {R : Runtime}.
Local Notation M := (M (R:=R)).
Local Notation sat := (sat (R:=R)).
Local Notation only := (only (R:=R)).
Local Notation wsat := (wsat (R:=R)).

(** The collection, the model call and the GitHub client do not read the
    clock. *)
Lemma request_tracked token at_ m u b : tracked (request (R:=R) token at_ m u b).
Proof. unfold request. repeat tracked_step. Qed.

Lemma pushFile_tracked owner repo branch path token out :
  tracked (pushFile (R:=R) owner repo branch path token out).
Proof. unfold pushFile. repeat tracked_step. Qed.

Lemma crawlGitHubDir_tracked fuel : forall owner repo branch path token out,
  tracked (crawlGitHubDir (R:=R) fuel owner repo branch path token out).
Proof.
  induction fuel as [|fuel IH]; intros; simpl.
  - apply tracked_diverge.
  - repeat first [ apply IH | apply pushFile_tracked | tracked_step ].
Qed.

Lemma collect_tracked fuel env p : tracked (collect (R:=R) fuel env p).
Proof.
  unfold collect. repeat first [ apply crawlGitHubDir_tracked | tracked_step ].
Qed.

Lemma callOpenAIHarmonizer_tracked apiKey owner repo baseBranch note files :
  tracked (callOpenAIHarmonizer (R:=R) apiKey owner repo baseBranch note files).
Proof. unfold callOpenAIHarmonizer. repeat tracked_step. Qed.

(** A trace that takes a one-off step at most once holds no such step before
    the one it takes. *)
Lemma single_creation t1 e t2 :
  (count_site CreateBranch (t1 ++ e :: t2) <= 1)%nat ->
  site (fst e) = CreateBranch ->
  Forall (fun x => site (fst x) <> CreateBranch) t1.
Proof.
  rewrite count_site_app, count_site_cons. intros Hc He.
  assert (H0 : count_site CreateBranch t1 = 0%nat).
  { unfold from_site in Hc. rewrite He in Hc. lia. }
  clear Hc. induction t1 as [|x t1 IH]; constructor.
  - rewrite count_site_cons in H0. unfold from_site in H0.
    destruct (site (fst x)); try discriminate; lia.
  - apply IH. rewrite count_site_cons in H0. lia.
Qed.

Lemma split_after_early (t0 t u1 u2 : list Event) e :
  calls_in (at_sites early_site) t0 -> site (fst e) = CreateBranch ->
  t0 ++ t = u1 ++ e :: u2 ->
  exists u, u1 = t0 ++ u /\ t = u ++ e :: u2.
Proof.
  intros H0 He. revert u1. induction H0 as [|x t0 Hx _ IH]; intros u1 E.
  - exists u1. split; [reflexivity|exact E].
  - destruct u1 as [|y u1]; cbn in E; injection E as E1 E2.
    + subst x. unfold at_sites in Hx. rewrite He in Hx. discriminate.
    + subst y. destruct (IH u1 E2) as (u & -> & ->). exists u. now split.
Qed.

Section Names.
Context {A : Type} (names : jstr -> A -> Prop).

Lemma clocked_early (w : World R) t stamp :
  calls_in (at_sites early_site) t -> clocked w t stamp.
Proof.
  intros Ht t1 e t2 -> He _. exfalso.
  apply Forall_app in Ht. destruct Ht as [_ Ht]. inversion Ht as [|? ? Hx _]; subst.
  unfold at_sites in Hx. rewrite He in Hx. discriminate.
Qed.

Lemma branch_of_early (w : World R) (o : outcome A) t :
  calls_in (at_sites early_site) t ->
  (forall r, o = Done r -> forall nb, names nb r) ->
  branch_of names w o t.
Proof.
  intros Ht Ho. exists 0. split; [now apply on_branch_early|]. split.
  - intros r Hr. now apply Ho.
  - now apply clocked_early.
Qed.

Lemma branch_of_app (w : World R) (o : outcome A) t1 t2 :
  calls_in (at_sites early_site) t1 ->
  branch_of names (world_after w t1) o t2 ->
  branch_of names w o (t1 ++ t2).
Proof.
  intros H1 (stamp & Hb & Hn & Hc). exists stamp.
  split; [apply on_branch_app; [now apply on_branch_early|exact Hb]|].
  split; [exact Hn|].
  intros u1 e u2 E He Hfree.
  destruct (split_after_early t1 t2 u1 u2 e H1 He E) as (u & -> & ->).
  rewrite world_after_app. apply (Hc u e u2 eq_refl He).
  apply Forall_app in Hfree. exact (proj2 Hfree).
Qed.

(** A step that does not read the clock and calls no branch step. *)
Lemma wsat_early_bind {B} (m : M B) (k : B -> M A) :
  tracked m -> only (at_sites early_site) m ->
  (forall b, wsat (k b) (branch_of names)) ->
  wsat (bind m k) (branch_of names).
Proof.
  intros Ht He Hk w. unfold bind. specialize (Ht w). specialize (He w).
  destruct (m w) as [[[b|e|] w1] t1]; cbn [fst snd] in *.
  - specialize (Hk b w1). destruct (k b w1) as [[o w2] t2]; cbn [fst snd] in *.
    apply branch_of_app; [exact He|]. rewrite <- Ht. exact Hk.
  - apply branch_of_early; [exact He|discriminate].
  - apply branch_of_early; [exact He|discriminate].
Qed.

Lemma wsat_lift_bind {B} (p : partial B) (k : B -> M A) :
  (forall b, wsat (k b) (branch_of names)) ->
  wsat (bind (lift p) k) (branch_of names).
Proof. apply wsat_early_bind; [apply tracked_lift|apply only_lift]. Qed.

Lemma wsat_leaf (r : A) : (forall nb, names nb r) -> wsat (ret r) (branch_of names).
Proof.
  intros Hr w. apply branch_of_early; [constructor|].
  intros r' [= <-]. exact Hr.
Qed.

(** The clock is read, and the branch created right away. *)
Lemma wsat_now_bind (k : Z -> M A) :
  (forall stamp,
      sat (k stamp)
          (fun o t => (on_branch (branch_name stamp) t
                       /\ match o with
                          | Done r => names (branch_name stamp) r
                          | _ => True
                          end)
                      /\ creation_first t)) ->
  wsat (bind now k) (branch_of names).
Proof.
  intros H w. unfold bind, now. destruct (Date_now R w) as [w1 stamp] eqn:E.
  specialize (H stamp w1). destruct (k stamp w1) as [[o w2] t]; cbn [fst snd app] in *.
  destruct H as ((Hb & Hn) & (c & n & more & -> & Hc)).
  exists stamp. split; [exact Hb|]. split; [intros r ->; exact Hn|].
  intros u1 e u2 Eq He Hfree. destruct u1 as [|x u1].
  - cbn. now rewrite E.
  - exfalso. cbn in Eq. injection Eq as <- _.
    inversion Hfree as [|? ? Hx _]; subst. now apply Hx.
Qed.

Lemma wsat_catch_ret (m : M A) (h : exn -> A) :
  wsat m (branch_of names) ->
  (forall e nb, names nb (h e)) ->
  wsat (catch m (fun e => ret (h e))) (branch_of names).
Proof.
  intros Hm Hh w. unfold catch. specialize (Hm w).
  destruct (m w) as [[[r|e|] w1] t]; cbn [fst snd ret] in *.
  - exact Hm.
  - rewrite app_nil_r. destruct Hm as (stamp & Hb & _ & Hc). exists stamp.
    split; [exact Hb|]. split; [|exact Hc]. intros r [= <-]. apply Hh.
  - exact Hm.
Qed.

End Names.

Lemma request_first {B} token s m u b (k : value -> M B) :
  sat (bind (request token s m u b) k)
      (fun _ t => exists n more, t = (mkCall s m u (bearer token) b, n) :: more).
Proof.
  intros w. unfold bind.
  destruct (request_run token s m u b w) as (w1 & n & _ & Ht & _ & _).
  destruct (request token s m u b w) as [[[v|e|] w1'] t1]; cbn [fst snd] in *; subst t1.
  - destruct (k v w1') as [[o w2] t2]. cbn. eauto.
  - eauto.
  - eauto.
Qed.

Lemma net_fetch_first {B} c (k : Reply -> M B) :
  sat (bind (net_fetch c) k) (fun _ t => exists n more, t = (c, n) :: more).
Proof.
  intros w. unfold bind, net_fetch.
  destruct (network R w c) as [w1 [|r]]; cbn [fst snd].
  - eauto.
  - destruct (k r w1) as [[o w2] t2]. cbn. eauto.
Qed.

End Clock.

Section BranchOfRun.
Import Harmonizer Spec Behaviour.
Context {R : Runtime}.
Local Notation M := (M (R:=R)).
Local Notation sat := (sat (R:=R)).
Local Notation emits := (emits (R:=R)).
Local Notation only := (only (R:=R)).

Lemma collector_early c :
  at_sites collector_site c = true -> at_sites early_site c = true.
Proof. unfold at_sites. destruct (site c); simpl; congruence. Qed.

Lemma model_early c :
  at_sites model_site c = true -> at_sites early_site c = true.
Proof. unfold at_sites. destruct (site c); simpl; congruence. Qed.

Lemma not_apply_mode (r : Response) :
  get_opt (payload r) (lit "mode") = VUndef
  \/ get_opt (payload r) (lit "mode") = VStr (lit "preview") ->
  get_opt (payload r) (lit "mode") <> VStr (lit "apply").
Proof. intros [->| ->]; vm_compute; discriminate. Qed.

Lemma names_any (r : Response) :
  get_opt (payload r) (lit "mode") = VUndef
  \/ get_opt (payload r) (lit "mode") = VStr (lit "preview") ->
  forall nb, names_branch nb r.
Proof. intros H nb Hm. exfalso. revert Hm. now apply not_apply_mode. Qed.

Lemma apply_changes_one_branch env p hr :
  wsat (apply_changes (R:=R) env p hr) one_branch.
Proof.
  unfold apply_changes, ghGet, ghPost, one_branch. cbv zeta. unfold ghClient at 1 2 4.
  apply wsat_early_bind; [apply request_tracked| |intros baseRef].
  { unfold request. repeat only_step. }
  apply wsat_lift_bind. intros object.
  apply wsat_lift_bind. intros baseSha.
  apply wsat_now_bind. intros stamp.
  apply sat_and; [apply sat_and|].
  - fold (branch_name stamp).
    apply emits_bind; [exact (on_branch_app _)| |intros _].
    { apply request_on_branch. reflexivity. }
    do 2 (apply emits_bind; [exact (on_branch_app _)
                            |apply emits_lift; exact (on_branch_nil _)|intros ?]).
    apply emits_bind; [exact (on_branch_app _)| |intros updateResults].
    { apply emits_for_of; [exact (on_branch_nil _)|exact (on_branch_app _)|].
      intros file acc. apply commit_file_on_branch. }
    apply emits_bind; [exact (on_branch_app _)
                      |apply emits_lift; exact (on_branch_nil _)|intros summary].
    apply emits_bind; [exact (on_branch_app _)| |intros pr].
    { apply request_on_branch. reflexivity. }
    do 2 (apply emits_bind; [exact (on_branch_app _)
                            |apply emits_lift; exact (on_branch_nil _)|intros ?]).
    apply emits_ret. exact (on_branch_nil _).
  - apply (yields_then (R:=R)). intros _.
    repeat (apply (yields_then (R:=R)); intros ?).
    apply (yields_ret (R:=R)). intros _. reflexivity.
  - eapply sat_weaken; [apply request_first|].
    intros o t (n & more & ->). do 3 eexists. split; reflexivity.
Qed.

Lemma harmonize_one_branch fuel env b :
  wsat (harmonize (R:=R) fuel env b) one_branch.
Proof.
  unfold harmonize, one_branch.
  apply wsat_lift_bind. intros p.
  apply wsat_lift_bind. intros [].
  apply wsat_early_bind; [apply collect_tracked| |intros collected].
  { eapply only_sub; [apply collector_early|apply collect_only]. }
  destruct collected as [|f fs].
  { apply wsat_leaf. apply names_any. now left. }
  apply wsat_early_bind; [apply callOpenAIHarmonizer_tracked| |intros hr].
  { eapply only_sub; [apply model_early|apply callOpenAIHarmonizer_only]. }
  apply wsat_lift_bind. intros files.
  destruct (negb _).
  { apply wsat_leaf. apply names_any. now left. }
  destruct (negb _).
  - apply wsat_lift_bind. intros summary.
    apply wsat_leaf. apply names_any. now right.
  - apply apply_changes_one_branch.
Qed.

Lemma fetch_one_branch fuel req env : wsat (fetch (R:=R) fuel req env) one_branch.
Proof.
  unfold fetch, one_branch.
  destruct (jstr_eqb _ _).
  { apply wsat_leaf. apply names_any. now left. }
  destruct (negb _).
  { apply wsat_leaf. apply names_any. now left. }
  destruct (negb _).
  { apply wsat_leaf. apply names_any. now left. }
  apply (wsat_catch_ret names_branch _ (error_response (R:=R))).
  - apply wsat_early_bind; [| |intros b; apply harmonize_one_branch].
    + destruct (req_json req); [apply tracked_ret|apply tracked_throw].
    + destruct (req_json req); [apply only_ret|apply only_throw].
  - intros e. apply names_any. now left.
Qed.

End BranchOfRun.

(** X11 (one new branch): every run of the harmonizer worker works on one
    branch, [asa-harmonizer-<time>], where the time is what [Date.now()]
    gives once the calls before the branch creation have been answered:
    the branch reference the run creates is [refs/heads/] followed by that
    name, every existence probe and every file write goes to that branch,
    the pull request is opened from it, and the answer of an apply run names
    it.  No file is ever written to another branch. *)
Theorem run_works_on_one_branch :
  forall (R : Runtime) (fuel : nat) (req : Harmonizer.Request)
         (env : Harmonizer.Env) (w : World R),
    exists stamp,
      Behaviour.on_branch (Behaviour.branch_name stamp)
        (snd (Harmonizer.fetch fuel req env w))
      /\ (forall r,
            fst (fst (Harmonizer.fetch fuel req env w)) = Done r ->
            Behaviour.names_branch (Behaviour.branch_name stamp) r)
      /\ (forall t1 e t2,
            snd (Harmonizer.fetch fuel req env w) = t1 ++ e :: t2 ->
            site (fst e) = CreateBranch ->
            stamp = snd (Date_now R (Behaviour.world_after w t1))).
Proof.
  intros R fuel req env w.
  destruct (fetch_one_branch fuel req env w) as (stamp & Hb & Hn & Hc).
  exists stamp. split; [exact Hb|]. split; [exact Hn|].
  intros t1 e t2 E He. apply (Hc t1 e t2 E He).
  pose proof (keeps_fetch fuel req env w) as Hk. cbv beta in Hk.
  destruct (Spec.runs Spec.Reading (snd (Harmonizer.fetch fuel req env w)))
    as [s'|] eqn:Hr; [|now destruct Hk].
  destruct (runs_counts _ _ _ Hr) as (_ & Hcount & _).
  rewrite E in Hcount. now apply (single_creation t1 e t2).
Qed.

(** ** Runs that complete *)

Section Completed.
Context {R : Runtime}.
Local Notation M := (M (R:=R)).

Lemma bind_done_inv {A B} (m : M A) (k : A -> M B) w b w' t :
  bind m k w = (Done b, w', t) ->
  exists a w1 t1 t2,
    m w = (Done a, w1, t1) /\ k a w1 = (Done b, w', t2) /\ t = t1 ++ t2.
Proof.
  unfold bind. destruct (m w) as [[[a|e|] w1] t1]; try discriminate.
  destruct (k a w1) as [[o w2] t2] eqn:Hk. intros [= -> -> <-].
  exists a, w1, t1, t2. repeat split. exact Hk.
Qed.

Lemma lift_done_inv {A} (p : partial A) (w : World R) a w' t :
  lift p w = (Done a, w', t) -> p = inr a /\ w' = w /\ t = [].
Proof.
  destruct p as [e|x]; simpl; [discriminate|].
  intros [= -> -> <-]. repeat split.
Qed.

Lemma lift_bind_done_inv {A B} (p : partial A) (k : A -> M B) w b w' t :
  bind (lift p) k w = (Done b, w', t) ->
  exists a, p = inr a /\ k a w = (Done b, w', t).
Proof.
  rewrite run_bind_lift. destruct p as [e|a]; [discriminate|].
  intros H. now exists a.
Qed.

Lemma request_done_inv token at_ m u b (w : World R) v w' t :
  Harmonizer.request token at_ m u b w = (Done v, w', t) ->
  exists r,
    t = [(mkCall at_ m u (Harmonizer.bearer token) b, Replied r)]
    /\ res_ok r = true /\ res_json r = Some v.
Proof.
  intros H.
  destruct (request_run token at_ m u b w) as (w1 & n & _ & Ht & _ & Ho).
  rewrite H in Ht, Ho. cbn [fst snd] in Ht, Ho. subst t.
  destruct n as [|r]; [discriminate|]. exists r.
  destruct (res_ok r); [|discriminate].
  destruct (res_json r); [|discriminate].
  injection Ho as <-. repeat split.
Qed.

End Completed.

Section Applied.
Import Harmonizer Spec Behaviour.
Context {R : Runtime}.

Lemma commit_file_done token owner repo nb file acc (w w' : World R) acc' t :
  commit_file (ghClient token) owner repo nb file acc w = (Done acc', w', t) ->
  exists entry, acc' = acc ++ [entry] /\ written owner repo nb file t entry.
Proof.
  unfold commit_file. intros H.
  apply lift_bind_done_inv in H. destruct H as (content & _ & H).
  apply lift_bind_done_inv in H. destruct H as (encoded & _ & H).
  apply lift_bind_done_inv in H. destruct H as (fpath & Hpath & H).
  apply lift_bind_done_inv in H. destruct H as (u & Hu & H).
  apply bind_done_inv in H. destruct H as (sha & w1 & t1 & t2 & Hp & H & ->).
  destruct (probe_run token u nb w) as (w1' & pn & v & Hp' & _).
  rewrite Hp in Hp'. injection Hp' as -> <- ->.
  apply bind_done_inv in H. destruct H as (res & w2 & t3 & t4 & Hw & H & ->).
  unfold ghPut, ghClient in Hw. apply request_done_inv in Hw.
  destruct Hw as (wr & -> & Hok & _).
  apply lift_bind_done_inv in H. destruct H as (commit & _ & H).
  injection H as <- <- <-.
  eexists. split; [reflexivity|].
  exists fpath, u. do 4 eexists. split; [exact Hpath|]. split; [exact Hu|].
  split; [reflexivity|]. repeat split; try reflexivity. exact Hok.
Qed.

Lemma commit_files_done token owner repo nb changes :
  forall acc (w w' : World R) acc' t,
    for_of (commit_file (ghClient token) owner repo nb) changes acc w
    = (Done acc', w', t) ->
    exists entries, acc' = acc ++ entries /\ applied owner repo nb changes t entries.
Proof.
  induction changes as [|change changes IH]; intros acc w w' acc' t H.
  - simpl in H. injection H as <- <- <-. exists []. split.
    + now rewrite app_nil_r.
    + constructor.
  - cbn [for_of] in H. apply bind_done_inv in H.
    destruct H as (acc1 & w1 & t1 & t2 & Hc & H & ->).
    apply commit_file_done in Hc. destruct Hc as (entry & -> & Hw).
    apply IH in H. destruct H as (entries & -> & Ha).
    exists (entry :: entries). split.
    + now rewrite <- app_assoc.
    + now constructor.
Qed.

End Applied.

(** X12 (a successful apply run wrote every change): when the apply step
    completes, its calls were exactly the reference lookup, the creation of
    the branch, then for each proposed change of the rewrite result, in
    order, the probe of its path on the new branch followed by the
    successful write of that path, and finally the pull request; the
    [changedFiles] of the answer list the paths of the changes in the same
    order. *)
Theorem successful_apply_wrote_every_change :
  forall (R : Runtime) (env : Harmonizer.Env) (p : Harmonizer.Params)
         (hr : value) (w w' : World R) (r : Harmonizer.Response) (t : list Event),
    Harmonizer.apply_changes env p hr w = (Done r, w', t) ->
    exists files changes stamp base made middle pr entries,
      get hr (lit "files") = inr files
      /\ iterate files = inr changes
      /\ t = base :: made :: middle ++ [pr]
      /\ site (fst base) = BaseRef
      /\ site (fst made) = CreateBranch
      /\ site (fst pr) = CreatePR
      /\ Behaviour.applied (Harmonizer.owner p) (Harmonizer.repo p)
           (Behaviour.branch_name stamp) changes middle entries
      /\ get_opt (Harmonizer.payload r) (lit "changedFiles") = VArr entries.
Proof.
  intros R env p hr w w' r t H.
  unfold Harmonizer.apply_changes, Harmonizer.ghGet, Harmonizer.ghPost in H.
  cbv zeta in H. unfold Harmonizer.ghClient at 1 2 4 in H.
  apply bind_done_inv in H. destruct H as (baseRef & w1 & t1 & t2 & Hb & H & ->).
  apply request_done_inv in Hb. destruct Hb as (rb & -> & _ & _).
  apply lift_bind_done_inv in H. destruct H as (object & _ & H).
  apply lift_bind_done_inv in H. destruct H as (baseSha & _ & H).
  apply bind_done_inv in H. destruct H as (stamp & w2 & t3 & t4 & Hn & H & ->).
  unfold now in Hn. destruct (Date_now R w1) as [w2' stamp'].
  injection Hn as -> -> <-.
  apply bind_done_inv in H. destruct H as (made & w3 & t5 & t6 & Hm & H & ->).
  apply request_done_inv in Hm. destruct Hm as (rm & -> & _ & _).
  apply lift_bind_done_inv in H. destruct H as (files & Hfiles & H).
  apply lift_bind_done_inv in H. destruct H as (changes & Hchanges & H).
  apply bind_done_inv in H. destruct H as (results & w4 & t7 & t8 & Hl & H & ->).
  apply commit_files_done in Hl. destruct Hl as (entries & -> & Ha).
  apply lift_bind_done_inv in H. destruct H as (summary & _ & H).
  apply bind_done_inv in H. destruct H as (pr & w5 & t9 & t10 & Hpr & H & ->).
  apply request_done_inv in Hpr. destruct Hpr as (rp & -> & _ & _).
  apply lift_bind_done_inv in H. destruct H as (html_url & _ & H).
  apply lift_bind_done_inv in H. destruct H as (number & _ & H).
  injection H as <- <- <-.
  exists files, changes, stamp. do 4 eexists. exists entries.
  split; [exact Hfiles|]. split; [exact Hchanges|].
  split; [cbn [app]; reflexivity|].
  repeat split; try reflexivity. exact Ha.
Qed.

Lemma successful_apply_wrote_every_change_witness :
  exists files changes stamp base made middle pr entries,
    get Mock.proposal (lit "files") = inr files
    /\ iterate files = inr changes
    /\ snd Cases.apply_run = base :: made :: middle ++ [pr]
    /\ site (fst base) = BaseRef
    /\ site (fst made) = CreateBranch
    /\ site (fst pr) = CreatePR
    /\ Behaviour.applied (Mock.str "acme") (Mock.str "site")
         (Behaviour.branch_name stamp) changes middle entries
    /\ get_opt (Harmonizer.payload (Cases.answer_of (fst (fst Cases.apply_run))))
         (lit "changedFiles") = VArr entries.
Proof.
  apply (successful_apply_wrote_every_change Mock.e2e_runtime Mock.env0
           (Mock.e2e_params true) Mock.proposal Cases.apply_script
           (snd (fst Cases.apply_run)) (Cases.answer_of (fst (fst Cases.apply_run)))
           (snd Cases.apply_run)).
  vm_compute. reflexivity.
Defined.

(** ** Paths that cannot be listed *)

Section Unreachable.
Import Harmonizer Spec Behaviour.
Context {R : Runtime}.

Lemma crawl_unlisted fuel owner repo branch path token out (w w1 : World R) u r :
  contents_url owner repo path = inr u ->
  network R w (contents_call CrawlList u branch token) = (w1, Replied r) ->
  res_ok r = false ->
  crawlGitHubDir (S fuel) owner repo branch path token out w
  = (Done out, w1, [(contents_call CrawlList u branch token, Replied r)]).
Proof.
  intros Hu Hn Hok. cbn [crawlGitHubDir].
  rewrite run_bind_lift, Hu. unfold bind at 1, net_fetch.
  fold (contents_call CrawlList u branch token). rewrite Hn, Hok. reflexivity.
Qed.

Lemma collect_unlisted fuel owner repo branch token items :
  Forall (fun item => exists u, contents_url owner repo item = inr u) items ->
  (forall (w : World R) c, site c = CrawlList ->
     exists r, snd (network R w c) = Replied r /\ res_ok r = false) ->
  forall w : World R,
  exists w' t,
    for_of (fun path out =>
              crawlGitHubDir (S fuel) owner repo branch path token out) items [] w
    = (Done [], w', t)
    /\ map (fun e => site (fst e)) t = map (fun _ => CrawlList) items
    /\ Forall (fun e => replied_ok (snd e) = false) t.
Proof.
  intros Hitems Hnet. induction Hitems as [|item items (u & Hu) _ IH]; intros w.
  - exists w, []. repeat split. constructor.
  - destruct (Hnet w (contents_call CrawlList u branch token) eq_refl)
      as (r & Hr & Hok).
    destruct (network R w (contents_call CrawlList u branch token))
      as [w1 n] eqn:Hn. simpl in Hr. subst n.
    destruct (IH w1) as (w' & t & Hrun & Hsites & Hfail).
    exists w'. eexists. cbn [for_of].
    rewrite (run_bind_done _ _ _ _ _ _
               (crawl_unlisted fuel owner repo branch item token [] w w1 u r Hu Hn Hok)).
    rewrite Hrun. split; [reflexivity|]. split.
    + cbn [app map fst site contents_call]. now rewrite Hsites.
    + constructor; [simpl; now rewrite Hok|exact Hfail].
Qed.

End Unreachable.

(** X13 (paths that cannot be listed): when the remote side refuses every
    listing (for instance because none of the paths exists), the run makes
    exactly one listing call per path, passes each refusal over, and is
    answered with the "no files found" failure, [{ ok: false, error: "No
    files found in provided paths", paths }] with status 400: the model is
    not called and nothing is written. *)
Theorem unlisted_paths_find_no_files :
  forall (R : Runtime) (fuel : nat) (env : Harmonizer.Env) (b : value)
         (p : Harmonizer.Params) (items : list value) (w : World R),
    Harmonizer.destructure env b = inr p ->
    Behaviour.complete env p ->
    Harmonizer.paths p = VArr items ->
    Forall (fun item =>
              exists u, Harmonizer.contents_url (Harmonizer.owner p)
                          (Harmonizer.repo p) item = inr u) items ->
    (forall (w0 : World R) c, site c = CrawlList ->
       exists r, snd (network R w0 c) = Replied r /\ res_ok r = false) ->
    exists w' t,
      Harmonizer.fetch (S fuel) (Harmonizer.post b) env w
      = (Done (Harmonizer.mkResponse 400
                 (VObj [(lit "ok", VBool false);
                        (lit "error", VStr (lit "No files found in provided paths"));
                        (lit "paths", Harmonizer.paths p)])),
         w', t)
      /\ map (fun e => site (fst e)) t = map (fun _ => CrawlList) items
      /\ Forall (fun e => Spec.replied_ok (snd e) = false) t.
Proof.
  intros R fuel env b p items w Hd Hc Hp Hitems Hnet.
  destruct (collect_unlisted fuel (Harmonizer.owner p) (Harmonizer.repo p)
              (Harmonizer.baseBranch p) (Harmonizer.GITHUB_TOKEN env) items
              Hitems Hnet w) as (w' & t & Hrun & Hsites & Hfail).
  exists w', t. split; [|split; assumption].
  rewrite fetch_post. erewrite run_catch_done; [reflexivity|].
  rewrite (harmonize_run (S fuel) env b p w Hd (complete_validate env p Hc)).
  erewrite run_bind_done.
  2:{ unfold Harmonizer.collect. rewrite Hp. cbn [iterate lift].
      rewrite run_bind_ret. exact Hrun. }
  cbn [ret]. now rewrite app_nil_r.
Qed.

Lemma unlisted_paths_find_no_files_witness :
  exists w' t,
    Harmonizer.fetch (R:=Mock.static (fun _ => Mock.not_found) (fun _ => None)) 1
      (Harmonizer.post (Mock.e2e_body false)) Mock.env0 tt
    = (Done (Harmonizer.mkResponse 400
               (VObj [(lit "ok", VBool false);
                      (lit "error", VStr (lit "No files found in provided paths"));
                      (lit "paths", VArr [VStr (lit "src/a.txt")])])),
       w', t)
    /\ map (fun e => site (fst e)) t = map (fun _ => CrawlList) [Mock.a_txt]
    /\ Forall (fun e => Spec.replied_ok (snd e) = false) t.
Proof.
  apply (unlisted_paths_find_no_files
           (Mock.static (fun _ => Mock.not_found) (fun _ => None)) 0 Mock.env0
           (Mock.e2e_body false) (Mock.e2e_params false) [Mock.a_txt] tt).
  - reflexivity.
  - repeat split; reflexivity.
  - reflexivity.
  - constructor; [|constructor]. eexists. reflexivity.
  - intros w0 c _. eexists. split; reflexivity.
Defined.

(** X14 (preview never writes): a request whose [apply] is falsy never
    leads to a mutating call, whatever the remote side answers and however
    the run ends, be it with the preview, a failure or an error: every call
    of the run is a listing, a file read or the model call, and apart from
    the model call they are all GETs. *)
Theorem preview_never_writes :
  forall (R : Runtime) (fuel : nat) (req : Harmonizer.Request)
         (env : Harmonizer.Env) (w : World R),
    (forall b p, Harmonizer.req_json req = Some b ->
                 Harmonizer.destructure env b = inr p ->
                 truthy (Harmonizer.apply p) = false) ->
    Spec.no_mutation (snd (Harmonizer.fetch fuel req env w))
    /\ Spec.reads_only (snd (Harmonizer.fetch fuel req env w)).
Proof.
  intros R fuel req env w Hprev.
  assert (Hsites : Spec.calls_in (Spec.at_sites Spec.reading_site)
                     (snd (Harmonizer.fetch fuel req env w))).
  { revert w. unfold Harmonizer.fetch.
    destruct (jstr_eqb _ _); [apply only_ret|].
    destruct (negb _); [apply only_ret|].
    destruct (negb _); [apply only_ret|].
    apply only_catch; [|intros e; apply only_ret].
    destruct (Harmonizer.req_json req) as [b|].
    - intros w. rewrite run_bind_ret. revert w.
      apply preview_only_reads. intros p. now apply Hprev.
    - intros w. rewrite run_bind_throw. constructor. }
  split.
  - now apply sites_no_mutation.
  - apply reading_tagged_reads; [exact Hsites|]. apply (fetch_tagged fuel req env w).
Qed.

Lemma preview_never_writes_witness :
  Spec.no_mutation (snd (Harmonizer.fetch (R:=Mock.e2e_runtime) 3
                           (Harmonizer.post (Mock.e2e_body false)) Mock.env0
                           Cases.refused_script))
  /\ Spec.reads_only (snd (Harmonizer.fetch (R:=Mock.e2e_runtime) 3
                             (Harmonizer.post (Mock.e2e_body false)) Mock.env0
                             Cases.refused_script)).
Proof.
  apply (preview_never_writes Mock.e2e_runtime 3
           (Harmonizer.post (Mock.e2e_body false)) Mock.env0 Cases.refused_script).
  intros b p [= <-] [= <-]. reflexivity.
Defined.

(** ** The code-harmonizer worker, step by step *)

Section Walk.
Context {R : Runtime}.
Local Notation M := (M (R:=R)).
Local Notation sat := (sat (R:=R)).

Lemma sat_now_bind {B} (k : Z -> M B) Q :
  (forall t, sat (k t) Q) -> sat (bind now k) Q.
Proof.
  intros H w. unfold bind, now. destruct (Date_now R w) as [w1 t].
  specialize (H t w1). destruct (k t w1) as [[o w2] t2]. exact H.
Qed.

Lemma sat_now_iso_bind {B} (k : jstr -> M B) Q :
  (forall t, sat (k t) Q) -> sat (bind now_iso k) Q.
Proof.
  intros H w. unfold bind, now_iso. destruct (Date_toISOString R w) as [w1 t].
  specialize (H t w1). destruct (k t w1) as [[o w2] t2]. exact H.
Qed.

Lemma sat_json_bind {B} r (k : value -> M B) (Q : outcome B -> list Event -> Prop) :
  (res_json r = None -> Q (Raised SyntaxError) []) ->
  (forall v, res_json r = Some v -> sat (k v) Q) ->
  sat (bind (json_of r) k) Q.
Proof.
  intros Hn Hs. unfold json_of. destruct (res_json r) as [v|].
  - apply sat_ret_bind. now apply Hs.
  - apply sat_throw_bind. now apply Hn.
Qed.

End Walk.

(** Symbolic execution of a worker: one goal per way the run can end, with
    the calls made so far and what is known of their replies. *)
Ltac walk :=
  repeat first
    [ apply sat_lift_bind; [intros ? ?|intros ? ?]
    | apply sat_now_bind; intros ?
    | apply sat_now_iso_bind; intros ?
    | apply sat_json_bind; [intros ?|intros ? ?]
    | apply sat_fetch_then; [|intros ?]
    | apply sat_ret
    | match goal with
      | |- sat (if negb (res_ok ?r) then _ else _) _ =>
          destruct (res_ok r) eqn:?; cbn [negb]
      | |- sat (if ?c then _ else _) _ => destruct c eqn:?
      end ];
  cbv beta.

Section CodeAnswers.
Import CodeHarmonizer CodeBehaviour.
Context {R : Runtime}.
Local Notation sat := (sat (R:=R)).

Lemma code_harmonize_answers env b :
  sat (harmonize env b)
      (fun o _ => match o with
                  | Done r => coherent r
                  | Raised _ => True
                  | OutOfFuel => False
                  end).
Proof.
  unfold harmonize. cbv zeta. walk;
    try exact I; (split; [auto|reflexivity]).
Qed.

Lemma code_harmonize_relays env b : sat (harmonize env b) relays.
Proof.
  unfold harmonize. cbv zeta. walk;
    intros l1 cx rx l2 E Hf;
    repeat (destruct l1 as [|? l1]; cbn [app] in E;
            [injection E as ? ?; subst; try congruence;
             try (split; reflexivity)
            |try discriminate E; injection E as ? E; subst]);
    try (destruct l1; discriminate E).
Qed.

Lemma code_harmonize_staged env b : sat (harmonize env b) staged.
Proof.
  unfold harmonize. cbv zeta. walk;
    (split;
     [reflexivity
     |intros payload Ho; try unfold step_failed in Ho;
      first [discriminate Ho
            |split; [reflexivity|repeat constructor; simpl; assumption]]]).
Qed.

Lemma code_addressed_call env s m tail b x :
  tail = lit "/" ++ x ->
  addressed env
    (mkCall s m (repo_url (GITHUB_OWNER env) (GITHUB_REPO env) tail)
       (githubHeaders (GITHUB_TOKEN env)) b) = true.
Proof.
  intros ->. unfold addressed. cbn [url auth].
  rewrite jstr_eqb_refl, andb_true_r.
  rewrite <- (app_nil_r (repo_url _ _ (lit "/" ++ x))).
  apply (prefix_repo_url (GITHUB_OWNER env) (GITHUB_REPO env) x []).
Qed.

Lemma code_harmonize_addressed env b :
  Spec.only (R:=R) (addressed env) (harmonize env b).
Proof.
  unfold harmonize. cbv zeta.
  repeat first
    [ apply only_net_fetch; eapply code_addressed_call; reflexivity
    | only_step ].
Qed.

Lemma code_names_any status payload :
  status <> 200 -> forall nb, names_branch nb (JsonResponse status payload).
Proof. intros Hs nb payload' [= E _]. contradiction. Qed.

Lemma code_harmonize_one_branch env b :
  Behaviour.wsat (harmonize (R:=R) env b) one_branch.
Proof.
  unfold harmonize, one_branch. cbv zeta.
  do 4 (apply wsat_lift_bind; intros ?).
  destruct (_ || _).
  { apply wsat_leaf. now apply code_names_any. }
  apply wsat_early_bind;
    [apply tracked_net_fetch|apply only_net_fetch; reflexivity|intros baseRefResp].
  destruct (negb (res_ok baseRefResp)).
  { apply wsat_leaf. now apply code_names_any. }
  apply wsat_early_bind; [apply tracked_json_of|apply only_json_of|intros baseRef].
  do 2 (apply wsat_lift_bind; intros ?).
  apply wsat_now_bind. intros stamp.
  apply sat_and.
  - walk;
      (split;
       [repeat constructor; try (cbn; trivial; fail); reflexivity
       |try exact I; try (now apply code_names_any);
        intros payload [= <-]; reflexivity]).
  - eapply sat_weaken; [apply net_fetch_first|].
    intros o t (n & more & ->). do 3 eexists. split; reflexivity.
Qed.

End CodeAnswers.

Section CodeFetch.
Import CodeHarmonizer CodeBehaviour.
Context {R : Runtime}.
Local Notation sat := (sat (R:=R)).

(** The request handler is the [try] block wherever the request is
    routed to it. *)
Lemma code_fetch_routed request env (w : World R) :
  routed request ->
  fetch request env w
  = catch (harmonize env (match req_json request with
                          | Some b => b
                          | None => VObj []
                          end))
          (fun err =>
             ret (JsonResponse 500
                    (obj [("ok", VBool false);
                          ("error", VStr (error_string (R:=R) err))]%string))) w.
Proof.
  intros [Hp Hm]. unfold fetch. rewrite Hp, Hm. reflexivity.
Qed.

Lemma code_fetch_unrouted request env (w : World R) :
  ~ routed request -> snd (fetch request env w) = [].
Proof.
  intros Hr. unfold fetch.
  destruct (jstr_eqb (pathname request) (lit "/health")); [reflexivity|].
  destruct (jstr_eqb (pathname request) (lit "/api/harmonize")) eqn:Hp;
    destruct (jstr_eqb (req_method request) (lit "POST")) eqn:Hm; cbn [andb];
    try (destruct (_ && _); reflexivity).
  apply jstr_eqb_eq in Hp, Hm. destruct Hr. now split.
Qed.

End CodeFetch.

(** X15 (routing of the code-harmonizer worker): a request for [/health] is
    answered with status 200 whatever its method; a GET of [/] is answered
    with the control panel; any other request than a POST to
    [/api/harmonize] is answered with the text [Not found] and status 404
    (a GET of [/api/harmonize] included).  None of these calls the remote
    side or changes the world. *)
Theorem code_harmonizer_routes_requests :
  forall (R : Runtime) (request : CodeHarmonizer.Request)
         (env : CodeHarmonizer.Env) (w : World R),
    (CodeHarmonizer.pathname request = lit "/health" ->
     CodeHarmonizer.fetch request env w
     = (Done (CodeHarmonizer.JsonResponse 200
                (VObj [(lit "ok", VBool true);
                       (lit "service", VStr (lit "ASA_CODE_HARMONIZER"))])),
        w, []))
    /\ (CodeHarmonizer.pathname request = lit "/" ->
        CodeHarmonizer.req_method request = lit "GET" ->
        CodeHarmonizer.fetch request env w
        = (Done (CodeHarmonizer.HtmlPage 200), w, []))
    /\ (CodeHarmonizer.pathname request <> lit "/health" ->
        ~ CodeBehaviour.routed request ->
        (CodeHarmonizer.pathname request <> lit "/"
         \/ CodeHarmonizer.req_method request <> lit "GET") ->
        CodeHarmonizer.fetch request env w
        = (Done (CodeHarmonizer.TextResponse 404 (lit "Not found")), w, [])).
Proof.
  intros R request env w. unfold CodeHarmonizer.fetch. repeat split.
  - intros ->. reflexivity.
  - intros -> ->. reflexivity.
  - intros H1 H2 H3. apply jstr_eqb_neq in H1. rewrite H1.
    replace (jstr_eqb (CodeHarmonizer.pathname request) (lit "/api/harmonize")
             && jstr_eqb (CodeHarmonizer.req_method request) (lit "POST"))
      with false.
    2:{ symmetry. apply andb_false_iff.
        destruct (jstr_eqb (CodeHarmonizer.pathname request) (lit "/api/harmonize"))
          eqn:Hp; [|now left].
        destruct (jstr_eqb (CodeHarmonizer.req_method request) (lit "POST"))
          eqn:Hm; [|now right].
        apply jstr_eqb_eq in Hp, Hm. destruct H2. now split. }
    replace (jstr_eqb (CodeHarmonizer.pathname request) (lit "/")
             && jstr_eqb (CodeHarmonizer.req_method request) (lit "GET"))
      with false; [reflexivity|].
    symmetry. apply andb_false_iff.
    destruct H3 as [H3|H3]; apply jstr_eqb_neq in H3; auto.
Qed.

Lemma code_harmonizer_routes_requests_witness :
  CodeHarmonizer.fetch (R:=Mock.e2e_runtime)
    (CodeHarmonizer.mkRequest (lit "/health") (lit "POST") None) Cases.code_env []
  = (Done (CodeHarmonizer.JsonResponse 200
             (VObj [(lit "ok", VBool true);
                    (lit "service", VStr (lit "ASA_CODE_HARMONIZER"))])),
     [], [])
  /\ CodeHarmonizer.fetch (R:=Mock.e2e_runtime)
       (CodeHarmonizer.mkRequest (lit "/") (lit "GET") None) Cases.code_env []
     = (Done (CodeHarmonizer.HtmlPage 200), [], [])
  /\ CodeHarmonizer.fetch (R:=Mock.e2e_runtime)
       (CodeHarmonizer.mkRequest (lit "/api/harmonize") (lit "GET") None)
       Cases.code_env []
     = (Done (CodeHarmonizer.TextResponse 404 (lit "Not found")), [], []).
Proof.
  split; [|split].
  - apply (code_harmonizer_routes_requests Mock.e2e_runtime
             (CodeHarmonizer.mkRequest (lit "/health") (lit "POST") None)).
    reflexivity.
  - apply (code_harmonizer_routes_requests Mock.e2e_runtime
             (CodeHarmonizer.mkRequest (lit "/") (lit "GET") None)); reflexivity.
  - apply (code_harmonizer_routes_requests Mock.e2e_runtime
             (CodeHarmonizer.mkRequest (lit "/api/harmonize") (lit "GET") None)).
    + vm_compute. discriminate.
    + intros [_ H]. vm_compute in H. discriminate.
    + left. vm_compute. discriminate.
Defined.

(** X16 (the code-harmonizer worker always answers): whatever the request,
    the configuration and the remote side, the handler completes with an
    answer and never throws.  A JSON answer has status 200 or 500 and its
    [ok] field is [true] exactly when the status is 200; the control panel
    has status 200 and the plain-text answer status 404. *)
Theorem code_harmonizer_always_answers :
  forall (R : Runtime) (request : CodeHarmonizer.Request)
         (env : CodeHarmonizer.Env) (w : World R),
    exists r,
      fst (fst (CodeHarmonizer.fetch request env w)) = Done r
      /\ CodeBehaviour.coherent r.
Proof.
  intros R request env w.
  assert (H : match fst (fst (CodeHarmonizer.fetch request env w)) with
              | Done r => CodeBehaviour.coherent r
              | _ => False
              end).
  { revert w. unfold CodeHarmonizer.fetch.
    destruct (jstr_eqb _ _);
      [intros w; split; [auto|reflexivity]|].
    destruct (_ && _).
    - apply (sat_catch _ _
                (fun o _ => match o with
                            | Done r => CodeBehaviour.coherent r
                            | Raised _ => True
                            | OutOfFuel => False
                            end)
                (fun o _ => match o with
                            | Done r => CodeBehaviour.coherent r
                            | _ => False
                            end)).
      + apply code_harmonize_answers.
      + intros r t Hr. exact Hr.
      + intros e t _. apply sat_ret. split; [auto|reflexivity].
      + intros t [].
    - destruct (_ && _); intros w; reflexivity. }
  destruct (fst (fst (CodeHarmonizer.fetch request env w))) as [r|e|];
    [|destruct H|destruct H].
  now exists r.
Qed.

(** X17 (no call without configuration): when the owner, the repository or
    the token is missing from the configuration, a POST to [/api/harmonize]
    is answered with status 500 and [ok: false] without any remote call, and
    the world is left as it was. *)
Theorem unconfigured_worker_calls_nothing :
  forall (R : Runtime) (request : CodeHarmonizer.Request)
         (env : CodeHarmonizer.Env) (w : World R),
    CodeBehaviour.routed request ->
    CodeBehaviour.configured env = false ->
    exists payload,
      CodeHarmonizer.fetch request env w
      = (Done (CodeHarmonizer.JsonResponse 500 payload), w, [])
      /\ get_opt payload (lit "ok") = VBool false.
Proof.
  intros R request env w Hr Hc. rewrite (code_fetch_routed request env w Hr).
  unfold catch, CodeHarmonizer.harmonize. cbv zeta.
  repeat (rewrite run_bind_lift;
          match goal with
          | |- context [match ?p with inl _ => _ | inr _ => _ end] =>
              destruct p; [eexists; split; reflexivity|]
          end).
  unfold CodeBehaviour.configured in Hc.
  replace (negb (truthy (CodeHarmonizer.GITHUB_OWNER env))
           || negb (truthy (CodeHarmonizer.GITHUB_REPO env))
           || negb (truthy (CodeHarmonizer.GITHUB_TOKEN env))) with true.
  - eexists. split; reflexivity.
  - destruct (truthy (CodeHarmonizer.GITHUB_OWNER env)),
             (truthy (CodeHarmonizer.GITHUB_REPO env)),
             (truthy (CodeHarmonizer.GITHUB_TOKEN env)); simpl in *; congruence.
Qed.

Lemma unconfigured_worker_calls_nothing_witness :
  exists payload,
    CodeHarmonizer.fetch (R:=Mock.e2e_runtime) (Cases.code_request (VObj []))
      (CodeHarmonizer.mkEnv (Mock.str "acme") (Mock.str "site") VUndef VUndef)
      Cases.code_script
    = (Done (CodeHarmonizer.JsonResponse 500 payload), Cases.code_script, [])
    /\ get_opt payload (lit "ok") = VBool false.
Proof.
  apply (unconfigured_worker_calls_nothing Mock.e2e_runtime
           (Cases.code_request (VObj []))
           (CodeHarmonizer.mkEnv (Mock.str "acme") (Mock.str "site") VUndef VUndef)
           Cases.code_script).
  - split; reflexivity.
  - reflexivity.
Defined.

(** X18 (a failed step is named): when GitHub answers a call of the
    code-harmonizer worker with a status outside 200-299, that call is the
    last one of the run, and the worker answers with status 500 and the
    report [{ ok: false, step, status, body }], where [step] names the step
    ([get_base_ref], [create_ref], [create_file] or [create_pr]) and
    [status] and [body] are the status and the text of the reply. *)
Theorem failed_step_is_named :
  forall (R : Runtime) (request : CodeHarmonizer.Request)
         (env : CodeHarmonizer.Env) (w : World R)
         (t1 : list Event) (c : Call) (r : Reply) (t2 : list Event),
    snd (CodeHarmonizer.fetch request env w) = t1 ++ (c, Replied r) :: t2 ->
    res_ok r = false ->
    t2 = []
    /\ fst (fst (CodeHarmonizer.fetch request env w))
       = Done (CodeHarmonizer.JsonResponse 500
                 (VObj [(lit "ok", VBool false);
                        (lit "step", VStr (CodeBehaviour.step_name (site c)));
                        (lit "status", VNum (res_status r));
                        (lit "body", VStr (res_text r))])).
Proof.
  intros R request env w t1 c r t2.
  destruct (jstr_eqb (CodeHarmonizer.pathname request) (lit "/api/harmonize")) eqn:Hp.
  2:{ rewrite code_fetch_unrouted.
      - intros E. destruct t1; discriminate.
      - intros [H _]. apply jstr_eqb_eq in H. congruence. }
  destruct (jstr_eqb (CodeHarmonizer.req_method request) (lit "POST")) eqn:Hm.
  2:{ rewrite code_fetch_unrouted.
      - intros E. destruct t1; discriminate.
      - intros [_ H]. apply jstr_eqb_eq in H. congruence. }
  apply jstr_eqb_eq in Hp, Hm.
  rewrite (code_fetch_routed request env w (conj Hp Hm)).
  set (b := match CodeHarmonizer.req_json request with
            | Some b => b
            | None => VObj []
            end).
  pose proof (code_harmonize_relays env b w) as H. unfold catch.
  destruct (CodeHarmonizer.harmonize env b w) as [[[x|e|] w1] t];
    cbn [fst snd ret] in *.
  - apply H.
  - rewrite app_nil_r. intros E Hf. destruct (H t1 c r t2 E Hf) as [_ Ho].
    discriminate.
  - intros E Hf. destruct (H t1 c r t2 E Hf) as [_ Ho]. discriminate.
Qed.

Lemma failed_step_is_named_witness :
  fst (fst (CodeHarmonizer.fetch (R:=Mock.e2e_runtime) (Cases.code_request (VObj []))
              Cases.code_env Cases.conflict_script))
  = Done (CodeHarmonizer.JsonResponse 500
            (VObj [(lit "ok", VBool false);
                   (lit "step", VStr (lit "create_ref"));
                   (lit "status", VNum 422);
                   (lit "body", VStr (lit "Reference already exists"))])).
Proof.
  exact (proj2 (failed_step_is_named Mock.e2e_runtime (Cases.code_request (VObj []))
                  Cases.code_env Cases.conflict_script
                  (firstn 1 (snd (CodeHarmonizer.fetch (R:=Mock.e2e_runtime)
                                    (Cases.code_request (VObj [])) Cases.code_env
                                    Cases.conflict_script)))
                  Cases.create_ref_call Cases.conflict [] eq_refl eq_refl)).
Defined.

(** X19 (the four steps, in order, once each): the calls of every run of
    the code-harmonizer worker are the first steps of the sequence
    reference lookup, branch creation, file write, pull request, each made
    once; and when a request for [/api/harmonize] is answered with status
    200, all four calls were made and each was answered successfully. *)
Theorem code_run_takes_the_steps_in_order :
  forall (R : Runtime) (request : CodeHarmonizer.Request)
         (env : CodeHarmonizer.Env) (w : World R),
    let run := CodeHarmonizer.fetch request env w in
    map (fun e => site (fst e)) (snd run)
    = firstn (List.length (snd run)) CodeBehaviour.steps
    /\ (CodeBehaviour.routed request ->
        forall payload,
          fst (fst run) = Done (CodeHarmonizer.JsonResponse 200 payload) ->
          map (fun e => site (fst e)) (snd run) = CodeBehaviour.steps
          /\ Forall (fun e => Spec.replied_ok (snd e) = true) (snd run)).
Proof.
  intros R request env w run. subst run.
  assert (Hrouted : CodeBehaviour.routed request ->
            CodeBehaviour.staged (fst (fst (CodeHarmonizer.fetch request env w)))
              (snd (CodeHarmonizer.fetch request env w))).
  { intros Hr. rewrite (code_fetch_routed request env w Hr).
    set (b := match CodeHarmonizer.req_json request with
              | Some b => b
              | None => VObj []
              end).
    pose proof (code_harmonize_staged env b w) as [H1 H2]. unfold catch.
    destruct (CodeHarmonizer.harmonize env b w) as [[[x|e|] w1] t];
      cbn [fst snd ret] in *.
    - split; assumption.
    - rewrite app_nil_r. split; [exact H1|]. intros payload Ho. discriminate.
    - split; [exact H1|]. intros payload Ho. discriminate. }
  split.
  - destruct (jstr_eqb (CodeHarmonizer.pathname request) (lit "/api/harmonize"))
      eqn:Hp.
    2:{ rewrite code_fetch_unrouted; [reflexivity|].
        intros [H _]. apply jstr_eqb_eq in H. congruence. }
    destruct (jstr_eqb (CodeHarmonizer.req_method request) (lit "POST")) eqn:Hm.
    2:{ rewrite code_fetch_unrouted; [reflexivity|].
        intros [_ H]. apply jstr_eqb_eq in H. congruence. }
    apply jstr_eqb_eq in Hp, Hm. apply (Hrouted (conj Hp Hm)).
  - intros Hr payload Ho. destruct (Hrouted Hr) as [H1 H2].
    destruct (H2 payload Ho) as [Hlen Hok]. split; [|exact Hok].
    rewrite H1, Hlen. reflexivity.
Qed.

Lemma code_run_takes_the_steps_in_order_witness :
  let run := CodeHarmonizer.fetch (R:=Mock.e2e_runtime) (Cases.code_request (VObj []))
               Cases.code_env Cases.code_script in
  map (fun e => site (fst e)) (snd run) = CodeBehaviour.steps
  /\ Forall (fun e => Spec.replied_ok (snd e) = true) (snd run).
Proof.
  refine (proj2 (code_run_takes_the_steps_in_order Mock.e2e_runtime
                   (Cases.code_request (VObj [])) Cases.code_env Cases.code_script)
            _ _ eq_refl).
  split; reflexivity.
Defined.


(** X21 (one new branch, code-harmonizer worker): every run works on one
    branch, [asa-harmonizer-<time>], where the time is what [Date.now()]
    gives once the reference lookup has been answered: the reference the
    run creates is [refs/heads/] followed by that name, the touchpoint file
    is written to that branch, the pull request is opened from it, and the
    answer of a successful run names it. *)
Theorem code_run_works_on_one_branch :
  forall (R : Runtime) (request : CodeHarmonizer.Request)
         (env : CodeHarmonizer.Env) (w : World R),
    CodeBehaviour.routed request ->
    exists stamp,
      Behaviour.on_branch (Behaviour.branch_name stamp)
        (snd (CodeHarmonizer.fetch request env w))
      /\ (forall r,
            fst (fst (CodeHarmonizer.fetch request env w)) = Done r ->
            CodeBehaviour.names_branch (Behaviour.branch_name stamp) r)
      /\ (forall t1 e t2,
            snd (CodeHarmonizer.fetch request env w) = t1 ++ e :: t2 ->
            site (fst e) = CreateBranch ->
            stamp = snd (Date_now R (Behaviour.world_after w t1))).
Proof.
  intros R request env w Hr.
  assert (Hone : CodeBehaviour.one_branch w
                   (fst (fst (CodeHarmonizer.fetch request env w)))
                   (snd (CodeHarmonizer.fetch request env w))).
  { rewrite (code_fetch_routed request env w Hr).
    apply (wsat_catch_ret CodeBehaviour.names_branch
             (CodeHarmonizer.harmonize env _)
             (fun err =>
                CodeHarmonizer.JsonResponse 500
                  (CodeHarmonizer.obj
                     [("ok", VBool false);
                      ("error", VStr (CodeHarmonizer.error_string (R:=R) err))]%string))).
    - apply code_harmonize_one_branch.
    - intros e. now apply code_names_any. }
  destruct Hone as (stamp & Hb & Hn & Hc).
  exists stamp. split; [exact Hb|]. split; [exact Hn|].
  intros t1 e t2 E He. apply (Hc t1 e t2 E He).
  pose proof (keeps_code_fetch request env w) as Hk. cbv beta in Hk.
  destruct (Spec.runs Spec.Reading (snd (CodeHarmonizer.fetch request env w)))
    as [s'|] eqn:Hrun; [|now destruct Hk].
  destruct (runs_counts _ _ _ Hrun) as (_ & Hcount & _).
  rewrite E in Hcount. now apply (single_creation t1 e t2).
Qed.

(** On the scenario in which all four steps succeed, with the clock of the
    mock runtime at 1700000000000. *)
Lemma code_run_works_on_one_branch_witness :
  let run := CodeHarmonizer.fetch (R:=Mock.e2e_runtime) (Cases.code_request (VObj []))
               Cases.code_env Cases.code_script in
  Behaviour.on_branch (lit "asa-harmonizer-1700000000000") (snd run)
  /\ forall r,
       fst (fst run) = Done r ->
       CodeBehaviour.names_branch (lit "asa-harmonizer-1700000000000") r.
Proof.
  intros run.
  destruct (code_run_works_on_one_branch Mock.e2e_runtime
              (Cases.code_request (VObj [])) Cases.code_env Cases.code_script
              (conj eq_refl eq_refl)) as (stamp & Hb & Hn & Hc).
  assert (Hs : stamp = 1700000000000).
  { apply (Hc (firstn 1 (snd run)) (nth 1 (snd run) (Cases.create_ref_call, Rejected))
              (skipn 2 (snd run)) eq_refl eq_refl). }
  rewrite Hs in Hb, Hn. split; [exact Hb|exact Hn].
Defined.

(** ** More on the transport encoding *)

Section Utf16.
Import Transport Text.

Lemma code_points_utf16 cp rest :
  scalar cp -> code_points (utf16 cp ++ rest) = cp :: code_points rest.
Proof.
  intros [Hr Hs]. unfold utf16.
  destruct (Z.ltb_spec cp 65536) as [Hb|Hb]; cbn [app code_points].
  - assert (Hl : is_lead cp && true = false \/ is_lead cp = false).
    { right. unfold is_lead.
      destruct (Z.leb_spec 55296 cp); destruct (Z.leb_spec cp 56319);
        cbn [andb]; try reflexivity.
      destruct (Z.leb_spec 56320 cp); lia. }
    destruct rest as [|d r']; [reflexivity|].
    destruct Hl as [Hl|Hl].
    + rewrite andb_true_r in Hl. now rewrite Hl.
    + now rewrite Hl.
  - unfold is_lead, is_trail. zbool. cbn [andb]. f_equal. lia.
Qed.

Lemma code_points_flat cps :
  Forall scalar cps -> code_points (flat_map utf16 cps) = cps.
Proof.
  induction 1 as [|cp cps Hcp _ IH]; [reflexivity|].
  cbn [flat_map]. rewrite code_points_utf16 by exact Hcp. now rewrite IH.
Qed.

Lemma utf8_bytes_octets cps : Forall scalar cps -> Forall octet (flat_map utf8 cps).
Proof.
  induction 1 as [|cp cps Hcp _ IH]; [constructor|].
  cbn [flat_map]. apply Forall_app. split; [now apply utf8_octets|exact IH].
Qed.

End Utf16.

Section Base64Format.
Import Transport Text.

Lemma b64enc_symbols bs : Forall octet bs -> forallb b64_symbol (b64enc bs) = true.
Proof.
  intros H. rewrite b64enc_groups, forallb_app. apply andb_true_iff. split.
  - apply forallb_forall. intros c Hc. apply in_map_iff in Hc.
    destruct Hc as (v & <- & Hv).
    pose proof (groups_sextets bs H) as Hg. rewrite Forall_forall in Hg.
    unfold b64_symbol. now rewrite (proj1 (b64char_props v (Hg v Hv))).
  - destruct (groups_padding bs) as [[-> _]|[[-> _]|[-> _]]]; reflexivity.
Qed.

Lemma b64enc_length bs :
  Z.of_nat (List.length (b64enc bs)) = 4 * ((Z.of_nat (List.length bs) + 2) / 3).
Proof.
  induction bs as [|a|a b|a b c l IH] using list_ind3; try reflexivity.
  cbn [b64enc List.length]. rewrite !Nat2Z.inj_succ, IH. lia.
Qed.

Lemma filter_filter {A} (f : A -> bool) l : filter f (filter f l) = filter f l.
Proof.
  induction l as [|x l IH]; [reflexivity|].
  cbn [filter]. destruct (f x) eqn:Hx; [|exact IH].
  cbn [filter]. now rewrite Hx, IH.
Qed.

Lemma atob_unspaced s : atob (unspaced s) = atob s.
Proof. unfold atob, unspaced. now rewrite filter_filter. Qed.

End Base64Format.

(** X22 (the format of the encoding): where [base64encode] is defined, its
    result is the standard base64 text of the UTF-8 octets of the string:
    it consists of characters of the base64 alphabet and [=] only, and its
    length is four times the number of octets divided by three, rounded
    up. *)
Theorem base64encode_is_base64_of_utf8 :
  forall (s e : jstr),
    Forall code_unit s ->
    base64encode s = inr e ->
    e = b64enc (Text.utf8_bytes s)
    /\ forallb Text.b64_symbol e = true
    /\ Z.of_nat (List.length e)
       = 4 * ((Z.of_nat (List.length (Text.utf8_bytes s)) + 2) / 3).
Proof.
  intros s e Hu He.
  pose proof (base64encode_well_formed s e Hu He) as Hwf.
  destruct (well_formed_code_points (List.length s) s (le_n _) Hu Hwf)
    as (cps & Hcps & ->).
  rewrite (base64encode_code_points cps Hcps) in He. injection He as <-.
  unfold Text.utf8_bytes. rewrite (code_points_flat cps Hcps).
  split; [reflexivity|]. split.
  - apply b64enc_symbols. now apply utf8_bytes_octets.
  - apply b64enc_length.
Qed.

Lemma base64encode_is_base64_of_utf8_witness :
  lit "w6nigqw=" = b64enc (Text.utf8_bytes [233; 8364])
  /\ forallb Text.b64_symbol (lit "w6nigqw=") = true
  /\ Z.of_nat (List.length (lit "w6nigqw="))
     = 4 * ((Z.of_nat (List.length (Text.utf8_bytes [233; 8364])) + 2) / 3).
Proof.
  apply (base64encode_is_base64_of_utf8 [233; 8364] (lit "w6nigqw=")).
  - repeat constructor; unfold code_unit; lia.
  - reflexivity.
Defined.

(** X23 (line breaks do not matter): [base64decode] ignores ASCII
    whitespace, so that content which was encoded by [base64encode] and then
    wrapped into lines, as the contents endpoint does, still decodes to the
    original string. *)
Theorem wrapped_content_decodes :
  forall (s e wrapped : jstr),
    Forall code_unit s ->
    base64encode s = inr e ->
    Text.unspaced wrapped = e ->
    base64decode wrapped = inr s.
Proof.
  intros s e wrapped Hu He Hw.
  pose proof (base64decode_base64encode s e Hu He) as Hd.
  unfold base64decode in *. rewrite <- (atob_unspaced wrapped), Hw. exact Hd.
Qed.

Lemma wrapped_content_decodes_witness :
  base64decode (lit "w6ni" ++ [10] ++ lit "gqw=" ++ [13; 10]) = inr [233; 8364].
Proof.
  apply (wrapped_content_decodes [233; 8364] (lit "w6nigqw=")).
  - repeat constructor; unfold code_unit; lia.
  - reflexivity.
  - reflexivity.
Defined.

(** ** Decoding, then encoding *)

Section DecodeInverse.
Import Transport Text.

Lemma sextets_range d : forall vs, sextets d = Some vs -> Forall sextet vs.
Proof.
  induction d as [|c d IH]; intros vs H; simpl in H.
  - injection H as <-. constructor.
  - destruct (b64val c) as [v|] eqn:Hv; [|discriminate].
    destruct (sextets d) as [vs'|]; [|discriminate].
    injection H as <-. constructor; [|now apply IH].
    unfold b64val in Hv. unfold sextet.
    destruct ((65 <=? c) && (c <=? 90)) eqn:H1.
    { injection Hv as <-. apply andb_prop in H1. destruct H1 as [Ha Hb].
      apply Z.leb_le in Ha, Hb. lia. }
    destruct ((97 <=? c) && (c <=? 122)) eqn:H2.
    { injection Hv as <-. apply andb_prop in H2. destruct H2 as [Ha Hb].
      apply Z.leb_le in Ha, Hb. lia. }
    destruct ((48 <=? c) && (c <=? 57)) eqn:H3.
    { injection Hv as <-. apply andb_prop in H3. destruct H3 as [Ha Hb].
      apply Z.leb_le in Ha, Hb. lia. }
    destruct (c =? 43); [injection Hv as <-; lia|].
    destruct (c =? 47); [injection Hv as <-; lia|discriminate].
Qed.

Lemma b64dec_octets n : forall vs,
  (List.length vs <= n)%nat -> Forall sextet vs -> Forall octet (b64dec vs).
Proof.
  unfold sextet, octet.
  induction n as [|n IH]; intros vs Hlen H.
  - destruct vs; [constructor|simpl in Hlen; lia].
  - destruct vs as [|a [|b [|c [|d rest]]]]; cbn [b64dec].
    + constructor.
    + constructor.
    + inversion H as [|? ? Ha H1]; subst. inversion H1 as [|? ? Hb H2]; subst.
      repeat constructor; lia.
    + inversion H as [|? ? Ha H1]; subst. inversion H1 as [|? ? Hb H2]; subst.
      inversion H2 as [|? ? Hc H3]; subst.
      repeat constructor; lia.
    + inversion H as [|? ? Ha H1]; subst. inversion H1 as [|? ? Hb H2]; subst.
      inversion H2 as [|? ? Hc H3]; subst. inversion H3 as [|? ? Hd H4]; subst.
      repeat (constructor; [lia|]).
      apply IH; [simpl in Hlen; lia|exact H4].
Qed.

Lemma atob_octets s bs : atob s = inr bs -> Forall octet bs.
Proof.
  unfold atob. destruct (_ =? 1); [discriminate|].
  destruct (sextets _) as [vs|] eqn:Hvs; [|discriminate].
  intros [= <-]. apply (b64dec_octets (List.length vs)); [lia|].
  now apply sextets_range in Hvs.
Qed.

Lemma escape_cons b bs : escape (b :: bs) = escape_unit b ++ escape bs.
Proof. reflexivity. Qed.

(** An escaped octet at the front of an escaped string. *)
Lemma octet_at_escape bs b2 :
  Forall octet bs -> octet_at (escape bs) = Some b2 ->
  exists bs', bs = b2 :: bs' /\ escape bs = pct b2 ++ escape bs'.
Proof.
  intros H Ho. destruct bs as [|x bs']; [discriminate|].
  inversion H as [|? ? Hx _]; subst. rewrite escape_cons in *.
  unfold escape_unit in *. destruct (escape_unreserved x) eqn:Hu.
  - apply escape_unreserved_ascii in Hu. exfalso.
    cbn [app] in Ho. unfold octet_at in Ho.
    destruct (escape bs') as [|h [|l r]]; try discriminate.
    replace (x =? 37) with false in Ho by (symmetry; apply Z.eqb_neq; lia).
    discriminate.
  - unfold octet in Hx.
    replace (x <? 256) with true in * by (symmetry; apply Z.ltb_lt; lia).
    rewrite octet_at_pct in Ho by exact Hx. injection Ho as <-.
    exists bs'. split; reflexivity.
Qed.

Lemma utf8_2_inv b1 b2 cp :
  192 <= b1 < 224 -> utf8_2 b1 b2 = Some cp ->
  scalar cp /\ utf8 cp = [b1; b2].
Proof.
  intros Hb H. unfold utf8_2, is_cont in H. cbv zeta in H.
  destruct ((128 <=? b2) && (b2 <? 192) && (128 <=? (b1 - 192) * 64 + (b2 - 128)))
    eqn:E; [|discriminate].
  injection H as <-.
  apply andb_prop in E. destruct E as [E E3]. apply andb_prop in E.
  destruct E as [E1 E2]. apply Z.leb_le in E1, E3. apply Z.ltb_lt in E2.
  split; [unfold scalar; lia|].
  unfold utf8. zbool. f_equal; [lia|]. f_equal. lia.
Qed.

Lemma utf8_3_inv b1 b2 b3 cp :
  224 <= b1 < 240 -> utf8_3 b1 b2 b3 = Some cp ->
  scalar cp /\ utf8 cp = [b1; b2; b3].
Proof.
  intros Hb H. unfold utf8_3, is_cont in H. cbv zeta in H.
  set (v := (b1 - 224) * 4096 + (b2 - 128) * 64 + (b3 - 128)) in *.
  destruct ((128 <=? b2) && (b2 <? 192) && ((128 <=? b3) && (b3 <? 192))
            && (2048 <=? v) && negb ((55296 <=? v) && (v <=? 57343)))
    eqn:E; [|discriminate].
  injection H as <-.
  apply andb_prop in E. destruct E as [E E5]. apply andb_prop in E.
  destruct E as [E E4]. apply andb_prop in E. destruct E as [E12 E3].
  apply andb_prop in E12, E3. destruct E12 as [E1 E2]. destruct E3 as [E3 E3'].
  apply Z.leb_le in E1, E3, E4. apply Z.ltb_lt in E2, E3'.
  apply negb_true_iff, andb_false_iff in E5.
  assert (Hs : ~ (55296 <= v <= 57343)).
  { destruct E5 as [E5|E5]; [apply Z.leb_gt in E5|apply Z.leb_gt in E5]; lia. }
  assert (Hv : v = (b1 - 224) * 4096 + (b2 - 128) * 64 + (b3 - 128)) by reflexivity.
  clearbody v.
  split; [unfold scalar; lia|].
  unfold utf8. zbool. f_equal; [lia|]. f_equal; [lia|]. f_equal. lia.
Qed.

Lemma utf8_4_inv b1 b2 b3 b4 cp :
  240 <= b1 < 248 -> utf8_4 b1 b2 b3 b4 = Some cp ->
  scalar cp /\ utf8 cp = [b1; b2; b3; b4].
Proof.
  intros Hb H. unfold utf8_4, is_cont in H. cbv zeta in H.
  set (v := (b1 - 240) * 262144 + (b2 - 128) * 4096 + (b3 - 128) * 64 + (b4 - 128))
    in *.
  destruct ((128 <=? b2) && (b2 <? 192) && ((128 <=? b3) && (b3 <? 192))
            && ((128 <=? b4) && (b4 <? 192)) && (65536 <=? v) && (v <=? 1114111))
    eqn:E; [|discriminate].
  injection H as <-.
  apply andb_prop in E. destruct E as [E E6]. apply andb_prop in E.
  destruct E as [E E5]. apply andb_prop in E. destruct E as [E E4].
  apply andb_prop in E. destruct E as [E12 E3].
  apply andb_prop in E12, E3, E4.
  destruct E12 as [E1 E2]. destruct E3 as [E3 E3']. destruct E4 as [E4 E4'].
  apply Z.leb_le in E1, E3, E4, E5, E6. apply Z.ltb_lt in E2, E3', E4'.
  assert (Hv : v = (b1 - 240) * 262144 + (b2 - 128) * 4096 + (b3 - 128) * 64
                   + (b4 - 128)) by reflexivity.
  clearbody v.
  split; [unfold scalar; lia|].
  unfold utf8. zbool.
  f_equal; [lia|]. f_equal; [lia|]. f_equal; [lia|]. f_equal. lia.
Qed.

(** Whatever [decodeURIComponent] makes of escaped octets is the text whose
    UTF-8 octets they are. *)
Lemma Decode_escape_inv n : forall bs d,
  (List.length bs <= n)%nat -> Forall octet bs ->
  Decode 0 (escape bs) = Some d ->
  exists cps, Forall scalar cps /\ bs = flat_map utf8 cps /\ d = flat_map utf16 cps.
Proof.
  induction n as [|n IH]; intros bs d Hlen Ho Hd.
  { destruct bs; [|simpl in Hlen; lia]. injection Hd as <-.
    exists []. repeat split. constructor. }
  destruct bs as [|b bs'].
  { injection Hd as <-. exists []. repeat split. constructor. }
  inversion Ho as [|? ? Hb Ho']; subst. unfold octet in Hb.
  rewrite escape_cons in Hd.
  destruct (Z.ltb_spec b 128) as [Hlow|Hhigh].
  - rewrite Decode_ascii in Hd by lia.
    destruct (Decode 0 (escape bs')) as [d'|] eqn:Hd'; [|discriminate].
    injection Hd as <-.
    destruct (IH bs' d') as (cps & Hcps & -> & ->); auto.
    { simpl in Hlen. lia. }
    exists (b :: cps). split; [constructor; [unfold scalar; lia|exact Hcps]|].
    cbn [flat_map]. unfold utf8, utf16. zbool. split; reflexivity.
  - rewrite escape_high in Hd by lia.
    unfold pct at 1 in Hd. cbn [app] in Hd. rewrite Decode_pct in Hd.
    unfold decode_at in Hd. rewrite hexbyte_pct in Hd by lia.
    replace (b <? 128) with false in Hd by (symmetry; apply Z.ltb_ge; lia).
    destruct (Z.ltb_spec b 192) as [|H192]; [discriminate|].
    destruct (Z.ltb_spec b 224) as [H224|H224].
    { destruct (octet_at (escape bs')) as [b2|] eqn:E2; [|discriminate].
      destruct (octet_at_escape bs' b2 Ho' E2) as (bs2 & -> & Hesc).
      rewrite Hesc in Hd.
      destruct (utf8_2 b b2) as [cp|] eqn:Hcp; [|discriminate].
      cbn [option_map] in Hd.
      change (Decode 5 (hexdigit (b / 16) :: hexdigit (b mod 16)
                          :: pct b2 ++ escape bs2))
        with (Decode 0 (escape bs2)) in Hd.
      destruct (Decode 0 (escape bs2)) as [d'|] eqn:Hd'; [|discriminate].
      injection Hd as <-.
      inversion Ho' as [|? ? _ Ho2]; subst.
      destruct (IH bs2 d') as (cps & Hcps & -> & ->); auto.
      { simpl in Hlen. lia. }
      destruct (utf8_2_inv b b2 cp ltac:(lia) Hcp) as [Hs Hu].
      exists (cp :: cps). split; [now constructor|].
      cbn [flat_map]. rewrite Hu. split; reflexivity. }
    destruct (Z.ltb_spec b 240) as [H240|H240].
    { destruct (octet_at (escape bs')) as [b2|] eqn:E2; [|discriminate].
      destruct (octet_at_escape bs' b2 Ho' E2) as (bs2 & -> & Hesc).
      rewrite Hesc in Hd. rewrite skipn3_pct in Hd.
      inversion Ho' as [|? ? _ Ho2]; subst.
      destruct (octet_at (escape bs2)) as [b3|] eqn:E3; [|discriminate].
      destruct (octet_at_escape bs2 b3 Ho2 E3) as (bs3 & -> & Hesc3).
      rewrite Hesc3 in Hd.
      destruct (utf8_3 b b2 b3) as [cp|] eqn:Hcp; [|discriminate].
      cbn [option_map] in Hd.
      change (Decode 8 (hexdigit (b / 16) :: hexdigit (b mod 16)
                          :: pct b2 ++ pct b3 ++ escape bs3))
        with (Decode 0 (escape bs3)) in Hd.
      destruct (Decode 0 (escape bs3)) as [d'|] eqn:Hd'; [|discriminate].
      injection Hd as <-.
      inversion Ho2 as [|? ? _ Ho3]; subst.
      destruct (IH bs3 d') as (cps & Hcps & -> & ->); auto.
      { simpl in Hlen. lia. }
      destruct (utf8_3_inv b b2 b3 cp ltac:(lia) Hcp) as [Hs Hu].
      exists (cp :: cps). split; [now constructor|].
      cbn [flat_map]. rewrite Hu. split; reflexivity. }
    destruct (Z.ltb_spec b 248) as [H248|H248]; [|discriminate].
    destruct (octet_at (escape bs')) as [b2|] eqn:E2; [|discriminate].
    destruct (octet_at_escape bs' b2 Ho' E2) as (bs2 & -> & Hesc).
    rewrite Hesc in Hd. rewrite skipn3_pct in Hd.
    inversion Ho' as [|? ? _ Ho2]; subst.
    destruct (octet_at (escape bs2)) as [b3|] eqn:E3; [|discriminate].
    destruct (octet_at_escape bs2 b3 Ho2 E3) as (bs3 & -> & Hesc3).
    rewrite Hesc3 in Hd.
    change (skipn 6 (pct b2 ++ pct b3 ++ escape bs3)) with (escape bs3) in Hd.
    inversion Ho2 as [|? ? _ Ho3]; subst.
    destruct (octet_at (escape bs3)) as [b4|] eqn:E4; [|discriminate].
    destruct (octet_at_escape bs3 b4 Ho3 E4) as (bs4 & -> & Hesc4).
    rewrite Hesc4 in Hd.
    destruct (utf8_4 b b2 b3 b4) as [cp|] eqn:Hcp; [|discriminate].
    cbn [option_map] in Hd.
    change (Decode 11 (hexdigit (b / 16) :: hexdigit (b mod 16)
                         :: pct b2 ++ pct b3 ++ pct b4 ++ escape bs4))
      with (Decode 0 (escape bs4)) in Hd.
    destruct (Decode 0 (escape bs4)) as [d'|] eqn:Hd'; [|discriminate].
    injection Hd as <-.
    inversion Ho3 as [|? ? _ Ho4]; subst.
    destruct (IH bs4 d') as (cps & Hcps & -> & ->); auto.
    { simpl in Hlen. lia. }
    destruct (utf8_4_inv b b2 b3 b4 cp ltac:(lia) Hcp) as [Hs Hu].
    exists (cp :: cps). split; [now constructor|].
    cbn [flat_map]. rewrite Hu. split; reflexivity.
Qed.

Lemma utf16_units cps : Forall scalar cps -> Forall code_unit (flat_map utf16 cps).
Proof.
  induction 1 as [|cp cps [Hr Hs] _ IH]; [constructor|].
  cbn [flat_map]. apply Forall_app. split; [|exact IH].
  unfold utf16, code_unit.
  destruct (Z.ltb_spec cp 65536); repeat constructor; lia.
Qed.

Lemma base64decode_inv s d :
  base64decode s = inr d ->
  exists bs cps,
    atob s = inr bs /\ Forall scalar cps
    /\ bs = flat_map utf8 cps /\ d = flat_map utf16 cps.
Proof.
  unfold base64decode. destruct (atob s) as [e|bs] eqn:Ha; [discriminate|].
  cbn [pbind]. unfold decodeURIComponent.
  destruct (Decode 0 (escape bs)) as [d'|] eqn:Hd; [|discriminate].
  intros [= <-].
  destruct (Decode_escape_inv (List.length bs) bs d' (le_n _)
              (atob_octets s bs Ha) Hd) as (cps & Hcps & Hbs & Hd').
  exists bs, cps. repeat split; assumption.
Qed.

End DecodeInverse.

(** X24 (decoded content can be encoded again): whatever [base64decode]
    returns is a well-formed string (it holds no lone surrogate), so
    [base64encode] accepts it, and decoding the result gives the same string
    again; when the input was the plain base64 text of some octets (no
    whitespace, full padding), encoding the decoded string gives the input
    back. *)
Theorem decoded_content_encodes_back :
  forall (s d : jstr),
    base64decode s = inr d ->
    Forall code_unit d
    /\ well_formed d = true
    /\ (exists e, base64encode d = inr e /\ base64decode e = inr d)
    /\ (forall bs, Forall Transport.octet bs -> s = b64enc bs ->
                   base64encode d = inr s).
Proof.
  intros s d Hd.
  destruct (base64decode_inv s d Hd) as (bs & cps & Ha & Hcps & Hbs & ->).
  pose proof (utf16_units cps Hcps) as Hu.
  pose proof (base64encode_code_points cps Hcps) as He.
  split; [exact Hu|]. split; [|split].
  - exact (base64encode_well_formed _ _ Hu He).
  - eexists. split; [exact He|]. now apply base64decode_code_points.
  - intros bs' Hbs' ->. rewrite (atob_b64enc bs' Hbs') in Ha.
    injection Ha as ->. rewrite He, Hbs. reflexivity.
Qed.

Lemma decoded_content_encodes_back_witness :
  Forall code_unit [233; 8364]
  /\ well_formed [233; 8364] = true
  /\ (exists e, base64encode [233; 8364] = inr e /\ base64decode e = inr [233; 8364])
  /\ (forall bs, Forall Transport.octet bs -> lit "w6nigqw=" = b64enc bs ->
                 base64encode [233; 8364] = inr (lit "w6nigqw=")).
Proof.
  apply (decoded_content_encodes_back (lit "w6nigqw=") [233; 8364]).
  reflexivity.
Defined.

(** X25 (what is written can be read back): the [content] field of the
    write issued for a proposed change holds a text that [base64decode],
    which the collector applies to what it reads, maps back to the proposed
    content. *)
Theorem written_content_reads_back :
  forall (R : Runtime) (token owner repo : value) (newBranch : jstr)
         (file : value) (acc : list value) (w : World R)
         (content : value) (c : Call) (n : Net),
    get file (lit "content") = inr content ->
    Forall code_unit (toStr content) ->
    In (c, n) (snd (Harmonizer.commit_file (Harmonizer.ghClient token) owner repo
                      newBranch file acc w)) ->
    site c = PutFile ->
    exists encoded,
      Behaviour.field "content" c = Some (VStr encoded)
      /\ base64decode encoded = inr (toStr content).
Proof.
  intros R token owner repo newBranch file acc w content c n Hc Hu Hin Hs.
  exact (written_content_decodes R token owner repo newBranch file acc w
           content c n Hc Hu Hin Hs).
Qed.

Lemma written_content_reads_back_witness :
  exists encoded,
    Behaviour.field "content" Cases.put_call = Some (VStr encoded)
    /\ base64decode encoded = inr (lit "new").
Proof.
  apply (written_content_reads_back Mock.e2e_runtime (Mock.str "ghp_token")
           (Mock.str "acme") (Mock.str "site") (lit "asa-harmonizer-1") Cases.change []
           [Mock.ok_json Mock.blob; Mock.ok_json Mock.written]
           (Mock.str "new") Cases.put_call (Mock.ok_json Mock.written)).
  - reflexivity.
  - repeat constructor; unfold code_unit; lia.
  - vm_compute. right. left. reflexivity.
  - reflexivity.
Defined.

(** ** What the collector adds *)

Section Growth.
Import Harmonizer Spec Behaviour.
Context {R : Runtime}.
Local Notation M := (M (R:=R)).
Local Notation sat := (sat (R:=R)).

Lemma grows_same out t : grows out (Done out) t.
Proof.
  intros out' [= <-]. exists []. rewrite app_nil_r.
  repeat split; [apply Nat.le_0_l|constructor].
Qed.

Lemma grows_raised out e t : grows out (Raised e) t.
Proof. intros out' H. discriminate. Qed.

Lemma grows_out_of_fuel out t : grows out OutOfFuel t.
Proof. intros out' H. discriminate. Qed.

Lemma grows_cons out o ev t : grows out o t -> grows out o (ev :: t).
Proof.
  intros H out' Ho. destruct (H out' Ho) as (added & -> & Hlen & Hb).
  exists added. repeat split; auto. rewrite count_site_cons. lia.
Qed.

Lemma grows_trans out mid o t1 t2 :
  grows out (Done mid) t1 -> grows mid o t2 -> grows out o (t1 ++ t2).
Proof.
  intros H1 H2 out' Ho.
  destruct (H1 mid eq_refl) as (a1 & -> & Hl1 & Hb1).
  destruct (H2 out' Ho) as (a2 & -> & Hl2 & Hb2).
  exists (a1 ++ a2). rewrite <- app_assoc. split; [reflexivity|]. split.
  - rewrite length_app, count_site_app. lia.
  - apply Forall_app. now split.
Qed.

Lemma grows_bind out (m : M (list CollectedFile))
    (k : list CollectedFile -> M (list CollectedFile)) :
  sat m (grows out) -> (forall mid, sat (k mid) (grows mid)) ->
  sat (bind m k) (grows out).
Proof.
  intros Hm Hk. eapply sat_bind.
  - exact Hm.
  - intros mid t1 H1. eapply sat_weaken; [apply Hk|].
    intros o t2 H2. eapply grows_trans; eauto.
  - intros e t1 _. apply grows_raised.
  - intros t1 _. apply grows_out_of_fuel.
Qed.

Lemma grows_for_of {A} (body : A -> list CollectedFile -> M (list CollectedFile)) l :
  (forall x acc, sat (body x acc) (grows acc)) ->
  forall acc, sat (for_of body l acc) (grows acc).
Proof.
  intros Hb. induction l as [|x l IH]; intros acc; simpl.
  - apply sat_ret. apply grows_same.
  - apply grows_bind; [apply Hb|exact IH].
Qed.

Lemma pushFile_grows owner repo branch path token out :
  sat (pushFile owner repo branch path token out) (grows out).
Proof.
  unfold pushFile. walk;
    try apply grows_raised; try apply grows_same.
  match goal with
  | |- grows _ (Done (_ ++ ?l)) _ =>
      intros out' Ho; injection Ho as Ho; subst out'; exists l
  end.
  split; [reflexivity|]. split.
  - rewrite count_site_cons. cbn [List.length]. unfold from_site.
    cbn [fst site]. lia.
  - apply Forall_cons; [|apply Forall_nil]. unfold bounded. cbn [f_content].
    apply firstn_le_length.
Qed.

Lemma crawlGitHubDir_grows fuel : forall owner repo branch path token out,
  sat (crawlGitHubDir fuel owner repo branch path token out) (grows out).
Proof.
  induction fuel as [|fuel IH]; intros owner repo branch path token out; simpl.
  { apply sat_diverge. apply grows_out_of_fuel. }
  apply sat_lift_bind; [intros e _; apply grows_raised|intros u _].
  apply sat_fetch_then; [apply grows_raised|intros res].
  destruct (res_ok res); cbn [negb]; [|apply sat_ret; apply grows_same].
  apply sat_json_bind; [intros _; apply grows_raised|intros data _].
  apply sat_weaken with (P := grows out);
    [|intros o t H; now apply grows_cons].
  apply grows_bind.
  - destruct data; try (apply sat_ret; apply grows_same).
    apply grows_for_of. intros item acc.
    apply sat_lift_bind; [intros e _; apply grows_raised|intros ty _].
    destruct (is_str ty (lit "dir")).
    + apply sat_lift_bind; [intros e _; apply grows_raised|intros q _]. apply IH.
    + destruct (is_str ty (lit "file")); [|apply sat_ret; apply grows_same].
      apply sat_lift_bind; [intros e _; apply grows_raised|intros q _].
      apply pushFile_grows.
  - intros out1.
    apply sat_lift_bind; [intros e _; apply grows_raised|intros ty _].
    destruct (is_str ty (lit "file")); [|apply sat_ret; apply grows_same].
    apply sat_lift_bind; [intros e _; apply grows_raised|intros q _].
    apply pushFile_grows.
Qed.

End Growth.

(** X26 (the collector only appends): a traversal that completes has left
    the files collected before it in place and in order, and has appended at
    most one file per file read it made, each with at most 7000 code units
    of content. *)
Theorem collector_only_appends :
  forall (R : Runtime) (fuel : nat) (owner repo branch path token : value)
         (out out' : list Harmonizer.CollectedFile) (w w' : World R)
         (t : list Event),
    Harmonizer.crawlGitHubDir fuel owner repo branch path token out w
    = (Done out', w', t) ->
    exists added,
      out' = out ++ added
      /\ (List.length added <= Behaviour.count_site PushFetch t)%nat
      /\ Forall Behaviour.bounded added.
Proof.
  intros R fuel owner repo branch path token out out' w w' t Hrun.
  pose proof (crawlGitHubDir_grows fuel owner repo branch path token out w) as H.
  rewrite Hrun in H. exact (H out' eq_refl).
Qed.

Lemma collector_only_appends_witness :
  exists added,
    [Harmonizer.mkFile (Mock.str "docs/a.txt") (lit "old");
     Harmonizer.mkFile (Mock.str "docs/sub/b.txt") (lit "new")]
    = [] ++ added
    /\ (List.length added
        <= Behaviour.count_site PushFetch
             (snd (Harmonizer.crawlGitHubDir (R:=Mock.docs_runtime) 2 (Mock.str "acme")
                     (Mock.str "site") (Mock.str "main") (Mock.str "docs")
                     (Mock.str "ghp_token") [] tt)))%nat
    /\ Forall Behaviour.bounded added.
Proof.
  apply (collector_only_appends Mock.docs_runtime 2 (Mock.str "acme")
           (Mock.str "site") (Mock.str "main") (Mock.str "docs")
           (Mock.str "ghp_token") [] _ tt tt).
  reflexivity.
Defined.

(** ** A request whose [paths] is a text *)

Section TextPaths.
Import CodeHarmonizer CodeBehaviour.
Context {R : Runtime}.
Local Notation sat := (sat (R:=R)).

Lemma target_lines_text c0 s :
  target_lines (or_else (VStr (c0 :: s)) (VArr [])) = inl TypeError.
Proof.
  unfold or_else. cbn [truthy]. unfold target_lines. cbn [get pbind].
  replace (jstr_eqb length_key length_key) with true by reflexivity.
  cbn [truthy List.length]. rewrite Nat2Z.inj_succ.
  replace (Z.succ (Z.of_nat (List.length s)) =? 0) with false; [reflexivity|].
  symmetry. apply Z.eqb_neq. lia.
Qed.

Lemma text_paths_strand env b c0 s :
  get b (lit "paths") = inr (VStr (c0 :: s)) ->
  sat (harmonize env b) stranded.
Proof.
  intros Hb. unfold harmonize. cbv zeta.
  assert (Hnone : forall (o : outcome Response) t,
            Forall (fun e => site (fst e) = BaseRef
                             \/ site (fst e) = CreateBranch
                                /\ forall r, snd e = Replied r -> res_ok r = false) t ->
            stranded o t).
  { intros o t Ht. repeat split.
    - induction Ht as [|e t He _ IH]; [reflexivity|].
      rewrite count_site_cons, IH. unfold Behaviour.from_site.
      destruct He as [->|[-> _]]; reflexivity.
    - induction Ht as [|e t He _ IH]; [reflexivity|].
      rewrite count_site_cons, IH. unfold Behaviour.from_site.
      destruct He as [->|[-> _]]; reflexivity.
    - intros c r Hin Hs Hok. rewrite Forall_forall in Ht.
      destruct (Ht _ Hin) as [H|[_ H]]; simpl in H.
      + congruence.
      + rewrite (H r eq_refl) in Hok. discriminate. }
  apply sat_lift_bind; [intros e _; apply Hnone; constructor|intros t0 _].
  apply sat_lift_bind; [intros e _; apply Hnone; constructor|intros d0 _].
  apply sat_lift_bind; [intros e _; apply Hnone; constructor|intros p0 Hp0].
  rewrite Hb in Hp0. injection Hp0 as <-.
  walk;
    try (apply Hnone; repeat constructor; simpl; intros; congruence);
    match goal with
    | H : target_lines _ = _ |- _ => rewrite target_lines_text in H
    end;
    try discriminate.
  match goal with
  | H : inl _ = inl _ |- _ => injection H as <-
  end.
  repeat split; try reflexivity.
Qed.

End TextPaths.

(** X27 (a request whose [paths] is a text): when the body of a request to
    the code-harmonizer worker gives [paths] as a non-empty text instead of
    a list, the run writes no file and opens no pull request; yet the fault
    is met only when the touchpoint file is put together, after the branch:
    once the branch was created, the answer is the status 500 of a
    [TypeError], and the branch is left behind. *)
Theorem text_paths_fail_after_the_branch :
  forall (R : Runtime) (request : CodeHarmonizer.Request)
         (env : CodeHarmonizer.Env) (w : World R) (b : value) (c0 : Z) (s : jstr),
    CodeBehaviour.routed request ->
    CodeHarmonizer.req_json request = Some b ->
    get b (lit "paths") = inr (VStr (c0 :: s)) ->
    let run := CodeHarmonizer.fetch request env w in
    Behaviour.count_site PutFile (snd run) = 0%nat
    /\ Behaviour.count_site CreatePR (snd run) = 0%nat
    /\ forall c r,
         In (c, Replied r) (snd run) -> site c = CreateBranch -> res_ok r = true ->
         fst (fst run)
         = Done (CodeHarmonizer.JsonResponse 500
                   (VObj [(lit "ok", VBool false);
                          (lit "error", VStr (engine_string R TypeError))])).
Proof.
  intros R request env w b c0 s Hr Hj Hb run. subst run.
  rewrite (code_fetch_routed request env w Hr), Hj.
  pose proof (text_paths_strand env b c0 s Hb w) as (H1 & H2 & H3). unfold catch.
  destruct (CodeHarmonizer.harmonize env b w) as [[[x|e|] w1] t];
    cbn [fst snd ret] in *.
  - repeat split; auto. intros c r Hin Hs Hok.
    specialize (H3 c r Hin Hs Hok). discriminate.
  - rewrite app_nil_r. repeat split; auto. intros c r Hin Hs Hok.
    specialize (H3 c r Hin Hs Hok). injection H3 as ->. reflexivity.
  - repeat split; auto. intros c r Hin Hs Hok.
    specialize (H3 c r Hin Hs Hok). discriminate.
Qed.

Lemma text_paths_fail_after_the_branch_witness :
  let run := CodeHarmonizer.fetch (R:=Mock.e2e_runtime)
               (Cases.code_request Cases.text_paths) Cases.code_env
               Cases.code_script in
  Behaviour.count_site PutFile (snd run) = 0%nat
  /\ Behaviour.count_site CreatePR (snd run) = 0%nat
  /\ forall c r,
       In (c, Replied r) (snd run) -> site c = CreateBranch -> res_ok r = true ->
       fst (fst run)
       = Done (CodeHarmonizer.JsonResponse 500
                 (VObj [(lit "ok", VBool false);
                        (lit "error", VStr (lit "Error: runtime error"))])).
Proof.
  apply (text_paths_fail_after_the_branch Mock.e2e_runtime
           (Cases.code_request Cases.text_paths) Cases.code_env Cases.code_script
           Cases.text_paths 115 (lit "rc")).
  - split; reflexivity.
  - reflexivity.
  - reflexivity.
Defined.
